(** * babystat: growth-series derivation and percentile estimation

    A shallow embedding of [src/babystat.py] (class [Child]):
    [import_weight_data] (the derived columns of the weight table) and
    [calculate_child_percentiles] (the percentile of the latest weight
    under a normal approximation of the WHO reference row), and, for
    the further properties at the end, the constructor, the text of an
    object and the drawing methods.

    Numbers are IEEE-754 binary64 values, as numpy's [float64]: Rocq's
    primitive [float], with its NaN, infinities and signed zeros.  Day
    counts are integers ([Z]).  A Python exception is an [exn] carried
    by the [result] monad.

    The library calls of the source are modelled by what they do on
    the values it passes: positional access ([iloc]), [Series.diff],
    [np.diff], the label slice of an index ([loc]), the builtin [sum]
    and [scipy.stats.norm.cdf].  The normal distribution function
    [scipy.special.ndtr] itself is compiled code and stays a parameter
    of the model, as does [pd.read_csv] on the WHO tables.  Printed
    lines and the calls of [matplotlib.pyplot] are recorded in the
    order they are made. *)

From Stdlib Require Import ZArith List Bool Lia Floats.
From Stdlib Require String Ascii.
Import ListNotations.
Import String.StringSyntax.

Set Warnings "-inexact-float".

Local Open Scope Z_scope.

Delimit Scope string_scope with string.
Bind Scope string_scope with String.string.

(** ** Python exceptions and the error monad

    [LookupError] is Python's common base class of [KeyError] and
    [IndexError].  The model raises it where the source looks up the
    label [0] in an empty column: which of the two classes pandas
    raises there is decided by the index of the empty table (an
    [IndexError] on the object index that [read_csv] gives an empty
    table before pandas 2.0, where an integer key falls back to the
    position; a [KeyError] on a [RangeIndex]), not by the program. *)

Inductive exn : Set :=
| KeyError
| IndexError
| ValueError
| LookupError.

(** The classes an exception of the model can have in Python. *)
Definition python_classes (e : exn) : list exn :=
  match e with
  | LookupError => [KeyError; IndexError]
  | _ => [e]
  end.

Inductive result (A : Type) : Type :=
| Ok (a : A)
| Raise (e : exn).

Arguments Ok {A} a.
Arguments Raise {A} e.

Definition bind {A B : Type} (c : result A) (k : A -> result B) : result B :=
  match c with
  | Ok a => k a
  | Raise e => Raise e
  end.

Notation "x <- c ;; k" := (bind c (fun x => k))
  (at level 61, c at next level, right associativity).

(** ** Python and pandas primitives used by the source *)

Module Py.

(** Positional access [l.iloc[k]] (and Python's [l[k]]): a negative
    position counts from the end; anything outside [-len, len) raises
    [IndexError]. *)
Definition iloc {A : Type} (l : list A) (k : Z) : result A :=
  let n := Z.of_nat (length l) in
  let k' := if k <? 0 then k + n else k in
  if (0 <=? k') && (k' <? n) then
    match nth_error l (Z.to_nat k') with
    | Some a => Ok a
    | None => Raise IndexError
    end
  else Raise IndexError.

(** Conversion of an integer to binary64 (round to nearest, ties to
    even), as numpy converts an [int64] operand of a float division. *)
Definition float_of_Z (z : Z) : float :=
  SF2Prim (binary_normalize prec emax z 0 false).

(** The builtin [sum]: a left fold of [+] from the integer [0]. *)
Definition sum (l : list float) : float :=
  fold_left PrimFloat.add l 0%float.

End Py.

Module Pandas.

(** [Series.diff()]: element [i] is [x_i - x_(i-1)]; element 0 is NaN. *)
Fixpoint diff_from (prev : float) (l : list float) : list float :=
  match l with
  | [] => []
  | x :: t => (x - prev)%float :: diff_from x t
  end.

Definition diff (l : list float) : list float :=
  match l with
  | [] => []
  | x :: t => nan :: diff_from x t
  end.

(** [np.diff] on an integer array. *)
Fixpoint np_diff_from (prev : Z) (l : list Z) : list Z :=
  match l with
  | [] => []
  | x :: t => (x - prev) :: np_diff_from x t
  end.

Definition np_diff (l : list Z) : list Z :=
  match l with
  | [] => []
  | x :: t => np_diff_from x t
  end.

(** [np.insert(a, 0, v)]. *)
Definition np_insert0 (a : list Z) (v : Z) : list Z := v :: a.

(** *** Label slicing on an index, [frame.loc[b:e]]

    [Index.slice_locs] asks [get_slice_bound] for the left bound of
    [b] and the right bound of [e].  A label present in the index is
    located by [get_loc] (one position, or a run of equal labels; a
    run with holes has no slice bound: [KeyError]).  A label that is
    absent is placed by [searchsorted] when the index is monotonic,
    and raises [KeyError] otherwise. *)

Inductive side : Set := Left | Right.

Definition flip (s : side) : side :=
  match s with Left => Right | Right => Left end.

Fixpoint is_monotonic_increasing (l : list Z) : bool :=
  match l with
  | [] => true
  | x :: t =>
      match t with
      | [] => true
      | y :: _ => (x <=? y) && is_monotonic_increasing t
      end
  end.

Fixpoint is_monotonic_decreasing (l : list Z) : bool :=
  match l with
  | [] => true
  | x :: t =>
      match t with
      | [] => true
      | y :: _ => (y <=? x) && is_monotonic_decreasing t
      end
  end.

(** [searchsorted] on a sorted array: the insertion point that keeps
    the order, before ([Left]) or after ([Right]) equal entries. *)
Definition searchsorted (l : list Z) (v : Z) (s : side) : nat :=
  match s with
  | Left => length (filter (fun x => x <? v) l)
  | Right => length (filter (fun x => x <=? v) l)
  end.

(** Positions of a label, in increasing order, counted from [from]. *)
Fixpoint positions_from (from : nat) (l : list Z) (v : Z) : list nat :=
  match l with
  | [] => []
  | x :: t =>
      if x =? v then from :: positions_from (S from) t v
      else positions_from (S from) t v
  end.

Definition positions (l : list Z) (v : Z) : list nat := positions_from 0 l v.

(** The positions form one run [p, p+1, ...]. *)
Fixpoint contiguous (p : nat) (ps : list nat) : bool :=
  match ps with
  | [] => true
  | q :: t => Nat.eqb q (S p) && contiguous q t
  end.

Definition get_slice_bound (idx : list Z) (label : Z) (s : side) : result nat :=
  match positions idx label with
  | [] =>
      if is_monotonic_increasing idx then Ok (searchsorted idx label s)
      else if is_monotonic_decreasing idx then
        Ok (length idx - searchsorted (rev idx) label (flip s))%nat
      else Raise KeyError
  | p :: ps =>
      if contiguous p ps then
        Ok (match s with Left => p | Right => S (last ps p) end)
      else Raise KeyError
  end.

(** The positional slice [rows[lo:hi]]. *)
Definition slice {A : Type} (lo hi : nat) (rows : list A) : list A :=
  firstn (hi - lo) (skipn lo rows).

(** [frame.set_index(col).loc[b:e]], the index column given by [key]. *)
Definition loc_slice {A : Type} (key : A -> Z) (rows : list A) (b e : Z)
  : result (list A) :=
  lo <- get_slice_bound (map key rows) b Left ;;
  hi <- get_slice_bound (map key rows) e Right ;;
  Ok (slice lo hi rows).

End Pandas.

Module Scipy.

Section NormCdf.

(** [scipy.special.ndtr], the standard normal distribution function, is
    compiled code of the library: it stays a parameter. *)
Variable ndtr : float -> float.

(** [scipy.stats.norm.cdf(x, loc, scale)] on scalars
    ([rv_continuous.cdf]): the argument is standardised first, then the
    output, initially [0], is overwritten in this order: the bad value
    NaN where [scale > 0] fails or the standardised argument is NaN,
    [1.0] at the upper end of the support, and [ndtr] inside it. *)
Definition norm_cdf (x loc scale : float) : float :=
  let z := ((x - loc) / scale)%float in
  let cond0 := (0 <? scale)%float in
  let cond1 := (neg_infinity <? z)%float && (z <? infinity)%float && cond0 in
  let cond2 := (infinity <=? z)%float && cond0 in
  let cond := cond0 && cond1 in
  let output := 0%float in
  let output := if negb cond0 || is_nan z then nan else output in
  let output := if cond2 then 1%float else output in
  if cond then ndtr z else output.

End NormCdf.

End Scipy.

(** ** The weight table *)

(** A data line of the weight file as [read_csv] returns it (the
    header line is replaced by the column names): the parsed date, as
    a day number (dates are parsed with the format YYYY-mm-dd, so they
    carry no time of day), and the measured weight. *)
Record Measurement : Set := mkMeasurement {
  m_date : Z;
  m_weight : float
}.

(** A row of the table at the time the weekly loop runs. *)
Record Row : Set := mkRow {
  date : Z;
  measured_weight : float;
  life_days : Z;
  measurement_days : Z;
  weight_gain : float;
  daily_weight_gain : float
}.

(** A row of the returned table. *)
Record WeightRow : Set := mkWeightRow {
  base : Row;
  weekly_weight_gain : float
}.

(** A row of the WHO weight-for-age table [self._growth_data]: the day
    and the mean and deviation bands read by the source. *)
Record GrowthRow : Set := mkGrowthRow {
  Day : Z;
  SD0 : float;
  SD1 : float;
  SD1neg : float;
  SD2 : float;
  SD2neg : float;
  SD3 : float;
  SD3neg : float
}.

(** ** Output, downloads and drawing

    What the methods of [Child] do besides computing is kept as the
    list of the calls they make, in order: the lines given to [print],
    the files asked from [pd.read_csv] and the calls of
    [matplotlib.pyplot].  A drawing call is recorded with its
    arguments and is not interpreted. *)

(** A Python value passed to the plotting library. *)
Inductive pyval : Set :=
| py_str (s : String.string)
| py_int (z : Z)
| py_float (f : float).

(** Keyword arguments, in the order they are given. *)
Definition kwargs : Set := list (String.string * pyval).

(** An entry of a legend: a text, or the text
    ['%.2f-percentile' % p] for the number [p]. *)
Inductive label : Set :=
| lbl_text (s : String.string)
| lbl_percentile (p : float).

Inductive event : Set :=
| print (line : String.string)
| pd_read_csv (url sep : String.string)
| plt_figure (figsize : list pyval)
| plt_subplot (nrows ncols index : Z)
| plt_plot (x : list Z) (y : list float) (kw : kwargs)
| plt_fill_between (x : list Z) (y1 y2 : list float) (kw : kwargs)
| plt_errorbar (x : list Z) (y : list float) (kw : kwargs)
| plt_legend (labels : list label)
| plt_xlim (limits : list pyval)
| plt_ylim (limits : list pyval)
| plt_xscale (value : String.string)
| plt_ylabel (text : String.string)
| plt_xlabel (text : String.string)
| plt_grid (visible : bool) (kw : kwargs)
| plt_show.

(** A computation that makes calls and then returns or raises: the
    calls made up to that point, and the outcome. *)
Definition traced (A : Type) : Type := list event * result A.

Definition emit (ev : event) : traced unit := ([ev], Ok tt).

Definition lift {A : Type} (r : result A) : traced A := ([], r).

Definition tbind {A B : Type} (c : traced A) (k : A -> traced B) : traced B :=
  match snd c with
  | Ok a => (fst c ++ fst (k a), snd (k a))
  | Raise e => (fst c, Raise e)
  end.

Notation "x <~ c ;; k" := (tbind c (fun x => k))
  (at level 61, c at next level, right associativity).

Notation "c ;;; k" := (tbind c (fun _ => k))
  (at level 61, right associativity).

(** [col[0]] on a column with the default index: the label [0] is the
    first position; on an empty column the lookup fails with a
    [LookupError] ([KeyError] or [IndexError], by the index of the
    empty table). *)
Definition at_label_0 {A : Type} (col : list A) : result A :=
  match col with
  | [] => Raise LookupError
  | a :: _ => Ok a
  end.

(** The tabulator ['\t'] and the line feed ['\n']. *)
Definition tab : String.string :=
  String.String (Ascii.ascii_of_nat 9) String.EmptyString.

Definition newline : String.string :=
  String.String (Ascii.ascii_of_nat 10) String.EmptyString.

(** The attributes of a [Child] object. *)
Record Object : Set := mkObject {
  _gender : String.string;
  _birthday : String.string;
  _name : String.string;
  _growth_data : list GrowthRow
}.

Module Child.

(** [weight_data['life_days'] = weight_data['date'] - weight_data['date'][0]];
    the label [0] is looked up in the index of the column, so an empty
    column fails with a [LookupError]: an [IndexError] before pandas
    2.0 and a [KeyError] from then on. *)
Definition col_life_days (dates : list Z) : result (list Z) :=
  match dates with
  | [] => Raise LookupError
  | d0 :: _ => Ok (map (fun d => d - d0) dates)
  end.

(** [weight_gain / np.insert(np.diff(measurement_days), 0, 0) * 7],
    element by element. *)
Definition col_daily_weight_gain (gain : list float) (days : list Z)
  : list float :=
  map (fun gd => (fst gd / Py.float_of_Z (snd gd) * 7)%float)
      (combine gain (Pandas.np_insert0 (Pandas.np_diff days) 0)).

(** The rows of the table from its columns. *)
Fixpoint zip_rows (ms : list Measurement) (life days : list Z)
         (gain daily : list float) : list Row :=
  match ms, life, days, gain, daily with
  | m :: ms', l :: life', d :: days', g :: gain', r :: daily' =>
      mkRow (m_date m) (m_weight m) l d g r
      :: zip_rows ms' life' days' gain' daily'
  | _, _, _, _, _ => []
  end.

(** One turn of the loop [for i in range(len(weight_data))]: the
    value appended to [weekly_weight_gain]. *)
Definition weekly_at (frame : list Row) (i : nat) : result float :=
  row_i <- Py.iloc frame (Z.of_nat i) ;;
  let begin_date := life_days row_i - 6 in
  let end_date := life_days row_i in
  subset <- Pandas.loc_slice life_days frame begin_date end_date ;;
  if Nat.eqb (length subset) 1 then
    prev <- Py.iloc frame (Z.of_nat i - 1) ;;
    if measurement_days row_i - measurement_days prev >? 6 then
      Ok (daily_weight_gain row_i)
    else Ok (Py.sum (map weight_gain subset))
  else Ok (Py.sum (map weight_gain subset)).

(** The loop, over the indexes in [range], appending to the list. *)
Fixpoint weekly_loop (frame : list Row) (range : list nat)
         (weekly_weight_gain : list float) : result (list float) :=
  match range with
  | [] => Ok weekly_weight_gain
  | i :: rest =>
      w <- weekly_at frame i ;;
      weekly_loop frame rest (weekly_weight_gain ++ [w])
  end.

(** [Child.import_weight_data], from the table read from the file on:
    the columns are derived in the order of the source, the weekly
    gains by the loop, and the table is returned with the new column.
    [measurement_days] is the [days] field of [life_days], the same
    whole number of days. *)
Definition import_weight_data (file : list Measurement)
  : result (list WeightRow) :=
  let dates := map m_date file in
  life <- col_life_days dates ;;
  let days := life in
  let gain := Pandas.diff (map m_weight file) in
  let daily := col_daily_weight_gain gain days in
  let frame := zip_rows file life days gain daily in
  weekly <- weekly_loop frame (seq 0 (length frame)) [] ;;
  Ok (map (fun rw => mkWeightRow (fst rw) (snd rw)) (combine frame weekly)).

(** [Child.calculate_child_percentiles]: the reference row is read at
    the position given by the age of the last sample, once for each
    use in the source. *)
Definition calculate_child_percentiles (ndtr : float -> float)
           (growth_data : list GrowthRow) (child_weight_data : list WeightRow)
           (weight_offset : float) : result float :=
  last_row <- Py.iloc child_weight_data (-1) ;;
  let most_recent_day := life_days (base last_row) in
  g_loc <- Py.iloc growth_data most_recent_day ;;
  let loc := SD0 g_loc in
  g_mean <- Py.iloc growth_data most_recent_day ;;
  g_low <- Py.iloc growth_data most_recent_day ;;
  let scale := (SD0 g_mean - SD1neg g_low)%float in
  last_row' <- Py.iloc child_weight_data (-1) ;;
  Ok (Scipy.norm_cdf ndtr (measured_weight (base last_row'))
                     (loc + weight_offset)%float scale).

(** [pd.read_csv(url, sep=...)] on the WHO tables: the download and
    its parsing are outside the program and stay a parameter,
    [read_csv]; what it raises is raised by the caller. *)
Definition call_read_csv
           (read_csv : String.string -> String.string -> result (list GrowthRow))
           (url sep : String.string) : traced (list GrowthRow) :=
  ([pd_read_csv url sep], read_csv url sep).

(** [Child.__init__]. *)
Definition __init__
           (read_csv : String.string -> String.string -> result (list GrowthRow))
           (gender birthday name : String.string) : traced Object :=
  emit (print (String.append "retrieving WHO child growth data for "
                 (String.append gender "s ..."))) ;;;
  if String.eqb gender "male" then
    let url := "http://www.who.int/childgrowth/standards/wfa_boys_z_exp.txt"%string in
    growth_data <~ call_read_csv read_csv url tab ;;
    emit (print "done.") ;;;
    lift (Ok (mkObject gender birthday name growth_data))
  else if String.eqb gender "female" then
    let url := "http://www.who.int/childgrowth/standards/wfa_girls_z_exp.txt"%string in
    growth_data <~ call_read_csv read_csv url tab ;;
    emit (print "done.") ;;;
    lift (Ok (mkObject gender birthday name growth_data))
  else lift (Raise ValueError).

(** [Child.__str__]. *)
Definition __str__ (self : Object) : String.string :=
  String.append "Name: "
    (String.append (_name self)
       (String.append newline
          (String.append "Date of Birth: "
             (String.append (_birthday self)
                (String.append newline
                   (String.append "Gender: " (_gender self))))))).

(** [Child._fill_percentile_curves]: the mean curve and the three
    bands, each column shifted by the offset. *)
Definition _fill_percentile_curves (self : Object) (weight_offset : float)
           (kw : kwargs) : traced unit :=
  let column (f : GrowthRow -> float) :=
    map (fun r => (f r + weight_offset)%float) (_growth_data self) in
  let days := map Day (_growth_data self) in
  emit (plt_plot days (column SD0) kw) ;;;
  emit (plt_fill_between days (column SD1neg) (column SD1)
          (kw ++ [("alpha"%string, py_float 0.3)])) ;;;
  emit (plt_fill_between days (column SD2neg) (column SD2)
          (kw ++ [("alpha"%string, py_float 0.2)])) ;;;
  emit (plt_fill_between days (column SD3neg) (column SD3)
          (kw ++ [("alpha"%string, py_float 0.1)])).

(** [Child._plot_child_data]: the ages, read label by label over
    [range(len(...))], against the weights. *)
Definition _plot_child_data (child_weight_data : list WeightRow)
           (kw : kwargs) : traced unit :=
  emit (plt_errorbar (map (fun r => life_days (base r)) child_weight_data)
          (map (fun r => measured_weight (base r)) child_weight_data) kw).

(** [Child._percentile_plot]: the percentile is computed while the
    list of the legend is built, after the curves and the points have
    been drawn. *)
Definition _percentile_plot (ndtr : float -> float) (self : Object)
           (child_weight_data : list WeightRow) (x_lim y_lim : pyval)
           (color : String.string) (offset : float) (name : String.string)
  : traced unit :=
  _fill_percentile_curves self offset [("color"%string, py_str color)] ;;;
  _plot_child_data child_weight_data
    [("color"%string, py_str "black"); ("linestyle"%string, py_str "none");
     ("marker"%string, py_str "o"); ("yerr"%string, py_float 0.25)] ;;;
  percentile <~ lift (calculate_child_percentiles
                        ndtr (_growth_data self) child_weight_data offset) ;;
  emit (plt_legend [lbl_text name; lbl_text "$\pm 1\sigma$";
                    lbl_text "$\pm 2\sigma$"; lbl_text "$\pm 3\sigma$";
                    lbl_percentile percentile]) ;;;
  emit (plt_xlim [py_int 1; x_lim]) ;;;
  emit (plt_ylim [py_float 2.5; y_lim]) ;;;
  emit (plt_xscale "log") ;;;
  emit (plt_ylabel "Weight [kg]") ;;;
  emit (plt_xlabel "Life days [d]") ;;;
  emit (plt_grid true
          [("which"%string, py_str "both"); ("linestyle"%string, py_str "--");
           ("linewidth"%string, py_float 0.5)]).

(** [Child.plot]. *)
Definition plot (ndtr : float -> float) (self : Object)
           (child_weight_data : list WeightRow) (x_lim y_lim : pyval)
           (mode : String.string) : traced unit :=
  first_weight <~ lift (at_label_0 (map (fun r => measured_weight (base r))
                                        child_weight_data)) ;;
  first_mean <~ lift (at_label_0 (map SD0 (_growth_data self))) ;;
  let child_diff2mean := (first_weight - first_mean)%float in
  (if String.eqb mode "WHO_only" then
     emit (plt_figure [py_float 7.5; py_int 5]) ;;;
     _percentile_plot ndtr self child_weight_data x_lim y_lim "C0" 0 "WHO mean"
   else if String.eqb mode "child_specific" then
     emit (plt_figure [py_float 7.5; py_int 5]) ;;;
     _percentile_plot ndtr self child_weight_data x_lim y_lim "C1" 0 (_name self)
   else if String.eqb mode "both" then
     emit (plt_figure [py_int 15; py_int 5]) ;;;
     emit (plt_subplot 1 2 1) ;;;
     _percentile_plot ndtr self child_weight_data x_lim y_lim "C0" 0 "WHO mean" ;;;
     emit (plt_subplot 1 2 2) ;;;
     _percentile_plot ndtr self child_weight_data x_lim y_lim "C1" child_diff2mean
                      (_name self)
   else lift (Ok tt)) ;;;
  emit plt_show.

End Child.

(** ** The derivation as the specification words it *)

Module Spec.

(** The samples whose age lies in [[age - 6, age]]. *)
Definition trailing_window (rows : list Row) (age : Z) : list Row :=
  filter (fun r => (age - 6 <=? measurement_days r) && (measurement_days r <=? age))
         rows.

(** The sparse-sampling fallback applies at sample [i]: the window
    holds one sample and the sample before [i] is more than 6 days
    older.  Sample 0 has no sample before it. *)
Definition sparse (rows : list Row) (i : nat) (row : Row) : bool :=
  match i with
  | O => false
  | S j =>
      match nth_error rows j with
      | Some prev =>
          Nat.eqb (length (trailing_window rows (measurement_days row))) 1
          && (measurement_days row - measurement_days prev >? 6)
      | None => false
      end
  end.

Definition weekly_gain (rows : list Row) (i : nat) (row : Row) : float :=
  if sparse rows i row then daily_weight_gain row
  else Py.sum (map weight_gain (trailing_window rows (measurement_days row))).

End Spec.

(** ** Auxiliary definitions of the proofs *)

(** The first row of the table. *)
Definition first_row (m : Measurement) : Row :=
  mkRow (m_date m) (m_weight m) (m_date m - m_date m) (m_date m - m_date m)
        nan (nan / Py.float_of_Z 0 * 7)%float.

(** The rows after it, each derived from its predecessor [prev]. *)
Fixpoint rows_from (d0 : Z) (prev : Measurement) (ms : list Measurement)
  : list Row :=
  match ms with
  | [] => []
  | m :: t =>
      let g := (m_weight m - m_weight prev)%float in
      mkRow (m_date m) (m_weight m) (m_date m - d0) (m_date m - d0) g
            (g / Py.float_of_Z ((m_date m - d0) - (m_date prev - d0)) * 7)%float
      :: rows_from d0 m t
  end.

(** The table before the weekly loop. *)
Definition frame_of (file : list Measurement) : list Row :=
  match file with
  | [] => []
  | m :: ms => first_row m :: rows_from (m_date m) m ms
  end.

(** The value the weekly loop appends at turn [i]. *)
Definition weekly_of (frame : list Row) (i : nat) : float :=
  match nth_error frame i with
  | Some row => Spec.weekly_gain frame i row
  | None => nan
  end.

Definition chronological (file : list Measurement) : Prop :=
  Pandas.is_monotonic_increasing (map m_date file) = true.

(** ** Binary64 values as integers: definitions of the rounding proofs *)

(** Where [r / P] lies in [[0, 1)]: at 0, below, at or above 1/2. *)
Definition loc_of (r P : Z) : location :=
  if r =? 0 then loc_Exact else loc_Inexact (2 * r ?= P).

(** [N / D], in units of the least subnormal number, rounded to
    nearest with ties to even at the exponent its magnitude asks for. *)
Definition rnd (N D : Z) : Z :=
  let n := Z.max (Zdigits2 (N / D) - 53) 0 in
  let P := D * 2 ^ n in
  round_nearest_even (N / P) (loc_of (N mod P) P) * 2 ^ n.

(** The record holds the integer part of [N / D] and the position of
    the remainder. *)
Definition trunc (N D : Z) (mrs : shr_record) : Prop :=
  shr_m mrs = N / D /\ loc_of_shr_record mrs = loc_of (N mod D) D.

(** The fraction [N / D * 2 ^ e] in units of [2 ^ -1074]. *)
Definition units_num (N e : Z) : Z := if -1074 <=? e then N * 2 ^ (e + 1074) else N.
Definition units_den (D e : Z) : Z := if -1074 <=? e then D else D * 2 ^ (-1074 - e).

(** The magnitude that stands for an infinity: above every finite value. *)
Definition INF : Z := 2 ^ 2100.

(** Overflow: a rounded magnitude of [2 ^ 2098] units or more is infinite. *)
Definition sat (v : Z) : Z := if v <? 2 ^ 2098 then v else INF.

(** The value of a float in units of [2 ^ -1074]; infinities at [INF]. *)
Definition ord (x : spec_float) : Z :=
  match x with
  | S754_zero _ => 0
  | S754_infinity s => cond_Zopp s INF
  | S754_nan => 0
  | S754_finite s m e => cond_Zopp s (Zpos m * 2 ^ (e + 1074))
  end.

Ltac order_by_compare :=
  try reflexivity;
  try (f_equal; symmetry;
       first [ reflexivity
             | apply Z.compare_lt_iff; lia
             | apply Z.compare_gt_iff; lia ]).

(** Rounding of a signed integer number of units. *)
Definition sround (V : Z) : Z :=
  if V <? 0 then - sat (rnd (- V) 1) else sat (rnd V 1).

(** The value of [x - y] from the values of [x] and of a finite [y]. *)
Definition sub_ord (V L : Z) : Z :=
  if INF <=? V then INF
  else if V <=? - INF then - INF
  else sround (V - L).

Definition is_fin (x : spec_float) : bool :=
  match x with
  | S754_zero _ | S754_finite _ _ _ => true
  | _ => false
  end.

Definition div_exponent (mx my : positive) (ex ey : Z) : Z :=
  Z.min (fexp prec emax (Zdigits2 (Zpos mx) + ex - (Zdigits2 (Zpos my) + ey)))
        (ex - ey).

(** The quotient of a value [V] by a positive value [S], rounded. *)
Definition sdiv (V S : Z) : Z :=
  if V <? 0 then - sat (rnd (- V * 2 ^ 1074) S) else sat (rnd (V * 2 ^ 1074) S).

Definition div_ord (V S : Z) : Z :=
  if INF <=? V then INF
  else if V <=? - INF then - INF
  else sdiv V S.

Definition fval (x : float) : Z := ord (Prim2SF x).

(** The table returned for a non-empty, chronological file. *)
Definition table_of (file : list Measurement) : list WeightRow :=
  let frame := frame_of file in
  map (fun rw => mkWeightRow (fst rw) (snd rw))
      (combine frame (map (weekly_of frame) (seq 0 (length frame)))).

(** ** The scenarios of the specification and of the examples *)

(** The key of a row lies in [[b, e]]. *)
Definition in_range (A : Type) (key : A -> Z) (b e : Z) (a : A) : bool :=
  (b <=? key a) && (key a <=? e).

(** The samples (day 0, 4.0), (day 7, 4.3), (day 14, 4.3). *)
Definition scenario_weekly : list Measurement :=
  [ mkMeasurement 0 4.0; mkMeasurement 7 4.3; mkMeasurement 14 4.3 ].

(** Samples on days 0, 2, 2, 5, 20, 22: a shared day, a sparse interval
    and a window of two samples that leaves sample 0 out. *)
Definition scenario_mixed : list Measurement :=
  [ mkMeasurement 0 3.5; mkMeasurement 2 3.6; mkMeasurement 2 3.7;
    mkMeasurement 5 3.9; mkMeasurement 20 4.5; mkMeasurement 22 4.6 ].

(** The single sample (day 0, 4.0). *)
Definition scenario_single : list Measurement := [ mkMeasurement 0 4.0 ].

(** A weight table whose last sample lies one day before the first
    (the dates of the file were not in order): the age of its last row
    is -1. *)
Definition table_backwards : list WeightRow :=
  [ mkWeightRow (mkRow 1 4.0 0 0 nan nan) 0;
    mkWeightRow (mkRow 0 3.5 (-1) (-1) (-0.5) 3.5) 0 ].

(** A reference table whose day-0 row has mean 4.0 and -1SD 3.5. *)
Definition who_day0 : list GrowthRow :=
  [ mkGrowthRow 0 4.0 4.5 3.5 5.0 3.0 5.5 2.5 ].

(** A reference table whose day-0 row is degenerate: the mean equals
    the -1SD landmark. *)
Definition who_degenerate : list GrowthRow :=
  [ mkGrowthRow 0 3.5 3.5 3.5 3.5 3.5 3.5 3.5 ].

(** A reference table populated for days 0 to 2. *)
Definition who_three : list GrowthRow :=
  [ mkGrowthRow 0 3.3 3.9 2.9 4.4 2.5 5.0 2.1;
    mkGrowthRow 1 3.4 4.0 3.0 4.5 2.6 5.1 2.2;
    mkGrowthRow 2 3.5 4.1 3.1 4.6 2.7 5.2 2.3 ].

(** A distribution function for the examples, in the place of
    [ndtr]: a single step, with the value 0.5 at zero. *)
Definition ndtr_step (z : float) : float :=
  if (z <? 0)%float then 0%float
  else if (0 <? z)%float then 1%float else 0.5%float.

(** Two files that differ in the weight of the last sample only. *)
Definition scenario_lighter : list Measurement :=
  [ mkMeasurement 0 3.2; mkMeasurement 2 3.4 ].

Definition scenario_heavier : list Measurement :=
  [ mkMeasurement 0 3.2; mkMeasurement 2 3.9 ].

(** Two samples on day 7. *)
Definition scenario_same_day : list Measurement :=
  [ mkMeasurement 0 4.0; mkMeasurement 7 4.3; mkMeasurement 7 4.5 ].

(** The percentiles shown in the legends of a drawing, in order. *)
Definition legend_percentiles (calls : list event) : list float :=
  flat_map (fun ev =>
              match ev with
              | plt_legend labels =>
                  flat_map (fun l => match l with
                                     | lbl_percentile p => [p]
                                     | lbl_text _ => []
                                     end) labels
              | _ => []
              end) calls.

(** A text without a line feed. *)
Fixpoint single_line (s : String.string) : bool :=
  match s with
  | String.EmptyString => true
  | String.String c rest =>
      negb (Ascii.eqb c (Ascii.ascii_of_nat 10)) && single_line rest
  end.

(** The line printed first by the constructor. *)
Definition announcement (gender : String.string) : String.string :=
  String.append "retrieving WHO child growth data for "
    (String.append gender "s ...").

(** The WHO table of a gender the constructor accepts. *)
Definition who_url (gender : String.string) : String.string :=
  if String.eqb gender "male"
  then "http://www.who.int/childgrowth/standards/wfa_boys_z_exp.txt"
  else "http://www.who.int/childgrowth/standards/wfa_girls_z_exp.txt".

(** A child object for the examples. *)
Definition ada : Object := mkObject "female" "2020-02-01" "Ada" who_three.

(** The arrays given to a drawing call have the same length. *)
Definition well_shaped (ev : event) : Prop :=
  match ev with
  | plt_plot x y _ => length x = length y
  | plt_fill_between x y1 y2 _ => length x = length y1 /\ length x = length y2
  | plt_errorbar x y _ => length x = length y
  | _ => True
  end.

(** * Lemmas *)

(** ** Lists: positions, sorted indexes and slices *)

Section SortedIndex.

Import Pandas.

Lemma mono_inc_cons (x : Z) (t : list Z) :
  is_monotonic_increasing (x :: t) = true ->
  Forall (fun y => x <= y) t /\ is_monotonic_increasing t = true.
Proof.
  revert x. induction t as [|y t IH]; intros x H.
  - split; [constructor | reflexivity].
  - change (((x <=? y) && is_monotonic_increasing (y :: t)) = true) in H.
    apply andb_true_iff in H. destruct H as [Hxy Ht].
    apply Z.leb_le in Hxy. destruct (IH y Ht) as [Hall _].
    split; [ | exact Ht ].
    constructor; [ exact Hxy | ].
    eapply Forall_impl; [ | exact Hall ]. intros z Hz; cbv beta in Hz. lia.
Qed.

Lemma mono_inc_map_shift (d : Z) (l : list Z) :
  is_monotonic_increasing l = true ->
  is_monotonic_increasing (map (fun x => x - d) l) = true.
Proof.
  induction l as [|x t IH]; intros H; [ reflexivity | ].
  destruct t as [|y t']; [ reflexivity | ].
  change (((x <=? y) && is_monotonic_increasing (y :: t')) = true) in H.
  apply andb_true_iff in H. destruct H as [Hxy Ht].
  change (((x - d <=? y - d) && is_monotonic_increasing (map (fun x => x - d) (y :: t'))) = true).
  apply andb_true_iff. split; [ | exact (IH Ht) ].
  apply Z.leb_le. apply Z.leb_le in Hxy. lia.
Qed.

Lemma filter_none {A : Type} (f : A -> bool) (l : list A) :
  Forall (fun a => f a = false) l -> filter f l = [].
Proof.
  induction 1 as [|a l Ha _ IH]; simpl; [ reflexivity | ].
  rewrite Ha. exact IH.
Qed.

Lemma positions_from_none (k : nat) (l : list Z) (v : Z) :
  Forall (fun x => x <> v) l -> positions_from k l v = [].
Proof.
  intros H. revert k. induction H as [|x l Hx _ IH]; intros k; simpl; [ reflexivity | ].
  apply Z.eqb_neq in Hx. rewrite Hx. apply IH.
Qed.

(** In a sorted index the positions of a label are the run that
    starts after the smaller labels. *)
Lemma positions_from_sorted (l : list Z) (v : Z) (k : nat) :
  is_monotonic_increasing l = true ->
  positions_from k l v =
  seq (k + length (filter (fun x => x <? v) l))
      (length (filter (fun x => x =? v) l)).
Proof.
  revert k. induction l as [|x t IH]; intros k H; [ reflexivity | ].
  destruct (mono_inc_cons _ _ H) as [Hall Ht].
  simpl. destruct (Z.compare_spec x v) as [Heq | Hlt | Hgt].
  - subst x. rewrite Z.eqb_refl, Z.ltb_irrefl.
    assert (Hnone : filter (fun x => x <? v) t = []).
    { apply filter_none. eapply Forall_impl; [ | exact Hall ].
      intros z Hz; cbv beta in *. apply Z.ltb_ge. exact Hz. }
    rewrite (IH (S k) Ht), Hnone. simpl.
    rewrite !Nat.add_0_r. reflexivity.
  - assert (Hne : (x =? v) = false) by (apply Z.eqb_neq; lia).
    assert (Hl : (x <? v) = true) by (apply Z.ltb_lt; lia).
    rewrite Hne, Hl. rewrite (IH (S k) Ht). simpl.
    rewrite Nat.add_succ_r. reflexivity.
  - assert (Hne : (x =? v) = false) by (apply Z.eqb_neq; lia).
    assert (Hl : (x <? v) = false) by (apply Z.ltb_ge; lia).
    rewrite Hne, Hl.
    rewrite positions_from_none.
    + rewrite (filter_none (fun x => x =? v) t); [ reflexivity | ].
      eapply Forall_impl; [ | exact Hall ].
      intros z Hz; cbv beta in *. apply Z.eqb_neq. lia.
    + eapply Forall_impl; [ | exact Hall ].
      intros z Hz; cbv beta in *. lia.
Qed.

Lemma contiguous_seq (p n : nat) : contiguous p (seq (S p) n) = true.
Proof.
  revert p. induction n as [|n IH]; intros p; simpl; [ reflexivity | ].
  rewrite Nat.eqb_refl. apply IH.
Qed.

Lemma last_seq (p n : nat) : last (seq (S p) n) p = (p + n)%nat.
Proof.
  destruct n as [|n]; [ simpl; lia | ].
  rewrite seq_S, last_last. lia.
Qed.

Lemma count_le_split (l : list Z) (v : Z) :
  length (filter (fun x => x <=? v) l) =
  Nat.add (length (filter (fun x => x <? v) l))
          (length (filter (fun x => x =? v) l)).
Proof.
  induction l as [|x t IH]; simpl; [ reflexivity | ].
  destruct (Z.compare_spec x v) as [Heq | Hlt | Hgt].
  - subst x. rewrite Z.leb_refl, Z.ltb_irrefl, Z.eqb_refl. simpl. lia.
  - replace (x <=? v) with true by (symmetry; apply Z.leb_le; lia).
    replace (x <? v) with true by (symmetry; apply Z.ltb_lt; lia).
    replace (x =? v) with false by (symmetry; apply Z.eqb_neq; lia).
    simpl. lia.
  - replace (x <=? v) with false by (symmetry; apply Z.leb_gt; lia).
    replace (x <? v) with false by (symmetry; apply Z.ltb_ge; lia).
    replace (x =? v) with false by (symmetry; apply Z.eqb_neq; lia).
    exact IH.
Qed.

(** On a sorted index every slice bound exists and is the insertion
    point of the label. *)
Lemma get_slice_bound_sorted (idx : list Z) (v : Z) (s : side) :
  is_monotonic_increasing idx = true ->
  get_slice_bound idx v s = Ok (searchsorted idx v s).
Proof.
  intros H. unfold get_slice_bound, positions.
  rewrite (positions_from_sorted idx v 0 H). simpl.
  destruct (length (filter (fun x => x =? v) idx)) as [|n] eqn:En.
  - simpl. rewrite H. reflexivity.
  - simpl. rewrite contiguous_seq. f_equal.
    destruct s; simpl; [ reflexivity | ].
    rewrite last_seq, count_le_split, En. lia.
Qed.

Variable A : Type.
Variable key : A -> Z.

(** The positional slice between the two insertion points holds the
    rows whose key lies in [[b, e]]. *)
Lemma slice_sorted (rows : list A) (b e : Z) :
  is_monotonic_increasing (map key rows) = true ->
  slice (searchsorted (map key rows) b Left)
        (searchsorted (map key rows) e Right) rows
  = filter (in_range A key b e) rows.
Proof.
  unfold slice, searchsorted, in_range.
  induction rows as [|r t IH]; intros H; [ reflexivity | ].
  change (map key (r :: t)) with (key r :: map key t) in *.
  destruct (mono_inc_cons _ _ H) as [Hall Ht].
  specialize (IH Ht). simpl.
  assert (Hall' : Forall (fun a => key r <= key a) t).
  { apply Forall_forall. intros a Ha.
    rewrite Forall_forall in Hall. apply Hall. apply in_map. exact Ha. }
  destruct (key r <? b) eqn:Hb; destruct (key r <=? e) eqn:He; simpl.
  - apply Z.ltb_lt in Hb.
    replace (b <=? key r) with false by (symmetry; apply Z.leb_gt; lia).
    simpl. exact IH.
  - apply Z.ltb_lt in Hb. apply Z.leb_gt in He.
    replace (b <=? key r) with false by (symmetry; apply Z.leb_gt; lia).
    simpl.
    rewrite (filter_none (fun x => x <=? e) (map key t)).
    + simpl. symmetry. apply filter_none.
      eapply Forall_impl; [ | exact Hall' ].
      intros a Ha; cbv beta in *.
      apply andb_false_iff. right. apply Z.leb_gt. lia.
    + eapply Forall_impl; [ | exact Hall ].
      intros z Hz; cbv beta in *. apply Z.leb_gt. lia.
  - apply Z.ltb_ge in Hb. apply Z.leb_le in He.
    replace (b <=? key r) with true by (symmetry; apply Z.leb_le; lia).
    assert (Hnone : filter (fun x => x <? b) (map key t) = []).
    { apply filter_none. eapply Forall_impl; [ | exact Hall ].
      intros z Hz; cbv beta in *. apply Z.ltb_ge. lia. }
    rewrite Hnone in IH |- *. simpl in IH |- *.
    rewrite Nat.sub_0_r in IH. f_equal. exact IH.
  - apply Z.ltb_ge in Hb. apply Z.leb_gt in He.
    rewrite (filter_none (fun x => x <? b) (map key t)).
    + rewrite (filter_none (fun x => x <=? e) (map key t)).
      * simpl. symmetry.
        replace (b <=? key r) with true by (symmetry; apply Z.leb_le; lia).
        simpl. apply filter_none.
        eapply Forall_impl; [ | exact Hall' ].
        intros a Ha; cbv beta in *.
        apply andb_false_iff. right. apply Z.leb_gt. lia.
      * eapply Forall_impl; [ | exact Hall ].
        intros z Hz; cbv beta in *. apply Z.leb_gt. lia.
    + eapply Forall_impl; [ | exact Hall ].
      intros z Hz; cbv beta in *. apply Z.ltb_ge. lia.
Qed.

Lemma loc_slice_sorted (rows : list A) (b e : Z) :
  is_monotonic_increasing (map key rows) = true ->
  loc_slice key rows b e = Ok (filter (in_range A key b e) rows).
Proof.
  intros H. unfold loc_slice.
  rewrite !(get_slice_bound_sorted _ _ _ H). unfold bind.
  rewrite (slice_sorted rows b e H). reflexivity.
Qed.

End SortedIndex.

(** ** Positional access *)

Lemma iloc_nth_error {A : Type} (l : list A) (i : nat) (a : A) :
  nth_error l i = Some a -> Py.iloc l (Z.of_nat i) = Ok a.
Proof.
  intros H. unfold Py.iloc.
  assert (Hlt : (i < length l)%nat) by (apply nth_error_Some; congruence).
  replace (Z.of_nat i <? 0) with false by (symmetry; apply Z.ltb_ge; lia).
  replace (0 <=? Z.of_nat i) with true by (symmetry; apply Z.leb_le; lia).
  replace (Z.of_nat i <? Z.of_nat (length l)) with true
    by (symmetry; apply Z.ltb_lt; lia).
  simpl. rewrite Nat2Z.id, H. reflexivity.
Qed.

Lemma nth_error_last {A : Type} (l : list A) (a d : A) :
  nth_error (a :: l) (length l) = Some (last (a :: l) d).
Proof.
  revert a. induction l as [|b l IH]; intros a; [ reflexivity | ].
  change (nth_error (a :: b :: l) (length (b :: l)))
    with (nth_error (b :: l) (length l)).
  rewrite IH. reflexivity.
Qed.

Lemma iloc_last {A : Type} (l : list A) (a d : A) :
  Py.iloc (a :: l) (-1) = Ok (last (a :: l) d).
Proof.
  unfold Py.iloc.
  change (-1 <? 0) with true. cbv iota.
  change (length (a :: l)) with (S (length l)).
  replace (0 <=? -1 + Z.of_nat (S (length l))) with true
    by (symmetry; apply Z.leb_le; lia).
  replace (-1 + Z.of_nat (S (length l)) <? Z.of_nat (S (length l))) with true
    by (symmetry; apply Z.ltb_lt; lia).
  simpl andb. cbv iota.
  replace (Z.to_nat (-1 + Z.of_nat (S (length l)))) with (length l) by lia.
  rewrite (nth_error_last l a d). reflexivity.
Qed.

(** ** The table before the weekly loop *)

Lemma zip_rows_from (d0 : Z) (prev : Measurement) (ms : list Measurement) :
  let life := map (fun d => d - d0) (map m_date ms) in
  let gain := Pandas.diff_from (m_weight prev) (map m_weight ms) in
  Child.zip_rows ms life life gain
    (map (fun gd => (fst gd / Py.float_of_Z (snd gd) * 7)%float)
         (combine gain (Pandas.np_diff_from (m_date prev - d0) life)))
  = rows_from d0 prev ms.
Proof.
  revert prev. induction ms as [|m t IH]; intros prev; [ reflexivity | ].
  simpl. f_equal. apply IH.
Qed.

Lemma frame_of_file (m : Measurement) (ms : list Measurement) :
  let file := m :: ms in
  let life := map (fun d => d - m_date m) (map m_date file) in
  let gain := Pandas.diff (map m_weight file) in
  Child.zip_rows file life life gain (Child.col_daily_weight_gain gain life)
  = frame_of file.
Proof.
  simpl. unfold first_row. f_equal.
  apply (zip_rows_from (m_date m) m ms).
Qed.

Lemma rows_from_life (d0 : Z) (prev : Measurement) (ms : list Measurement) :
  map life_days (rows_from d0 prev ms) = map (fun d => d - d0) (map m_date ms).
Proof.
  revert prev. induction ms as [|m t IH]; intros prev; [ reflexivity | ].
  simpl. f_equal. apply IH.
Qed.

Lemma frame_of_life (m : Measurement) (ms : list Measurement) :
  map life_days (frame_of (m :: ms))
  = map (fun d => d - m_date m) (map m_date (m :: ms)).
Proof. simpl. f_equal. apply rows_from_life. Qed.

Lemma rows_from_days (d0 : Z) (prev : Measurement) (ms : list Measurement) :
  Forall (fun r => measurement_days r = life_days r) (rows_from d0 prev ms).
Proof.
  revert prev. induction ms as [|m t IH]; intros prev; simpl; constructor.
  - reflexivity.
  - apply IH.
Qed.

Lemma frame_of_days (file : list Measurement) :
  Forall (fun r => measurement_days r = life_days r) (frame_of file).
Proof.
  destruct file as [|m ms]; simpl; constructor.
  - reflexivity.
  - apply rows_from_days.
Qed.

Lemma frame_of_length (file : list Measurement) :
  length (frame_of file) = length file.
Proof.
  destruct file as [|m ms]; [ reflexivity | ].
  rewrite <- (length_map life_days), frame_of_life, !length_map. reflexivity.
Qed.

Lemma frame_of_sorted (file : list Measurement) :
  chronological file ->
  Pandas.is_monotonic_increasing (map life_days (frame_of file)) = true.
Proof.
  destruct file as [|m ms]; intros H; [ reflexivity | ].
  rewrite frame_of_life. apply mono_inc_map_shift. exact H.
Qed.

(** ** One turn of the weekly loop on a sorted table *)

Section WeeklyLoop.

Variable frame : list Row.
Hypothesis frame_sorted :
  Pandas.is_monotonic_increasing (map life_days frame) = true.
Hypothesis frame_days :
  Forall (fun r => measurement_days r = life_days r) frame.

Lemma window_by_life (age : Z) :
  filter (in_range Row life_days (age - 6) age) frame
  = Spec.trailing_window frame age.
Proof.
  unfold Spec.trailing_window, in_range. apply filter_ext_in.
  intros r Hr. rewrite Forall_forall in frame_days.
  rewrite (frame_days r Hr). reflexivity.
Qed.

Lemma first_is_least (row0 : Row) (rest : list Row) (r : Row) :
  frame = row0 :: rest -> In r frame -> life_days row0 <= life_days r.
Proof.
  intros E Hr. rewrite E in frame_sorted, Hr.
  destruct (mono_inc_cons _ _ frame_sorted) as [Hall _].
  destruct Hr as [<- | Hr]; [ lia | ].
  rewrite Forall_forall in Hall. apply Hall. apply in_map. exact Hr.
Qed.

Lemma weekly_at_sorted (i : nat) (row : Row) :
  nth_error frame i = Some row ->
  Child.weekly_at frame i = Ok (Spec.weekly_gain frame i row).
Proof.
  intros Hi. unfold Child.weekly_at.
  rewrite (iloc_nth_error _ _ _ Hi). unfold bind at 1.
  rewrite (loc_slice_sorted Row life_days frame _ _ frame_sorted).
  unfold bind at 1. rewrite window_by_life.
  assert (Hm : measurement_days row = life_days row).
  { rewrite Forall_forall in frame_days. apply frame_days.
    eapply nth_error_In. exact Hi. }
  rewrite <- Hm. unfold Spec.weekly_gain, Spec.sparse.
  destruct i as [|j].
  - (* the sample before index 0 is the last row: never more recent *)
    assert (E : exists rest, frame = row :: rest).
    { clear - Hi. destruct frame as [|r0 rest]; [ discriminate | ].
      injection Hi as ->. exists rest. reflexivity. }
    destruct E as [rest E].
    destruct (Nat.eqb _ 1); [ | reflexivity ].
    change (Z.of_nat 0 - 1) with (-1).
    assert (Hin : In (last (row :: rest) row) frame).
    { rewrite E.
      destruct (exists_last (l := row :: rest)) as [l' [a Ha]]; [ discriminate | ].
      rewrite Ha at 1. rewrite last_last. rewrite Ha.
      apply in_or_app. right. left. reflexivity. }
    assert (Hle : life_days row <= life_days (last (row :: rest) row)).
    { apply (first_is_least row rest _ E Hin). }
    assert (Hm' : measurement_days (last (row :: rest) row)
                  = life_days (last (row :: rest) row)).
    { rewrite Forall_forall in frame_days. apply frame_days. exact Hin. }
    rewrite E at 1. rewrite (iloc_last rest row row). unfold bind.
    rewrite Hm', Hm.
    replace (life_days row - life_days (last (row :: rest) row) >? 6) with false
      by (symmetry; rewrite Z.gtb_ltb; apply Z.ltb_ge; lia).
    reflexivity.
  - assert (Hj : (j < length frame)%nat).
    { assert (S j < length frame)%nat by (apply nth_error_Some; congruence). lia. }
    destruct (nth_error frame j) as [prev|] eqn:Ej;
      [ | apply nth_error_None in Ej; lia ].
    replace (Z.of_nat (S j) - 1) with (Z.of_nat j) by lia.
    rewrite (iloc_nth_error _ _ _ Ej). unfold bind.
    destruct (Nat.eqb _ 1); [ | reflexivity ].
    simpl andb. destruct (_ >? 6); reflexivity.
Qed.

Lemma weekly_loop_sorted (range : list nat) (acc : list float) :
  Forall (fun i => (i < length frame)%nat) range ->
  Child.weekly_loop frame range acc = Ok (acc ++ map (weekly_of frame) range).
Proof.
  revert acc. induction range as [|i rest IH]; intros acc H.
  - simpl. rewrite app_nil_r. reflexivity.
  - inversion H as [|? ? Hi Hrest]; subst.
    destruct (nth_error frame i) as [row|] eqn:Ei;
      [ | apply nth_error_None in Ei; lia ].
    simpl. rewrite (weekly_at_sorted i row Ei). unfold bind at 1.
    rewrite (IH _ Hrest). unfold weekly_of at 2. rewrite Ei.
    rewrite <- app_assoc. reflexivity.
Qed.

End WeeklyLoop.

Lemma seq_below (k n : nat) : Forall (fun i => (i < k + n)%nat) (seq k n).
Proof.
  apply Forall_forall. intros i Hi. apply in_seq in Hi. lia.
Qed.

Lemma import_weight_data_sorted (file : list Measurement) :
  file <> [] -> chronological file ->
  Child.import_weight_data file = Ok (table_of file).
Proof.
  intros Hne Hs. destruct file as [|m ms]; [ congruence | ].
  unfold Child.import_weight_data.
  change (Child.col_life_days (map m_date (m :: ms)))
    with (Ok (map (fun d => d - m_date m) (map m_date (m :: ms)))).
  unfold bind at 1. rewrite (frame_of_file m ms).
  rewrite (weekly_loop_sorted (frame_of (m :: ms))
             (frame_of_sorted _ Hs) (frame_of_days _)).
  - reflexivity.
  - apply (seq_below 0).
Qed.

Lemma combine_seq_nth {A : Type} (f : nat -> float) (l : list A) (k i : nat) :
  nth_error (combine l (map f (seq k (length l)))) i
  = option_map (fun a => (a, f (k + i)%nat)) (nth_error l i).
Proof.
  revert k i. induction l as [|a l IH]; intros k i.
  - destruct i; reflexivity.
  - destruct i as [|i]; simpl.
    + rewrite Nat.add_0_r. reflexivity.
    + rewrite IH. rewrite Nat.add_succ_r. reflexivity.
Qed.

Lemma table_of_nth (file : list Measurement) (i : nat) :
  nth_error (table_of file) i
  = option_map (fun r => mkWeightRow r (weekly_of (frame_of file) i))
               (nth_error (frame_of file) i).
Proof.
  unfold table_of. rewrite nth_error_map, combine_seq_nth.
  destruct (nth_error (frame_of file) i); reflexivity.
Qed.

Lemma table_of_base (file : list Measurement) :
  map base (table_of file) = frame_of file.
Proof.
  unfold table_of. generalize (weekly_of (frame_of file)). intros f.
  generalize 0%nat. induction (frame_of file) as [|r t IH]; intros k;
    [ reflexivity | ].
  simpl. f_equal. apply IH.
Qed.

(** ** NaN is absorbing for the builtin sum *)

Lemma add_nan_l (x : float) : (nan + x)%float = nan.
Proof.
  apply Prim2SF_inj. rewrite add_spec.
  change (Prim2SF nan) with S754_nan. reflexivity.
Qed.

Lemma fold_add_nan (l : list float) : fold_left PrimFloat.add l nan = nan.
Proof.
  induction l as [|x l IH]; [ reflexivity | ].
  simpl. rewrite add_nan_l. exact IH.
Qed.

Lemma sum_nan_head (l : list float) : Py.sum (nan :: l) = nan.
Proof.
  unfold Py.sum. simpl.
  change (0 + nan)%float with nan. apply fold_add_nan.
Qed.

Lemma weekly_loop_length (frame : list Row) (range : list nat)
      (acc weekly : list float) :
  Child.weekly_loop frame range acc = Ok weekly ->
  length weekly = (length acc + length range)%nat.
Proof.
  revert acc. induction range as [|i rest IH]; intros acc H.
  - simpl in H. injection H as <-. simpl. lia.
  - simpl in H. destruct (Child.weekly_at frame i) as [w|e]; [ | discriminate ].
    unfold bind in H. rewrite (IH _ H), length_app. simpl. lia.
Qed.

(** ** Every returned table extends the table before the loop *)

Lemma map_base_combine (frame : list Row) (weekly : list float) :
  length weekly = length frame ->
  map base (map (fun rw => mkWeightRow (fst rw) (snd rw)) (combine frame weekly))
  = frame.
Proof.
  revert weekly. induction frame as [|r t IH]; intros weekly H; [ reflexivity | ].
  destruct weekly as [|w ws]; [ discriminate | ].
  simpl. f_equal. apply IH. simpl in H. lia.
Qed.

Lemma import_weight_data_base (file : list Measurement) (table : list WeightRow) :
  Child.import_weight_data file = Ok table -> map base table = frame_of file.
Proof.
  destruct file as [|m ms]; [ discriminate | ].
  unfold Child.import_weight_data.
  change (Child.col_life_days (map m_date (m :: ms)))
    with (Ok (map (fun d => d - m_date m) (map m_date (m :: ms)))).
  unfold bind at 1. rewrite (frame_of_file m ms).
  destruct (Child.weekly_loop _ _ _) as [weekly|e] eqn:E; [ | discriminate ].
  unfold bind. intros H. injection H as <-.
  apply (map_base_combine (frame_of (m :: ms)) weekly).
  rewrite (weekly_loop_length _ _ _ _ E), length_seq. reflexivity.
Qed.

(** After the first row, the daily rate is the gain over the day
    difference to the row before, times 7. *)
Lemma rows_from_daily (d0 : Z) (prev : Measurement) (ms : list Measurement)
      (i : nat) (r : Row) :
  nth_error (rows_from d0 prev ms) i = Some r ->
  daily_weight_gain r
  = (weight_gain r
     / Py.float_of_Z
         (measurement_days r
          - match i with
            | O => m_date prev - d0
            | S j => match nth_error (rows_from d0 prev ms) j with
                     | Some p => measurement_days p
                     | None => 0
                     end
            end) * 7)%float.
Proof.
  revert prev i. induction ms as [|m t IH]; intros prev i Hr.
  - destruct i; discriminate.
  - destruct i as [|i].
    + simpl in Hr. injection Hr as <-. reflexivity.
    + simpl in Hr. rewrite (IH m i Hr).
      destruct i as [|j]; reflexivity.
Qed.

Lemma frame_of_daily (file : list Measurement) (i : nat) (p r : Row) :
  nth_error (frame_of file) i = Some p ->
  nth_error (frame_of file) (S i) = Some r ->
  daily_weight_gain r
  = (weight_gain r
     / Py.float_of_Z (measurement_days r - measurement_days p) * 7)%float.
Proof.
  destruct file as [|m ms]; [ destruct i; discriminate | ].
  intros Hp Hr. simpl in Hr.
  rewrite (rows_from_daily _ _ _ _ _ Hr).
  destruct i as [|j].
  - simpl in Hp. injection Hp as <-. reflexivity.
  - simpl in Hp. rewrite Hp. reflexivity.
Qed.

(** ** Division by zero in binary64 *)

Lemma SFcompare_finite_refl (s : bool) (m : positive) (e : Z) :
  SFcompare (S754_finite s m e) (S754_finite s m e) = Some Eq.
Proof.
  simpl. rewrite Z.compare_refl, Pos.compare_cont_refl.
  destruct s; reflexivity.
Qed.

(** [g / 0 * 7]: no exception is raised; the quotient is an infinity
    with the sign of [g], or NaN when [g] is zero or NaN. *)
Lemma div_zero_times_7 (g : float) :
  (g / 0 * 7)%float
  = if is_nan g || (g =? 0)%float then nan
    else if (0 <? g)%float then infinity else neg_infinity.
Proof.
  apply Prim2SF_inj. rewrite mul_spec, div_spec.
  unfold is_nan. rewrite !eqb_spec, ltb_spec.
  change (Prim2SF 0) with (S754_zero false).
  unfold SFeqb, SFltb.
  destruct (Prim2SF g) as [s | s | | s m e].
  - reflexivity.
  - destruct s; reflexivity.
  - reflexivity.
  - rewrite SFcompare_finite_refl. destruct s; reflexivity.
Qed.

(** ** The percentile of the latest sample *)

Lemma eqb_zero_not_positive (s : float) :
  (s =? 0)%float = true -> (0 <? s)%float = false.
Proof.
  rewrite eqb_spec, ltb_spec.
  change (Prim2SF 0) with (S754_zero false).
  unfold SFeqb, SFltb.
  destruct (Prim2SF s) as [b | b | | b m e]; simpl;
    try destruct b; try reflexivity; discriminate.
Qed.

Lemma norm_cdf_bad_scale (ndtr : float -> float) (x loc scale : float) :
  (0 <? scale)%float = false -> Scipy.norm_cdf ndtr x loc scale = nan.
Proof.
  intros H. unfold Scipy.norm_cdf. rewrite H.
  rewrite !andb_false_r. reflexivity.
Qed.

Lemma calculate_unfold (ndtr : float -> float) (growth_data : list GrowthRow)
      (child_weight_data : list WeightRow) (weight_offset : float)
      (last_row : WeightRow) :
  Py.iloc child_weight_data (-1) = Ok last_row ->
  Child.calculate_child_percentiles ndtr growth_data child_weight_data
                                    weight_offset
  = g <- Py.iloc growth_data (life_days (base last_row)) ;;
    Ok (Scipy.norm_cdf ndtr (measured_weight (base last_row))
                       (SD0 g + weight_offset)%float (SD0 g - SD1neg g)%float).
Proof.
  intros H. unfold Child.calculate_child_percentiles. rewrite H.
  unfold bind at 1.
  destruct (Py.iloc growth_data (life_days (base last_row))); reflexivity.
Qed.

(** * Binary64 subtraction and division are monotone *)

(** [2 ^ (d - 1) <= p < 2 ^ d] for the number [d] of binary digits of [p]. *)
Lemma digits2_pos_bounds (p : positive) :
  2 ^ (Zpos (digits2_pos p) - 1) <= Zpos p < 2 ^ Zpos (digits2_pos p).
Proof.
  induction p as [p IH | p IH | ].
  - simpl digits2_pos. rewrite Pos2Z.inj_succ.
    replace (Z.succ (Zpos (digits2_pos p)) - 1) with (Z.succ (Zpos (digits2_pos p) - 1)) by lia.
    rewrite !Z.pow_succ_r by lia. lia.
  - simpl digits2_pos. rewrite Pos2Z.inj_succ.
    replace (Z.succ (Zpos (digits2_pos p)) - 1) with (Z.succ (Zpos (digits2_pos p) - 1)) by lia.
    rewrite !Z.pow_succ_r by lia. lia.
  - simpl. lia.
Qed.

Lemma Zdigits2_nonneg (m : Z) : 0 <= Zdigits2 m.
Proof. destruct m; simpl; lia. Qed.

Lemma Zdigits2_bounds (m : Z) :
  0 < m -> 2 ^ (Zdigits2 m - 1) <= m < 2 ^ Zdigits2 m.
Proof.
  destruct m as [|p|p]; try lia. intros _. apply digits2_pos_bounds.
Qed.

(** The number of digits is determined by the bounds. *)
Lemma Zdigits2_unique (m d : Z) :
  0 < m -> 2 ^ (d - 1) <= m < 2 ^ d -> Zdigits2 m = d.
Proof.
  intros Hm [Hlo Hhi].
  destruct (Zdigits2_bounds m Hm) as [Hlo' Hhi'].
  pose proof (Zdigits2_nonneg m) as Hn.
  assert (Hd : 0 < d).
  { destruct (Z_lt_le_dec 0 d) as [|Hd0]; [ assumption | ].
    exfalso. destruct (Z.eq_dec d 0) as [->|].
    - simpl in Hhi. lia.
    - rewrite Z.pow_neg_r in Hhi by lia. lia. }
  destruct (Z.lt_trichotomy (Zdigits2 m) d) as [Hlt | [Heq | Hgt]]; [ | exact Heq | ].
  - exfalso.
    assert (2 ^ Zdigits2 m <= 2 ^ (d - 1)) by (apply Z.pow_le_mono_r; lia). lia.
  - exfalso.
    assert (2 ^ d <= 2 ^ (Zdigits2 m - 1)) by (apply Z.pow_le_mono_r; lia). lia.
Qed.

Lemma Zdigits2_le (a b : Z) : 0 <= a <= b -> Zdigits2 a <= Zdigits2 b.
Proof.
  intros [Ha Hab].
  destruct (Z.eq_dec a 0) as [->|Hne]; [ apply Zdigits2_nonneg | ].
  destruct (Zdigits2_bounds a ltac:(lia)) as [Hlo _].
  destruct (Zdigits2_bounds b ltac:(lia)) as [_ Hhi].
  destruct (Z_lt_le_dec (Zdigits2 b) (Zdigits2 a)) as [Hlt|]; [ exfalso | assumption ].
  assert (2 ^ Zdigits2 b <= 2 ^ (Zdigits2 a - 1)) by (apply Z.pow_le_mono_r; lia).
  lia.
Qed.

(** ** Rounding a non-negative fraction to 53 significant bits *)

Lemma rne_bounds (q : Z) (l : location) :
  q <= round_nearest_even q l <= q + 1.
Proof.
  destruct l as [|[ | | ]]; simpl; try lia.
  destruct (Z.even q); lia.
Qed.

Lemma rne_mono_loc (q r1 r2 P : Z) :
  0 <= r1 <= r2 ->
  round_nearest_even q (loc_of r1 P) <= round_nearest_even q (loc_of r2 P).
Proof.
  intros H. unfold loc_of.
  destruct (r1 =? 0) eqn:E1; destruct (r2 =? 0) eqn:E2.
  - lia.
  - apply rne_bounds.
  - apply Z.eqb_eq in E2. apply Z.eqb_neq in E1. lia.
  - destruct (Z.compare_spec (2 * r1) P); destruct (Z.compare_spec (2 * r2) P);
      simpl; try lia; destruct (Z.even q); lia.
Qed.

Lemma rne_mono (P N1 N2 : Z) :
  0 < P -> 0 <= N1 <= N2 ->
  round_nearest_even (N1 / P) (loc_of (N1 mod P) P)
  <= round_nearest_even (N2 / P) (loc_of (N2 mod P) P).
Proof.
  intros HP H.
  assert (Hq : N1 / P <= N2 / P) by (apply Z.div_le_mono; lia).
  destruct (Z.eq_dec (N1 / P) (N2 / P)) as [E | NE].
  - rewrite E. apply rne_mono_loc.
    pose proof (Z.mod_pos_bound N1 P HP).
    pose proof (Z.div_mod N1 P ltac:(lia)).
    pose proof (Z.div_mod N2 P ltac:(lia)).
    rewrite E in *. lia.
  - pose proof (rne_bounds (N1 / P) (loc_of (N1 mod P) P)).
    pose proof (rne_bounds (N2 / P) (loc_of (N2 mod P) P)).
    lia.
Qed.

Lemma rnd_nonneg (N D : Z) : 0 <= N -> 0 < D -> 0 <= rnd N D.
Proof.
  intros HN HD. unfold rnd.
  set (n := Z.max _ 0).
  assert (0 < 2 ^ n) by (apply Z.pow_pos_nonneg; lia).
  pose proof (rne_bounds (N / (D * 2 ^ n)) (loc_of (N mod (D * 2 ^ n)) (D * 2 ^ n))).
  assert (0 <= N / (D * 2 ^ n)) by (apply Z.div_pos; nia).
  nia.
Qed.

Lemma rnd_mono (N1 N2 D : Z) :
  0 <= N1 <= N2 -> 0 < D -> rnd N1 D <= rnd N2 D.
Proof.
  intros H HD. unfold rnd.
  assert (Hq : 0 <= N1 / D <= N2 / D).
  { split; [ apply Z.div_pos; lia | apply Z.div_le_mono; lia ]. }
  pose proof (Zdigits2_le _ _ Hq) as Hd.
  set (d1 := Zdigits2 (N1 / D)) in *. set (d2 := Zdigits2 (N2 / D)) in *.
  set (n1 := Z.max (d1 - 53) 0). set (n2 := Z.max (d2 - 53) 0).
  assert (Hn : 0 <= n1 <= n2) by lia.
  assert (Hp1 : 0 < 2 ^ n1) by (apply Z.pow_pos_nonneg; lia).
  assert (Hp2 : 0 < 2 ^ n2) by (apply Z.pow_pos_nonneg; lia).
  destruct (Z.eq_dec n1 n2) as [E | NE].
  - rewrite E. apply Z.mul_le_mono_nonneg_r; [ lia | ].
    apply rne_mono; nia.
  - (* the smaller result stays below 2^(53+n1), the larger is above *)
    assert (Hlt : n1 < n2) by lia.
    assert (Hd2 : d2 = n2 + 53) by lia.
    assert (HposN2 : 0 < N2 / D).
    { destruct (Z.eq_dec (N2 / D) 0) as [E0|]; [ | lia ].
      unfold d2 in Hd2. rewrite E0 in Hd2. simpl in Hd2. lia. }
    destruct (Zdigits2_bounds _ HposN2) as [Hlo2 _]. fold d2 in Hlo2.
    assert (Hupper : N1 / (D * 2 ^ n1) < 2 ^ 53).
    { rewrite <- Z.div_div by lia.
      apply Z.div_lt_upper_bound; [ lia | ].
      rewrite <- Z.pow_add_r by lia.
      destruct (Z.eq_dec (N1 / D) 0) as [E0|].
      - rewrite E0. apply Z.pow_pos_nonneg; lia.
      - destruct (Zdigits2_bounds (N1 / D) ltac:(lia)) as [_ Hhi1]. fold d1 in Hhi1.
        assert (2 ^ d1 <= 2 ^ (n1 + 53)) by (apply Z.pow_le_mono_r; lia).
        lia. }
    assert (Hlower : 2 ^ 52 <= N2 / (D * 2 ^ n2)).
    { rewrite <- Z.div_div by lia.
      apply Z.div_le_lower_bound; [ lia | ].
      rewrite <- Z.pow_add_r by lia.
      replace (n2 + 52) with (d2 - 1) by lia. exact Hlo2. }
    pose proof (rne_bounds (N1 / (D * 2 ^ n1)) (loc_of (N1 mod (D * 2 ^ n1)) (D * 2 ^ n1))) as B1.
    pose proof (rne_bounds (N2 / (D * 2 ^ n2)) (loc_of (N2 mod (D * 2 ^ n2)) (D * 2 ^ n2))) as B2.
    set (a1 := round_nearest_even _ _) in *. set (a2 := round_nearest_even _ _) in *.
    assert (Hpow : 2 ^ 53 * 2 ^ n1 <= 2 ^ 52 * 2 ^ n2).
    { rewrite <- !Z.pow_add_r by lia. apply Z.pow_le_mono_r; lia. }
    apply Z.le_trans with (2 ^ 53 * 2 ^ n1).
    + apply Z.mul_le_mono_nonneg_r; lia.
    + apply Z.le_trans with (2 ^ 52 * 2 ^ n2); [ exact Hpow | ].
      apply Z.mul_le_mono_nonneg_r; lia.
Qed.

Lemma loc_of_scale (c r P : Z) : 0 < c -> loc_of (c * r) (c * P) = loc_of r P.
Proof.
  intros Hc. unfold loc_of.
  destruct (Z.eqb_spec r 0) as [->|Hr].
  - rewrite Z.mul_0_r. reflexivity.
  - destruct (Z.eqb_spec (c * r) 0) as [E|_]; [ nia | ].
    f_equal.
    destruct (Z.compare_spec (2 * (c * r)) (c * P));
      destruct (Z.compare_spec (2 * r) P); try reflexivity; nia.
Qed.

Lemma rnd_scale (c N D : Z) : 0 < c -> 0 < D -> rnd (c * N) (c * D) = rnd N D.
Proof.
  intros Hc HD. unfold rnd.
  rewrite Z.div_mul_cancel_l by lia.
  set (n := Z.max _ 0).
  assert (0 < 2 ^ n) by (apply Z.pow_pos_nonneg; lia).
  rewrite <- Z.mul_assoc.
  rewrite Z.div_mul_cancel_l by nia.
  rewrite Z.mul_mod_distr_l by nia.
  rewrite loc_of_scale by exact Hc. reflexivity.
Qed.

(** [rnd] is monotone in the fraction. *)
Lemma rnd_mono_frac (N1 D1 N2 D2 : Z) :
  0 <= N1 -> 0 <= N2 -> 0 < D1 -> 0 < D2 ->
  N1 * D2 <= N2 * D1 -> rnd N1 D1 <= rnd N2 D2.
Proof.
  intros HN1 HN2 HD1 HD2 H.
  rewrite <- (rnd_scale D2 N1 D1) by assumption.
  rewrite <- (rnd_scale D1 N2 D2) by assumption.
  rewrite (Z.mul_comm D1 D2).
  apply rnd_mono; nia.
Qed.

(** ** Right shifts keep the truncation of a fraction *)

Lemma shr_1_fields (m : Z) (r s : bool) :
  0 <= m ->
  shr_1 (Build_shr_record m r s) = Build_shr_record (m / 2) (Z.odd m) (r || s).
Proof.
  intros Hm. destruct m as [|[p|p|]|p]; try lia; simpl shr_1; f_equal.
  - rewrite Pos2Z.inj_xI. apply (Z.div_unique _ _ _ 1); lia.
  - rewrite Pos2Z.inj_xO. apply (Z.div_unique _ _ _ 0); lia.
Qed.

Lemma sticky_of_loc (m : Z) (r s : bool) (rho D : Z) :
  0 <= rho < D ->
  loc_of_shr_record (Build_shr_record m r s) = loc_of rho D ->
  (r || s) = negb (rho =? 0).
Proof.
  intros H. unfold loc_of.
  destruct (rho =? 0); destruct r, s; simpl; try reflexivity; discriminate.
Qed.

Lemma shr_1_trunc (N D : Z) (mrs : shr_record) :
  0 <= N -> 0 < D -> trunc N D mrs -> trunc N (D * 2) (shr_1 mrs).
Proof.
  intros HN HD [Hm Hl]. destruct mrs as [m r s]. simpl in Hm.
  assert (Hm0 : 0 <= m) by (rewrite Hm; apply Z.div_pos; lia).
  pose proof (Z.mod_pos_bound N D HD) as Hrho.
  rewrite (shr_1_fields m r s Hm0).
  pose proof (sticky_of_loc m r s _ _ Hrho Hl) as Hst.
  unfold trunc. simpl shr_m. split.
  - rewrite <- Z.div_div by lia. rewrite Hm. reflexivity.
  - rewrite Z.rem_mul_r by lia. rewrite <- Hm, Hst.
    rewrite Zmod_odd. unfold loc_of, loc_of_shr_record.
    set (rho := N mod D) in *.
    destruct (Z.odd m); destruct (Z.eqb_spec rho 0) as [E0 | E0]; cbv [negb].
    + destruct (Z.eqb_spec (rho + D * 1) 0); [ lia | ].
      f_equal. symmetry. apply Z.compare_eq_iff. lia.
    + destruct (Z.eqb_spec (rho + D * 1) 0); [ lia | ].
      f_equal. symmetry. apply Z.compare_gt_iff. lia.
    + destruct (Z.eqb_spec (rho + D * 0) 0); [ reflexivity | lia ].
    + destruct (Z.eqb_spec (rho + D * 0) 0); [ lia | ].
      f_equal. symmetry. apply Z.compare_lt_iff. lia.
Qed.

Lemma pow2_xO (n : positive) : 2 ^ Zpos n~0 = 2 ^ Zpos n * 2 ^ Zpos n.
Proof.
  replace (Zpos n~0) with (Zpos n + Zpos n) by lia.
  apply Z.pow_add_r; lia.
Qed.

Lemma pow2_xI (n : positive) : 2 ^ Zpos n~1 = 2 * (2 ^ Zpos n * 2 ^ Zpos n).
Proof.
  replace (Zpos n~1) with (1 + (Zpos n + Zpos n)) by lia.
  rewrite Z.pow_add_r by lia. rewrite (Z.pow_add_r 2 (Zpos n)) by lia.
  reflexivity.
Qed.

Lemma iter_pos_shr_1_trunc (N : Z) (n : positive) :
  0 <= N ->
  forall (D : Z) (mrs : shr_record),
    0 < D -> trunc N D mrs -> trunc N (D * 2 ^ Zpos n) (iter_pos shr_1 n mrs).
Proof.
  intros HN. induction n as [n IH | n IH | ]; intros D mrs HD H.
  - simpl iter_pos.
    assert (Hp : 0 < 2 ^ Zpos n) by (apply Z.pow_pos_nonneg; lia).
    replace (D * 2 ^ Zpos n~1) with (D * 2 * 2 ^ Zpos n * 2 ^ Zpos n)
      by (rewrite pow2_xI; ring).
    apply IH; [ nia | apply IH; [ lia | apply shr_1_trunc; assumption ] ].
  - simpl iter_pos.
    assert (Hp : 0 < 2 ^ Zpos n) by (apply Z.pow_pos_nonneg; lia).
    replace (D * 2 ^ Zpos n~0) with (D * 2 ^ Zpos n * 2 ^ Zpos n)
      by (rewrite pow2_xO; ring).
    apply IH; [ nia | apply IH; assumption ].
  - simpl iter_pos. change (2 ^ 1) with 2. apply shr_1_trunc; assumption.
Qed.

(** ** Exponents of binary64 *)

Lemma fexp_eq (x : Z) : fexp prec emax x = Z.max (x - 53) (-1074).
Proof. reflexivity. Qed.

Lemma pow2_pos (n : Z) : 0 <= n -> 0 < 2 ^ n.
Proof. intros H. apply Z.pow_pos_nonneg; lia. Qed.

Lemma units_den_pos (D e : Z) : 0 < D -> 0 < units_den D e.
Proof.
  intros HD. unfold units_den. destruct (-1074 <=? e) eqn:E; [ exact HD | ].
  apply Z.leb_gt in E. pose proof (pow2_pos (-1074 - e) ltac:(lia)). nia.
Qed.

Lemma units_num_nonneg (N e : Z) : 0 <= N -> 0 <= units_num N e.
Proof.
  intros HN. unfold units_num. destruct (-1074 <=? e) eqn:E; [ | exact HN ].
  apply Z.leb_le in E. pose proof (pow2_pos (e + 1074) ltac:(lia)). nia.
Qed.

(** Digits of a scaled quotient. *)
Lemma Zdigits2_div_scaled (N D a : Z) :
  0 <= N -> 0 < D -> 0 <= a -> 0 < N / D ->
  Zdigits2 (N * 2 ^ a / D) = Zdigits2 (N / D) + a.
Proof.
  intros HN HD Ha Hm.
  destruct (Zdigits2_bounds _ Hm) as [Hlo Hhi].
  set (m := N / D) in *. set (dm := Zdigits2 m) in *.
  pose proof (pow2_pos a Ha) as Hpa.
  assert (HmD : m * D <= N < (m + 1) * D).
  { pose proof (Z.div_mod N D ltac:(lia)). pose proof (Z.mod_pos_bound N D HD).
    unfold m. nia. }
  assert (Hdm : 1 <= dm).
  { destruct (Z_lt_le_dec dm 1); [ | assumption ].
    assert (dm <= 0) by lia.
    destruct (Z.eq_dec dm 0) as [E|]; [ rewrite E in Hhi; simpl in Hhi; lia | ].
    rewrite Z.pow_neg_r in Hhi by lia. lia. }
  apply Zdigits2_unique.
  - apply Z.lt_le_trans with (m * 2 ^ a); [ nia | ].
    apply Z.div_le_lower_bound; [ lia | nia ].
  - split.
    + replace (dm + a - 1) with ((dm - 1) + a) by lia.
      rewrite Z.pow_add_r by lia.
      apply Z.le_trans with (m * 2 ^ a); [ nia | ].
      apply Z.div_le_lower_bound; [ lia | nia ].
    + rewrite Z.pow_add_r by lia.
      apply Z.div_lt_upper_bound; [ lia | ].
      assert (N < D * 2 ^ dm) by nia.
      rewrite Z.mul_assoc. apply Z.mul_lt_mono_pos_r; assumption.
Qed.

Lemma Zdigits2_div_pow2 (m b : Z) :
  0 < m -> 0 <= b -> 2 ^ b <= m ->
  Zdigits2 (m / 2 ^ b) = Zdigits2 m - b.
Proof.
  intros Hm Hb Hge.
  destruct (Zdigits2_bounds _ Hm) as [Hlo Hhi].
  set (dm := Zdigits2 m) in *.
  pose proof (pow2_pos b Hb) as Hpb.
  assert (Hdb : b < dm).
  { destruct (Z_lt_le_dec b dm); [ assumption | ].
    assert (2 ^ dm <= 2 ^ b) by (apply Z.pow_le_mono_r; lia). lia. }
  assert (Hq : 0 < m / 2 ^ b).
  { apply Z.div_str_pos. lia. }
  apply Zdigits2_unique; [ exact Hq | ]. split.
  - apply Z.div_le_lower_bound; [ lia | ].
    rewrite <- Z.pow_add_r by lia.
    replace (b + (dm - b - 1)) with (dm - 1) by lia. exact Hlo.
  - apply Z.div_lt_upper_bound; [ lia | ].
    rewrite <- Z.pow_add_r by lia.
    replace (b + (dm - b)) with dm by lia. exact Hhi.
Qed.

(** The shift of [rnd] is the one [shr_fexp] applies. *)
Lemma rnd_units (N D e : Z) :
  0 <= N -> 0 < D ->
  let m := N / D in
  let t := fexp prec emax (Zdigits2 m + e) in
  e <= t ->
  let P := D * 2 ^ (t - e) in
  rnd (units_num N e) (units_den D e)
  = round_nearest_even (N / P) (loc_of (N mod P) P) * 2 ^ (t + 1074).
Proof.
  intros HN HD m t Het P. unfold P. clear P.
  assert (Ht : t = Z.max (Zdigits2 m + e - 53) (-1074)) by reflexivity.
  pose proof (Zdigits2_nonneg m) as Hdm0.
  assert (Hm0 : 0 <= m) by (apply Z.div_pos; lia).
  unfold rnd, units_num, units_den.
  destruct (-1074 <=? e) eqn:Ee.
  - apply Z.leb_le in Ee.
    set (a := e + 1074). assert (Ha : 0 <= a) by (unfold a; lia).
    pose proof (pow2_pos a Ha) as Hpa.
    assert (Hn : Z.max (Zdigits2 (N * 2 ^ a / D) - 53) 0 = t + 1074).
    { destruct (Z.eq_dec m 0) as [E0 | NE0].
      - assert (e = -1074).
        { rewrite E0 in Ht. simpl in Ht. lia. }
        assert (a = 0) by (unfold a; lia).
        replace (N * 2 ^ a) with N by (subst a; rewrite H0; simpl; lia).
        fold m. rewrite E0. simpl Zdigits2. rewrite E0 in Ht. simpl in Ht. lia.
      - rewrite Zdigits2_div_scaled by (fold m; lia). fold m. unfold a. lia. }
    rewrite Hn.
    assert (Hk : 0 <= t - e) by lia.
    pose proof (pow2_pos (t - e) Hk) as Hpk.
    replace (2 ^ (t + 1074)) with (2 ^ (t - e) * 2 ^ a)
      by (rewrite <- Z.pow_add_r by lia; f_equal; unfold a; lia).
    rewrite (Z.mul_assoc D).
    rewrite Z.div_mul_cancel_r by nia.
    rewrite Z.mul_mod_distr_r by nia.
    rewrite (Z.mul_comm (N mod _) (2 ^ a)), (Z.mul_comm (D * 2 ^ (t - e)) (2 ^ a)).
    rewrite loc_of_scale by exact Hpa. reflexivity.
  - apply Z.leb_gt in Ee.
    set (b := -1074 - e). assert (Hb : 0 < b) by (unfold b; lia).
    pose proof (pow2_pos b ltac:(lia)) as Hpb.
    assert (Hq0 : N / (D * 2 ^ b) = m / 2 ^ b).
    { unfold m. rewrite Z.div_div by lia. reflexivity. }
    assert (Hn : Z.max (Zdigits2 (N / (D * 2 ^ b)) - 53) 0 = t + 1074).
    { rewrite Hq0.
      destruct (Z_lt_le_dec m (2 ^ b)) as [Hsmall | Hbig].
      - rewrite Z.div_small by lia. simpl Zdigits2.
        assert (Zdigits2 m <= b).
        { destruct (Z.eq_dec m 0) as [E0|]; [ rewrite E0; simpl; lia | ].
          destruct (Zdigits2_bounds m ltac:(lia)) as [Hlo _].
          destruct (Z_lt_le_dec b (Zdigits2 m)); [ | assumption ].
          assert (2 ^ b <= 2 ^ (Zdigits2 m - 1)) by (apply Z.pow_le_mono_r; lia).
          lia. }
        unfold b in *. lia.
      - rewrite Zdigits2_div_pow2 by lia. unfold b. lia. }
    rewrite Hn.
    replace (D * 2 ^ b * 2 ^ (t + 1074)) with (D * 2 ^ (t - e)).
    + reflexivity.
    + rewrite <- Z.mul_assoc, <- Z.pow_add_r by lia.
      do 2 f_equal. unfold b. lia.
Qed.

(** ** The order of binary64 values as integers *)

Lemma shr_spec (N D : Z) (mrs : shr_record) (e k : Z) :
  0 <= N -> 0 < D -> 0 <= k -> trunc N D mrs ->
  trunc N (D * 2 ^ k) (fst (shr mrs e k)) /\ snd (shr mrs e k) = e + k.
Proof.
  intros HN HD Hk H. destruct k as [|p|p]; try lia.
  - simpl. rewrite Z.mul_1_r, Z.add_0_r. split; [ exact H | reflexivity ].
  - simpl fst. simpl snd. split; [ | reflexivity ].
    apply iter_pos_shr_1_trunc; assumption.
Qed.

Lemma shr_nop (mrs : shr_record) (e k : Z) : k <= 0 -> shr mrs e k = (mrs, e).
Proof. intros Hk. destruct k as [|p|p]; try lia; reflexivity. Qed.

Lemma record_of_loc_trunc (N D : Z) :
  trunc N D (shr_record_of_loc (N / D) (loc_of (N mod D) D)).
Proof.
  unfold trunc. destruct (loc_of (N mod D) D) as [|[ | | ]]; split; reflexivity.
Qed.

Lemma Zdigits2_lt_pow (m d : Z) : 0 <= d -> 0 <= m < 2 ^ d -> Zdigits2 m <= d.
Proof.
  intros Hd [Hm0 Hm].
  destruct (Z.eq_dec m 0) as [->|]; [ simpl; lia | ].
  destruct (Zdigits2_bounds m ltac:(lia)) as [Hlo _].
  destruct (Z_lt_le_dec d (Zdigits2 m)); [ | assumption ].
  assert (2 ^ d <= 2 ^ (Zdigits2 m - 1)) by (apply Z.pow_le_mono_r; lia). lia.
Qed.

(** The mantissa after the first shift has at most 53 digits, and
    exactly 53 above the subnormal range. *)
Lemma shifted_mantissa_bounds (m e : Z) :
  0 <= m ->
  let t := fexp prec emax (Zdigits2 m + e) in
  e <= t ->
  m / 2 ^ (t - e) < 2 ^ 53 /\ (-1074 < t -> 2 ^ 52 <= m / 2 ^ (t - e)).
Proof.
  intros Hm t Het.
  assert (Ht : t = Z.max (Zdigits2 m + e - 53) (-1074)) by reflexivity.
  pose proof (pow2_pos (t - e) ltac:(lia)) as Hp.
  destruct (Z.eq_dec m 0) as [E0 | NE0].
  - rewrite E0 in *. simpl in Ht. rewrite Z.div_0_l by lia. split; [ reflexivity | lia ].
  - destruct (Zdigits2_bounds m ltac:(lia)) as [Hlo Hhi].
    split.
    + apply Z.div_lt_upper_bound; [ lia | ].
      rewrite <- Z.pow_add_r by lia.
      assert (2 ^ Zdigits2 m <= 2 ^ (t - e + 53)) by (apply Z.pow_le_mono_r; lia).
      lia.
    + intros Hnorm. apply Z.div_le_lower_bound; [ lia | ].
      rewrite <- Z.pow_add_r by lia.
      replace (t - e + 52) with (Zdigits2 m - 1) by lia. exact Hlo.
Qed.

Lemma Zdigits2_pow53 : Zdigits2 (2 ^ 53) = 54.
Proof. reflexivity. Qed.

(** The end of [binary_round_aux]: the carry shift and the overflow test. *)
Lemma round_finish (sx : bool) (m2 t : Z) :
  -1074 <= t -> 0 <= m2 <= 2 ^ 53 -> (-1074 < t -> 2 ^ 52 <= m2) ->
  let x :=
    match shr_m (fst (shr_fexp prec emax m2 t loc_Exact)) with
    | Z0 => S754_zero sx
    | Zpos p =>
        if snd (shr_fexp prec emax m2 t loc_Exact) <=? emax - prec
        then S754_finite sx p (snd (shr_fexp prec emax m2 t loc_Exact))
        else S754_infinity sx
    | Zneg _ => S754_nan
    end in
  ord x = cond_Zopp sx (sat (m2 * 2 ^ (t + 1074))) /\ x <> S754_nan.
Proof.
  intros Ht Hm2 Hnorm.
  pose proof (pow2_pos (t + 1074) ltac:(lia)) as Hpt.
  change (emax - prec) with 971.
  unfold shr_fexp. rewrite fexp_eq.
  destruct (Z.eq_dec m2 (2 ^ 53)) as [E | NE].
  - (* the rounding carried into a 54th digit *)
    rewrite E, Zdigits2_pow53.
    replace (Z.max (54 + t - 53) (-1074) - t) with 1 by lia.
    cbv zeta. change (shr (shr_record_of_loc (2 ^ 53) loc_Exact) t 1)
      with (Build_shr_record (Zpos (2 ^ 52)) false false, t + 1).
    cbv beta iota delta [fst snd shr_m].
    assert (Hv : Zpos (2 ^ 52) * 2 ^ (t + 1 + 1074) = 2 ^ 53 * 2 ^ (t + 1074)).
    { replace (t + 1 + 1074) with (1 + (t + 1074)) by lia.
      rewrite Z.pow_add_r by lia. change (2 ^ 1) with 2.
      change (Zpos (2 ^ 52)) with (2 ^ 52). change (2 ^ 53) with (2 ^ 52 * 2).
      ring. }
    destruct (Z.leb_spec (t + 1) 971) as [Hle | Hgt].
    + split; [ | discriminate ]. unfold ord. f_equal.
      unfold sat. rewrite Hv.
      assert (2 ^ 53 * 2 ^ (t + 1074) < 2 ^ 2098).
      { rewrite <- Z.pow_add_r by lia. apply Z.pow_lt_mono_r; lia. }
      destruct (Z.ltb_spec (2 ^ 53 * 2 ^ (t + 1074)) (2 ^ 2098)); [ reflexivity | lia ].
    + split; [ | discriminate ]. unfold ord. f_equal. unfold sat.
      assert (2 ^ 2098 <= 2 ^ 53 * 2 ^ (t + 1074)).
      { rewrite <- Z.pow_add_r by lia. apply Z.pow_le_mono_r; lia. }
      destruct (Z.ltb_spec (2 ^ 53 * 2 ^ (t + 1074)) (2 ^ 2098)); [ lia | reflexivity ].
  - assert (Hlt : m2 < 2 ^ 53) by lia.
    pose proof (Zdigits2_lt_pow m2 53 ltac:(lia) ltac:(lia)) as Hd.
    rewrite shr_nop by lia. cbv beta iota zeta delta [fst snd shr_m shr_record_of_loc].
    destruct m2 as [|p|p]; try lia.
    + split; [ | discriminate ]. unfold ord, sat. rewrite Z.mul_0_l.
      change (0 <? 2 ^ 2098) with true. destruct sx; reflexivity.
    + destruct (Z.leb_spec t 971) as [Hle | Hgt].
      * split; [ | discriminate ]. unfold ord. f_equal. unfold sat.
        assert (Zpos p * 2 ^ (t + 1074) < 2 ^ 2098).
        { apply Z.lt_le_trans with (2 ^ 53 * 2 ^ (t + 1074)).
          - apply Z.mul_lt_mono_pos_r; lia.
          - rewrite <- Z.pow_add_r by lia. apply Z.pow_le_mono_r; lia. }
        destruct (Z.ltb_spec (Zpos p * 2 ^ (t + 1074)) (2 ^ 2098)); [ reflexivity | lia ].
      * split; [ | discriminate ]. unfold ord. f_equal. unfold sat.
        assert (2 ^ 2098 <= Zpos p * 2 ^ (t + 1074)).
        { apply Z.le_trans with (2 ^ 52 * 2 ^ (t + 1074)).
          - rewrite <- Z.pow_add_r by lia. apply Z.pow_le_mono_r; lia.
          - apply Z.mul_le_mono_nonneg_r; [ lia | apply Hnorm; lia ]. }
        destruct (Z.ltb_spec (Zpos p * 2 ^ (t + 1074)) (2 ^ 2098)); [ lia | reflexivity ].
Qed.

(** [binary_round_aux] on the truncation of [N / D] at exponent [e]
    returns the rounding of that fraction, with the given sign. *)
Lemma binary_round_aux_ord (sx : bool) (N D e : Z) :
  0 <= N -> 0 < D ->
  e <= fexp prec emax (Zdigits2 (N / D) + e) ->
  let x := binary_round_aux prec emax sx (N / D) e (loc_of (N mod D) D) in
  ord x = cond_Zopp sx (sat (rnd (units_num N e) (units_den D e)))
  /\ x <> S754_nan.
Proof.
  intros HN HD He.
  pose proof (rnd_units N D e HN HD He) as Hr. cbv zeta in Hr. rewrite Hr. clear Hr.
  assert (Hm0 : 0 <= N / D) by (apply Z.div_pos; lia).
  pose proof (shifted_mantissa_bounds (N / D) e Hm0 He) as [Hub Hlb].
  set (t := fexp prec emax (Zdigits2 (N / D) + e)) in *.
  assert (Ht : -1074 <= t) by (unfold t; rewrite fexp_eq; lia).
  rewrite Z.div_div in Hub, Hlb by (try apply pow2_pos; lia).
  set (P := D * 2 ^ (t - e)) in *.
  pose proof (pow2_pos (t - e) ltac:(lia)) as Hpk.
  assert (HP : 0 < P) by (unfold P; nia).
  unfold binary_round_aux.
  pose proof (shr_spec N D (shr_record_of_loc (N / D) (loc_of (N mod D) D))
                e (t - e) HN HD ltac:(lia) (record_of_loc_trunc N D)) as [Htr He'].
  change (shr (shr_record_of_loc (N / D) (loc_of (N mod D) D)) e (t - e))
    with (shr_fexp prec emax (N / D) e (loc_of (N mod D) D)) in Htr, He'.
  destruct (shr_fexp prec emax (N / D) e (loc_of (N mod D) D)) as [mrs' e'].
  simpl fst in Htr. simpl snd in He'. fold P in Htr.
  destruct Htr as [Hm1 Hl1]. rewrite Hm1, Hl1.
  replace e' with t by lia.
  set (m2 := round_nearest_even (N / P) (loc_of (N mod P) P)).
  pose proof (rne_bounds (N / P) (loc_of (N mod P) P)) as Hb. fold m2 in Hb.
  assert (Hq0 : 0 <= N / P) by (apply Z.div_pos; lia).
  pose proof (round_finish sx m2 t Ht ltac:(lia) ltac:(intros Hn; specialize (Hlb Hn); lia)) as Hf.
  cbv zeta in Hf.
  destruct (shr_fexp prec emax m2 t loc_Exact) as [mrs'' e''].
  simpl fst in Hf. simpl snd in Hf. exact Hf.
Qed.

(** ** Comparison of valid floats is comparison of their integer values *)

Lemma bounded_facts (m : positive) (e : Z) :
  bounded prec emax m e = true ->
  -1074 <= e <= 971 /\ Zpos m < 2 ^ 53 /\ (-1074 < e -> 2 ^ 52 <= Zpos m).
Proof.
  unfold bounded, canonical_mantissa. rewrite fexp_eq.
  change (emax - prec) with 971.
  intros H. apply andb_true_iff in H. destruct H as [Hc He].
  apply Z.eqb_eq in Hc. apply Z.leb_le in He.
  pose proof (digits2_pos_bounds m) as [Hlo Hhi].
  set (d := Zpos (digits2_pos m)) in *.
  split; [ lia | ]. split.
  - assert (2 ^ d <= 2 ^ 53) by (apply Z.pow_le_mono_r; lia). lia.
  - intros Hn. assert (d = 53) by lia.
    replace 52 with (d - 1) by lia. exact Hlo.
Qed.

Lemma finite_ord_bounds (m : positive) (e : Z) :
  bounded prec emax m e = true ->
  0 < Zpos m * 2 ^ (e + 1074) < 2 ^ 2098.
Proof.
  intros H. destruct (bounded_facts m e H) as [He [Hm _]].
  pose proof (pow2_pos (e + 1074) ltac:(lia)) as Hp. split; [ nia | ].
  apply Z.lt_le_trans with (2 ^ 53 * 2 ^ (e + 1074)).
  - apply Z.mul_lt_mono_pos_r; lia.
  - rewrite <- Z.pow_add_r by lia. apply Z.pow_le_mono_r; lia.
Qed.

Lemma finite_ord_lt (m1 m2 : positive) (e1 e2 : Z) :
  bounded prec emax m1 e1 = true -> bounded prec emax m2 e2 = true ->
  e1 < e2 ->
  Zpos m1 * 2 ^ (e1 + 1074) < Zpos m2 * 2 ^ (e2 + 1074).
Proof.
  intros H1 H2 Hlt.
  destruct (bounded_facts m1 e1 H1) as [He1 [Hm1 _]].
  destruct (bounded_facts m2 e2 H2) as [He2 [_ Hm2]].
  specialize (Hm2 ltac:(lia)).
  pose proof (pow2_pos (e1 + 1074) ltac:(lia)) as Hp1.
  pose proof (pow2_pos (e2 + 1074) ltac:(lia)) as Hp2.
  apply Z.lt_le_trans with (2 ^ 53 * 2 ^ (e1 + 1074)).
  - apply Z.mul_lt_mono_pos_r; lia.
  - apply Z.le_trans with (2 ^ 52 * 2 ^ (e2 + 1074)).
    + rewrite <- !Z.pow_add_r by lia. apply Z.pow_le_mono_r; lia.
    + apply Z.mul_le_mono_nonneg_r; lia.
Qed.

Lemma finite_compare (m1 m2 : positive) (e1 e2 : Z) :
  bounded prec emax m1 e1 = true -> bounded prec emax m2 e2 = true ->
  match e1 ?= e2 with
  | Lt => Lt
  | Gt => Gt
  | Eq => Pos.compare_cont Eq m1 m2
  end
  = (Zpos m1 * 2 ^ (e1 + 1074) ?= Zpos m2 * 2 ^ (e2 + 1074)).
Proof.
  intros H1 H2. symmetry.
  destruct (Z.compare_spec e1 e2) as [E | L | G].
  - subst e2. destruct (bounded_facts m1 e1 H1) as [He1 _].
    pose proof (pow2_pos (e1 + 1074) ltac:(lia)) as Hp.
    change (Pos.compare_cont Eq m1 m2) with (Zpos m1 ?= Zpos m2).
    destruct (Z.compare_spec (Zpos m1) (Zpos m2)) as [E | L | G].
    + rewrite E. apply Z.compare_refl.
    + apply Z.compare_lt_iff. apply Z.mul_lt_mono_pos_r; assumption.
    + apply Z.compare_gt_iff. apply Z.mul_lt_mono_pos_r; assumption.
  - apply Z.compare_lt_iff. apply finite_ord_lt; assumption.
  - apply Z.compare_gt_iff. apply finite_ord_lt; assumption.
Qed.

Lemma INF_pos : 2 ^ 2098 < INF /\ 0 < INF.
Proof. split; reflexivity. Qed.

Lemma SFcompare_ord (x y : spec_float) :
  valid_binary x = true -> valid_binary y = true ->
  x <> S754_nan -> y <> S754_nan ->
  SFcompare x y = Some (ord x ?= ord y).
Proof.
  intros Vx Vy Nx Ny. pose proof INF_pos as [HI1 HI2].
  destruct x as [sx | sx | | sx mx ex]; try congruence;
    destruct y as [sy | sy | | sy my ey]; try congruence;
    unfold ord, SFcompare, cond_Zopp.
  - reflexivity.
  - destruct sy; order_by_compare.
  - pose proof (finite_ord_bounds my ey Vy).
    destruct sy; order_by_compare.
  - destruct sx; order_by_compare.
  - destruct sx, sy; order_by_compare.
  - pose proof (finite_ord_bounds my ey Vy).
    destruct sx, sy; order_by_compare.
  - pose proof (finite_ord_bounds mx ex Vx).
    destruct sx; order_by_compare.
  - pose proof (finite_ord_bounds mx ex Vx).
    destruct sx, sy; order_by_compare.
  - pose proof (finite_ord_bounds mx ex Vx).
    pose proof (finite_ord_bounds my ey Vy).
    pose proof (finite_compare mx my ex ey Vx Vy) as Hc.
    pose proof (finite_compare my mx ey ex Vy Vx) as Hc'.
    destruct sx, sy; f_equal.
    + rewrite Z.compare_opp.
      rewrite <- Hc'. rewrite (Z.compare_antisym ey ex).
      rewrite (Pos.compare_cont_antisym).
      destruct (ey ?= ex); simpl; try reflexivity.
    + symmetry. apply Z.compare_lt_iff. lia.
    + symmetry. apply Z.compare_gt_iff. lia.
    + exact Hc.
Qed.

(** ** Subtraction *)

Lemma iter_xO (p d : positive) : Zpos (Pos.iter xO p d) = Zpos p * 2 ^ Zpos d.
Proof.
  induction d as [|d IH] using Pos.peano_ind.
  - simpl. lia.
  - rewrite Pos.iter_succ, Pos2Z.inj_xO, IH, Pos2Z.inj_succ, Z.pow_succ_r by lia.
    ring.
Qed.

Lemma shl_align_fst (m : positive) (e e' : Z) :
  Zpos (fst (shl_align m e e')) = Zpos m * 2 ^ (e - Z.min e e')
  /\ snd (shl_align m e e') = Z.min e e'.
Proof.
  unfold shl_align. destruct (e' - e) as [|d|d] eqn:E; simpl fst; simpl snd.
  - replace (e - Z.min e e') with 0 by lia. split; lia.
  - replace (e - Z.min e e') with 0 by lia. split; lia.
  - rewrite iter_xO. replace (e - Z.min e e') with (Zpos d) by lia. split; lia.
Qed.

Lemma Zdigits2_mul_pow2 (m k : Z) :
  0 < m -> 0 <= k -> Zdigits2 (m * 2 ^ k) = Zdigits2 m + k.
Proof.
  intros Hm Hk. destruct (Zdigits2_bounds m Hm) as [Hlo Hhi].
  pose proof (pow2_pos k Hk) as Hp.
  pose proof (Zdigits2_nonneg m).
  assert (1 <= Zdigits2 m).
  { destruct (Z.eq_dec (Zdigits2 m) 0) as [E|]; [ | lia ].
    rewrite E in Hhi. simpl in Hhi. lia. }
  apply Zdigits2_unique; [ nia | ]. split.
  - replace (Zdigits2 m + k - 1) with (Zdigits2 m - 1 + k) by lia.
    rewrite Z.pow_add_r by lia. apply Z.mul_le_mono_nonneg_r; lia.
  - rewrite Z.pow_add_r by lia. apply Z.mul_lt_mono_pos_r; lia.
Qed.

Lemma loc_of_exact (N : Z) : loc_of (N mod 1) 1 = loc_Exact.
Proof. rewrite Z.mod_1_r. reflexivity. Qed.

(** [binary_round] rounds the integer [p * 2 ^ e]. *)
Lemma binary_round_ord (sx : bool) (p : positive) (e : Z) :
  -1074 <= e ->
  ord (binary_round prec emax sx p e)
  = cond_Zopp sx (sat (rnd (Zpos p * 2 ^ (e + 1074)) 1))
  /\ binary_round prec emax sx p e <> S754_nan.
Proof.
  intros He. unfold binary_round.
  set (t := fexp prec emax (Zpos (digits2_pos p) + e)).
  assert (Ht : t = Z.max (Zpos (digits2_pos p) + e - 53) (-1074)) by reflexivity.
  destruct (shl_align_fst p e t) as [Hfst Hsnd].
  destruct (shl_align p e t) as [mz ez]. simpl fst in Hfst. simpl snd in Hsnd.
  pose proof (pow2_pos (e - Z.min e t) ltac:(lia)) as Hp.
  assert (Hpre : ez <= fexp prec emax (Zdigits2 (Zpos mz / 1) + ez)).
  { rewrite Z.div_1_r, Hfst.
    rewrite Zdigits2_mul_pow2 by lia. rewrite fexp_eq. simpl Zdigits2. lia. }
  pose proof (binary_round_aux_ord sx (Zpos mz) 1 ez ltac:(lia) ltac:(lia) Hpre) as H.
  cbv zeta in H. rewrite Z.div_1_r, loc_of_exact in H.
  destruct H as [Hord Hnan]. split; [ | exact Hnan ].
  rewrite Hord. do 2 f_equal.
  unfold units_num, units_den.
  replace (-1074 <=? ez) with true by (symmetry; apply Z.leb_le; lia).
  f_equal. rewrite Hfst, <- Z.mul_assoc, <- Z.pow_add_r by lia.
  do 2 f_equal. lia.
Qed.

Lemma rnd_zero (D : Z) : 0 < D -> rnd 0 D = 0.
Proof.
  intros HD. unfold rnd. rewrite Z.div_0_l by lia. simpl Zdigits2.
  change (Z.max (0 - 53) 0) with 0. rewrite Z.mul_1_r.
  rewrite Z.div_0_l, Z.mod_0_l by lia. reflexivity.
Qed.

Lemma binary_normalize_ord (M e : Z) :
  -1074 <= e ->
  ord (binary_normalize prec emax M e false) = sround (M * 2 ^ (e + 1074))
  /\ binary_normalize prec emax M e false <> S754_nan.
Proof.
  intros He. pose proof (pow2_pos (e + 1074) ltac:(lia)) as Hp.
  unfold binary_normalize, sround. destruct M as [|p|p].
  - split; [ | discriminate ]. simpl ord. rewrite Z.mul_0_l.
    change (0 <? 0) with false. rewrite rnd_zero by lia. reflexivity.
  - destruct (binary_round_ord false p e He) as [H Hn]. split; [ | exact Hn ].
    rewrite H. replace (Zpos p * 2 ^ (e + 1074) <? 0) with false
      by (symmetry; apply Z.ltb_ge; nia).
    reflexivity.
  - destruct (binary_round_ord true p e He) as [H Hn]. split; [ | exact Hn ].
    rewrite H. replace (Zneg p * 2 ^ (e + 1074) <? 0) with true
      by (symmetry; apply Z.ltb_lt; nia).
    unfold cond_Zopp. do 3 f_equal. rewrite <- Z.mul_opp_l. reflexivity.
Qed.

Lemma sat_mono (a b : Z) : a <= b -> sat a <= sat b.
Proof.
  intros H. unfold sat. pose proof INF_pos as [HI _].
  destruct (Z.ltb_spec a (2 ^ 2098)); destruct (Z.ltb_spec b (2 ^ 2098)); lia.
Qed.

Lemma sat_bounds (a : Z) : 0 <= a -> 0 <= sat a <= INF.
Proof.
  intros H. unfold sat. pose proof INF_pos as [HI HI'].
  destruct (Z.ltb_spec a (2 ^ 2098)); lia.
Qed.


Lemma sround_mono (V1 V2 : Z) : V1 <= V2 -> sround V1 <= sround V2.
Proof.
  intros H. unfold sround.
  destruct (Z.ltb_spec V1 0); destruct (Z.ltb_spec V2 0); try lia.
  - apply Z.opp_le_mono. rewrite !Z.opp_involutive.
    apply sat_mono, rnd_mono; lia.
  - pose proof (sat_bounds (rnd (- V1) 1) (rnd_nonneg (- V1) 1 ltac:(lia) ltac:(lia))).
    pose proof (sat_bounds (rnd V2 1) (rnd_nonneg V2 1 ltac:(lia) ltac:(lia))).
    lia.
  - apply sat_mono, rnd_mono; lia.
Qed.

(** A valid finite float is its own rounding. *)
Lemma rnd_representable (m : positive) (e : Z) :
  bounded prec emax m e = true ->
  sat (rnd (Zpos m * 2 ^ (e + 1074)) 1) = Zpos m * 2 ^ (e + 1074).
Proof.
  intros H. pose proof (finite_ord_bounds m e H) as [Hpos Hlt].
  destruct (bounded_facts m e H) as [He _].
  assert (Hc : fexp prec emax (Zdigits2 (Zpos m / 1) + e) = e).
  { rewrite Z.div_1_r. unfold bounded in H. apply andb_true_iff in H.
    destruct H as [Hc _]. apply Z.eqb_eq in Hc. exact Hc. }
  pose proof (rnd_units (Zpos m) 1 e ltac:(lia) ltac:(lia)) as Hr.
  cbv zeta in Hr. rewrite Hc in Hr. specialize (Hr ltac:(lia)).
  unfold units_num, units_den in Hr.
  replace (-1074 <=? e) with true in Hr by (symmetry; apply Z.leb_le; lia).
  rewrite Hr. rewrite Z.sub_diag. change (1 * 2 ^ 0) with 1.
  rewrite Z.div_1_r, loc_of_exact. simpl round_nearest_even.
  unfold sat. destruct (Z.ltb_spec (Zpos m * 2 ^ (e + 1074)) (2 ^ 2098)); lia.
Qed.

Lemma sround_representable (s : bool) (m : positive) (e : Z) :
  bounded prec emax m e = true ->
  sround (cond_Zopp s (Zpos m * 2 ^ (e + 1074)))
  = cond_Zopp s (Zpos m * 2 ^ (e + 1074)).
Proof.
  intros H. pose proof (finite_ord_bounds m e H) as [Hpos Hlt].
  pose proof (rnd_representable m e H) as Hr.
  unfold sround, cond_Zopp. destruct s.
  - replace (- (Zpos m * 2 ^ (e + 1074)) <? 0) with true
      by (symmetry; apply Z.ltb_lt; lia).
    rewrite Z.opp_involutive, Hr. reflexivity.
  - replace (Zpos m * 2 ^ (e + 1074) <? 0) with false
      by (symmetry; apply Z.ltb_ge; lia).
    exact Hr.
Qed.


Lemma sround_0 : sround 0 = 0.
Proof. unfold sround. change (0 <? 0) with false. rewrite rnd_zero by lia. reflexivity. Qed.

Lemma SFsub_ord (x y : spec_float) :
  valid_binary x = true -> valid_binary y = true ->
  x <> S754_nan -> is_fin y = true ->
  ord (SF64sub x y) = sub_ord (ord x) (ord y) /\ SF64sub x y <> S754_nan.
Proof.
  intros Vx Vy Nx Fy. pose proof INF_pos as [HI1 HI2].
  unfold SF64sub.
  destruct y as [sy | sy | | sy my ey]; try discriminate;
    destruct x as [sx | sx | | sx mx ex]; try congruence.
  - (* zero - zero *)
    split; [ | destruct sx, sy; discriminate ].
    replace (ord (SFsub prec emax (S754_zero sx) (S754_zero sy))) with 0
      by (destruct sx, sy; reflexivity).
    unfold sub_ord. unfold ord.
    destruct (Z.leb_spec INF 0); [ lia | ].
    destruct (Z.leb_spec 0 (- INF)); [ lia | ].
    rewrite Z.sub_0_r, sround_0. reflexivity.
  - (* infinity - zero *)
    split; [ | discriminate ]. simpl SFsub. unfold ord, sub_ord, cond_Zopp.
    destruct sx.
    + destruct (Z.leb_spec INF (- INF)); [ lia | ].
      destruct (Z.leb_spec (- INF) (- INF)); [ reflexivity | lia ].
    + destruct (Z.leb_spec INF INF); [ reflexivity | lia ].
  - (* finite - zero *)
    split; [ | discriminate ]. simpl SFsub.
    pose proof (finite_ord_bounds mx ex Vx) as [Hpos Hlt].
    unfold sub_ord. unfold ord. rewrite Z.sub_0_r.
    rewrite (sround_representable sx mx ex Vx).
    unfold cond_Zopp.
    destruct sx.
    + destruct (Z.leb_spec INF (- (Zpos mx * 2 ^ (ex + 1074)))); [ lia | ].
      destruct (Z.leb_spec (- (Zpos mx * 2 ^ (ex + 1074))) (- INF)); [ lia | ].
      reflexivity.
    + destruct (Z.leb_spec INF (Zpos mx * 2 ^ (ex + 1074))); [ lia | ].
      destruct (Z.leb_spec (Zpos mx * 2 ^ (ex + 1074)) (- INF)); [ lia | ].
      reflexivity.
  - (* zero - finite *)
    split; [ | discriminate ]. simpl SFsub.
    pose proof (finite_ord_bounds my ey Vy) as [Hpos Hlt].
    unfold sub_ord. unfold ord.
    destruct (Z.leb_spec INF 0); [ lia | ].
    destruct (Z.leb_spec 0 (- INF)); [ lia | ].
    replace (0 - cond_Zopp sy (Zpos my * 2 ^ (ey + 1074)))
      with (cond_Zopp (negb sy) (Zpos my * 2 ^ (ey + 1074)))
      by (destruct sy; unfold cond_Zopp; simpl negb; lia).
    rewrite (sround_representable (negb sy) my ey Vy). reflexivity.
  - (* infinity - finite *)
    split; [ | discriminate ]. simpl SFsub. unfold ord at 1. unfold sub_ord.
    unfold ord at 1 2. destruct sx; unfold cond_Zopp at 1 2 3.
    + destruct (Z.leb_spec INF (- INF)); [ lia | ].
      destruct (Z.leb_spec (- INF) (- INF)); [ reflexivity | lia ].
    + destruct (Z.leb_spec INF INF); [ reflexivity | lia ].
  - (* finite - finite *)
    pose proof (finite_ord_bounds mx ex Vx) as [Hposx Hltx].
    pose proof (finite_ord_bounds my ey Vy) as [Hposy Hlty].
    destruct (bounded_facts mx ex Vx) as [Hex _].
    destruct (bounded_facts my ey Vy) as [Hey _].
    unfold SFsub.
    destruct (shl_align_fst mx ex (Z.min ex ey)) as [Hfx _].
    destruct (shl_align_fst my ey (Z.min ex ey)) as [Hfy _].
    set (ez := Z.min ex ey) in *.
    replace (Z.min ex ez) with ez in Hfx by lia.
    replace (Z.min ey ez) with ez in Hfy by lia.
    pose proof (binary_normalize_ord
                  (cond_Zopp sx (Zpos (fst (shl_align mx ex ez)))
                   - cond_Zopp sy (Zpos (fst (shl_align my ey ez))))
                  ez ltac:(lia)) as [Hord Hnan].
    split; [ | exact Hnan ]. rewrite Hord. clear Hord Hnan.
    unfold sub_ord. unfold ord.
    assert (Hx : Zpos (fst (shl_align mx ex ez)) * 2 ^ (ez + 1074)
                 = Zpos mx * 2 ^ (ex + 1074)).
    { rewrite Hfx, <- Z.mul_assoc, <- Z.pow_add_r by lia. do 2 f_equal. lia. }
    assert (Hy : Zpos (fst (shl_align my ey ez)) * 2 ^ (ez + 1074)
                 = Zpos my * 2 ^ (ey + 1074)).
    { rewrite Hfy, <- Z.mul_assoc, <- Z.pow_add_r by lia. do 2 f_equal. lia. }
    set (X := Zpos mx * 2 ^ (ex + 1074)) in *.
    set (Y := Zpos my * 2 ^ (ey + 1074)) in *.
    replace ((cond_Zopp sx (Zpos (fst (shl_align mx ex ez)))
              - cond_Zopp sy (Zpos (fst (shl_align my ey ez)))) * 2 ^ (ez + 1074))
      with (cond_Zopp sx X - cond_Zopp sy Y)
      by (rewrite <- Hx, <- Hy; destruct sx, sy; unfold cond_Zopp; ring).
    destruct (Z.leb_spec INF (cond_Zopp sx X)) as [H1|H1];
      [ destruct sx; unfold cond_Zopp in H1; lia | ].
    destruct (Z.leb_spec (cond_Zopp sx X) (- INF)) as [H2|H2];
      [ destruct sx; unfold cond_Zopp in H2; lia | ].
    reflexivity.
Qed.

(** ** Division *)

Lemma new_location_spec (nb r : Z) :
  0 < nb -> 0 <= r < nb -> new_location nb r = loc_of r nb.
Proof.
  intros Hnb Hr. unfold new_location, loc_of.
  destruct (Z.even nb) eqn:Ev.
  - reflexivity.
  - unfold new_location_odd. destruct (r =? 0); [ reflexivity | ].
    f_equal.
    assert (Hodd : Z.odd nb = true) by (rewrite <- Z.negb_even, Ev; reflexivity).
    apply Z.odd_spec in Hodd. destruct Hodd as [k Hk].
    destruct (Z.compare_spec (2 * r + 1) nb); destruct (Z.compare_spec (2 * r) nb);
      try reflexivity; lia.
Qed.

Lemma SFdiv_core_spec (mx my : positive) (ex ey : Z) :
  let e' := div_exponent mx my ex ey in
  let N := Zpos mx * 2 ^ (ex - ey - e') in
  SFdiv_core_binary prec emax (Zpos mx) ex (Zpos my) ey
  = (N / Zpos my, e', loc_of (N mod Zpos my) (Zpos my)).
Proof.
  intros e' N. unfold SFdiv_core_binary. fold (div_exponent mx my ex ey). fold e'.
  assert (Hs : 0 <= ex - ey - e') by (unfold e', div_exponent; lia).
  assert (Hm' : match ex - ey - e' with
                | Zpos _ => Z.shiftl (Zpos mx) (ex - ey - e')
                | Z0 => Zpos mx
                | Zneg _ => 0
                end = N).
  { unfold N. destruct (ex - ey - e') as [|s|s] eqn:Es; try lia.
    rewrite Z.shiftl_mul_pow2 by lia. reflexivity. }
  rewrite Hm'.
  pose proof (Z.mod_pos_bound N (Zpos my) ltac:(lia)) as Hr.
  unfold Z.div, Z.modulo in *.
  destruct (Z.div_eucl N (Zpos my)) as [q r].
  rewrite new_location_spec by lia. reflexivity.
Qed.

(** The quotient has enough digits for its exponent. *)
Lemma div_exponent_ok (mx my : positive) (ex ey : Z) :
  let e' := div_exponent mx my ex ey in
  let N := Zpos mx * 2 ^ (ex - ey - e') in
  e' <= fexp prec emax (Zdigits2 (N / Zpos my) + e').
Proof.
  intros e' N.
  assert (Hs : 0 <= ex - ey - e') by (unfold e', div_exponent; lia).
  set (s := ex - ey - e') in *.
  pose proof (pow2_pos s Hs) as Hps.
  set (d1 := Zdigits2 (Zpos mx)). set (d2 := Zdigits2 (Zpos my)).
  assert (He' : e' <= fexp prec emax (d1 + ex - (d2 + ey)))
    by (unfold e', div_exponent; fold d1 d2; lia).
  assert (Hdq : d1 + s - d2 <= Zdigits2 (N / Zpos my)).
  { pose proof (Zdigits2_nonneg (N / Zpos my)).
    destruct (Z_le_gt_dec (d1 + s - d2) 0) as [Hsmall | Hbig]; [ lia | ].
    destruct (Zdigits2_bounds (Zpos mx) ltac:(lia)) as [Hlo1 _]. fold d1 in Hlo1.
    destruct (Zdigits2_bounds (Zpos my) ltac:(lia)) as [_ Hhi2]. fold d2 in Hhi2.
    pose proof (Zdigits2_nonneg (Zpos my)) as Hd2. fold d2 in Hd2.
    assert (Hd1 : 1 <= d1).
    { unfold d1. simpl. lia. }
    assert (Hq : 2 ^ (d1 + s - d2 - 1) <= N / Zpos my).
    { apply Z.div_le_lower_bound; [ lia | ].
      apply Z.le_trans with (2 ^ d2 * 2 ^ (d1 + s - d2 - 1)).
      - apply Z.mul_le_mono_nonneg_r; [ apply Z.pow_nonneg; lia | lia ].
      - rewrite <- Z.pow_add_r by lia.
        replace (d2 + (d1 + s - d2 - 1)) with ((d1 - 1) + s) by lia.
        rewrite Z.pow_add_r by lia. unfold N.
        apply Z.mul_le_mono_nonneg_r; lia. }
    assert (Hqpos : 0 < N / Zpos my).
    { pose proof (pow2_pos (d1 + s - d2 - 1) ltac:(lia)). lia. }
    destruct (Zdigits2_bounds _ Hqpos) as [_ Hhi].
    destruct (Z_lt_le_dec (Zdigits2 (N / Zpos my)) (d1 + s - d2)); [ | lia ].
    assert (2 ^ Zdigits2 (N / Zpos my) <= 2 ^ (d1 + s - d2 - 1))
      by (apply Z.pow_le_mono_r; lia).
    lia. }
  rewrite fexp_eq in *. unfold s in Hdq. lia.
Qed.

Lemma sdiv_bounds (V S : Z) : 0 < S -> - INF <= sdiv V S <= INF.
Proof.
  intros HS. unfold sdiv. destruct (Z.ltb_spec V 0).
  - pose proof (sat_bounds (rnd (- V * 2 ^ 1074) S)
                  (rnd_nonneg (- V * 2 ^ 1074) S ltac:(lia) HS)). lia.
  - pose proof (sat_bounds (rnd (V * 2 ^ 1074) S)
                  (rnd_nonneg (V * 2 ^ 1074) S ltac:(lia) HS)). lia.
Qed.

Lemma sdiv_mono (V1 V2 S : Z) : 0 < S -> V1 <= V2 -> sdiv V1 S <= sdiv V2 S.
Proof.
  intros HS H. unfold sdiv.
  destruct (Z.ltb_spec V1 0); destruct (Z.ltb_spec V2 0); try lia.
  - apply Z.opp_le_mono. rewrite !Z.opp_involutive.
    apply sat_mono, rnd_mono; lia.
  - pose proof (sat_bounds (rnd (- V1 * 2 ^ 1074) S)
                  (rnd_nonneg (- V1 * 2 ^ 1074) S ltac:(lia) HS)).
    pose proof (sat_bounds (rnd (V2 * 2 ^ 1074) S)
                  (rnd_nonneg (V2 * 2 ^ 1074) S ltac:(lia) HS)).
    lia.
  - apply sat_mono, rnd_mono; lia.
Qed.

Lemma div_ord_mono (V1 V2 S : Z) :
  0 < S -> V1 <= V2 -> div_ord V1 S <= div_ord V2 S.
Proof.
  intros HS H. unfold div_ord. pose proof INF_pos as [_ HI].
  pose proof (sdiv_bounds V1 S HS). pose proof (sdiv_bounds V2 S HS).
  destruct (Z.leb_spec INF V1); destruct (Z.leb_spec INF V2); try lia.
  - destruct (Z.leb_spec V1 (- INF)); lia.
  - destruct (Z.leb_spec V1 (- INF)); destruct (Z.leb_spec V2 (- INF)); try lia.
    apply sdiv_mono; assumption.
Qed.

Lemma rnd_frac_eq (N1 D1 N2 D2 : Z) :
  0 <= N1 -> 0 <= N2 -> 0 < D1 -> 0 < D2 ->
  N1 * D2 = N2 * D1 -> rnd N1 D1 = rnd N2 D2.
Proof.
  intros. apply Z.le_antisymm; apply rnd_mono_frac; lia.
Qed.

Lemma div_units (mx my : positive) (ex ey : Z) :
  -1074 <= ex -> -1074 <= ey ->
  let e' := div_exponent mx my ex ey in
  let N := Zpos mx * 2 ^ (ex - ey - e') in
  rnd (units_num N e') (units_den (Zpos my) e')
  = rnd (Zpos mx * 2 ^ (ex + 1074) * 2 ^ 1074) (Zpos my * 2 ^ (ey + 1074)).
Proof.
  intros Hex Hey e' N.
  assert (Hs : 0 <= ex - ey - e') by (unfold e', div_exponent; lia).
  pose proof (pow2_pos (ex - ey - e') Hs) as Hps.
  pose proof (pow2_pos (ex + 1074) ltac:(lia)) as Hpx.
  pose proof (pow2_pos (ey + 1074) ltac:(lia)) as Hpy.
  pose proof (pow2_pos 1074 ltac:(lia)) as Hpc.
  assert (HN : 0 < N) by (unfold N; nia).
  apply rnd_frac_eq.
  - apply units_num_nonneg. lia.
  - nia.
  - apply units_den_pos. lia.
  - nia.
  - unfold units_num, units_den, N.
    destruct (Z.leb_spec (-1074) e') as [He | He].
    + transitivity (Zpos mx * Zpos my
                    * (2 ^ (ex - ey - e') * 2 ^ (e' + 1074) * 2 ^ (ey + 1074)));
        [ ring | ].
      transitivity (Zpos mx * Zpos my * (2 ^ (ex + 1074) * 2 ^ 1074)); [ | ring ].
      f_equal. rewrite <- !Z.pow_add_r by lia. f_equal. lia.
    + transitivity (Zpos mx * Zpos my * (2 ^ (ex - ey - e') * 2 ^ (ey + 1074)));
        [ ring | ].
      transitivity (Zpos mx * Zpos my
                    * (2 ^ (ex + 1074) * 2 ^ 1074 * 2 ^ (-1074 - e'))); [ | ring ].
      f_equal. rewrite <- !Z.pow_add_r by lia. f_equal. lia.
Qed.

Lemma SFdiv_ord (x : spec_float) (my : positive) (ey : Z) :
  valid_binary x = true -> x <> S754_nan ->
  bounded prec emax my ey = true ->
  let y := S754_finite false my ey in
  ord (SF64div x y) = div_ord (ord x) (ord y) /\ SF64div x y <> S754_nan.
Proof.
  intros Vx Nx Vy y. pose proof INF_pos as [HI1 HI2].
  pose proof (finite_ord_bounds my ey Vy) as [Hposy Hlty].
  destruct (bounded_facts my ey Vy) as [Hey _].
  unfold SF64div, y.
  destruct x as [sx | sx | | sx mx ex]; try congruence.
  - (* zero / finite *)
    split; [ | discriminate ]. simpl SFdiv. unfold ord at 1 2.
    unfold div_ord.
    destruct (Z.leb_spec INF 0); [ lia | ].
    destruct (Z.leb_spec 0 (- INF)); [ lia | ].
    unfold sdiv. change (0 <? 0) with false. rewrite Z.mul_0_l.
    rewrite rnd_zero by (unfold ord, cond_Zopp; lia). reflexivity.
  - (* infinity / finite *)
    split; [ | discriminate ]. simpl SFdiv. rewrite xorb_false_r.
    unfold ord at 1 2. unfold div_ord. destruct sx; unfold cond_Zopp at 1 2 3.
    + destruct (Z.leb_spec INF (- INF)); [ lia | ].
      destruct (Z.leb_spec (- INF) (- INF)); [ reflexivity | lia ].
    + destruct (Z.leb_spec INF INF); [ reflexivity | lia ].
  - (* finite / finite *)
    pose proof (finite_ord_bounds mx ex Vx) as [Hposx Hltx].
    destruct (bounded_facts mx ex Vx) as [Hex _].
    unfold SFdiv. rewrite SFdiv_core_spec. cbv zeta. cbv iota beta.
    set (e' := div_exponent mx my ex ey).
    set (N := Zpos mx * 2 ^ (ex - ey - e')).
    assert (Hs : 0 <= ex - ey - e') by (unfold e', div_exponent; lia).
    pose proof (pow2_pos (ex - ey - e') Hs) as Hps.
    assert (HN : 0 <= N) by (unfold N; nia).
    pose proof (binary_round_aux_ord (xorb sx false) N (Zpos my) e' HN ltac:(lia)
                  (div_exponent_ok mx my ex ey)) as [Hord Hnan].
    split; [ | exact Hnan ]. rewrite Hord. clear Hord Hnan.
    rewrite xorb_false_r.
    pose proof (div_units mx my ex ey ltac:(lia) ltac:(lia)) as Hu.
    cbv zeta in Hu. fold e' in Hu. fold N in Hu. rewrite Hu.
    unfold div_ord. unfold ord. unfold cond_Zopp at 2 3 4.
    set (X := Zpos mx * 2 ^ (ex + 1074)) in *.
    set (Y := Zpos my * 2 ^ (ey + 1074)) in *.
    unfold sdiv. destruct sx; unfold cond_Zopp.
    + destruct (Z.leb_spec INF (- X)); [ lia | ].
      destruct (Z.leb_spec (- X) (- INF)); [ lia | ].
      destruct (Z.ltb_spec (- X) 0); [ | lia ].
      rewrite Z.opp_involutive. reflexivity.
    + destruct (Z.leb_spec INF X); [ lia | ].
      destruct (Z.leb_spec X (- INF)); [ lia | ].
      destruct (Z.ltb_spec X 0); [ lia | ]. reflexivity.
Qed.

(** ** Primitive floats *)

Section PrimitiveFloats.

Local Open Scope float_scope.

Lemma is_nan_spec (x : float) :
  is_nan x = match Prim2SF x with S754_nan => true | _ => false end.
Proof.
  unfold is_nan. rewrite eqb_spec. unfold SFeqb.
  pose proof (Prim2SF_valid x) as V.
  destruct (Prim2SF x) as [s | s | | s m e] eqn:E; try reflexivity;
    rewrite SFcompare_ord by (assumption || discriminate);
    rewrite Z.compare_refl; reflexivity.
Qed.

Lemma not_nan (x : float) : is_nan x = false -> Prim2SF x <> S754_nan.
Proof.
  rewrite is_nan_spec. intros H E. rewrite E in H. discriminate.
Qed.

Lemma not_nan_inv (x : float) : Prim2SF x <> S754_nan -> is_nan x = false.
Proof.
  rewrite is_nan_spec. destruct (Prim2SF x); congruence.
Qed.

Lemma leb_fval (a b : float) :
  is_nan a = false -> is_nan b = false ->
  (a <=? b) = (fval a <=? fval b)%Z.
Proof.
  intros Ha Hb. rewrite leb_spec. unfold SFleb, fval.
  rewrite SFcompare_ord
    by (apply Prim2SF_valid || apply not_nan; assumption).
  unfold Z.leb. destruct (ord (Prim2SF a) ?= ord (Prim2SF b))%Z; reflexivity.
Qed.

Lemma ltb_fval (a b : float) :
  is_nan a = false -> is_nan b = false ->
  (a <? b) = (fval a <? fval b)%Z.
Proof.
  intros Ha Hb. rewrite ltb_spec. unfold SFltb, fval.
  rewrite SFcompare_ord
    by (apply Prim2SF_valid || apply not_nan; assumption).
  unfold Z.ltb. destruct (ord (Prim2SF a) ?= ord (Prim2SF b))%Z; reflexivity.
Qed.

Lemma leb_true_not_nan (a b : float) :
  (a <=? b) = true -> is_nan a = false /\ is_nan b = false.
Proof.
  rewrite leb_spec, !is_nan_spec. unfold SFleb.
  destruct (Prim2SF a), (Prim2SF b); simpl; intros H;
    split; (reflexivity || discriminate).
Qed.

(** A float strictly between the infinities is a zero or a finite number. *)
Lemma between_infinities (l : float) :
  (neg_infinity <? l) = true -> (l <? infinity) = true ->
  is_fin (Prim2SF l) = true.
Proof.
  rewrite !ltb_spec. unfold SFltb.
  change (Prim2SF neg_infinity) with (S754_infinity true).
  change (Prim2SF infinity) with (S754_infinity false).
  destruct (Prim2SF l) as [s | s | | s m e]; simpl; intros H1 H2;
    try reflexivity; try discriminate; destruct s; discriminate.
Qed.


(** A positive, finite float. *)
Lemma positive_finite (s : float) :
  (0 <? s) = true -> (s <? infinity) = true ->
  exists m e, Prim2SF s = S754_finite false m e.
Proof.
  rewrite !ltb_spec. unfold SFltb.
  change (Prim2SF 0) with (S754_zero false).
  change (Prim2SF infinity) with (S754_infinity false).
  destruct (Prim2SF s) as [b | b | | b m e]; simpl; try discriminate.
  - destruct b; discriminate.
  - destruct b; try discriminate. intros _ _. exists m, e. reflexivity.
Qed.

(** Dividing by a positive finite number is monotone. *)
Lemma div_mono (a b s : float) :
  (a <=? b) = true ->
  (0 <? s) = true -> (s <? infinity) = true ->
  (a / s <=? b / s) = true.
Proof.
  intros Hle Hs1 Hs2.
  destruct (leb_true_not_nan _ _ Hle) as [N1 N2].
  destruct (positive_finite s Hs1 Hs2) as [m [e Es]].
  pose proof (Prim2SF_valid s) as Vs. rewrite Es in Vs. simpl in Vs.
  pose proof (SFdiv_ord (Prim2SF a) m e (Prim2SF_valid a) (not_nan a N1) Vs)
    as [O1 NN1].
  pose proof (SFdiv_ord (Prim2SF b) m e (Prim2SF_valid b) (not_nan b N2) Vs)
    as [O2 NN2].
  cbv zeta in O1, O2, NN1, NN2.
  rewrite <- Es, <- div_spec in O1, NN1, O2, NN2.
  rewrite leb_fval by (apply not_nan_inv; assumption).
  rewrite leb_fval in Hle by assumption.
  apply Z.leb_le. apply Z.leb_le in Hle.
  unfold fval in *. rewrite O1, O2. apply div_ord_mono; [ | exact Hle ].
  rewrite Es. unfold ord, cond_Zopp.
  apply (finite_ord_bounds m e Vs).
Qed.

End PrimitiveFloats.

(** * The percentile is monotone in the measured weight *)

Section NormCdfMonotone.

Local Open Scope float_scope.

Variable ndtr : float -> float.

Hypothesis ndtr_mono :
  forall a b, (a <=? b) = true -> (ndtr a <=? ndtr b) = true.

Hypothesis ndtr_range :
  forall a, is_nan a = false -> (0 <=? ndtr a) = true /\ (ndtr a <=? 1) = true.

(** With a positive scale and a standardised argument that is a
    number, the distribution function is [ndtr] inside the support,
    [0] at minus infinity and [1] at plus infinity. *)
Lemma norm_cdf_cases (x loc scale : float) :
  (0 <? scale) = true ->
  is_nan ((x - loc) / scale) = false ->
  Scipy.norm_cdf ndtr x loc scale
  = let z := (x - loc) / scale in
    if (neg_infinity <? z) && (z <? infinity) then ndtr z
    else if infinity <=? z then 1 else 0.
Proof.
  intros Hs Hz. unfold Scipy.norm_cdf. rewrite Hs, Hz. cbv zeta.
  rewrite !andb_true_r, andb_true_l. reflexivity.
Qed.

Lemma fval_infinity : fval infinity = INF.
Proof. reflexivity. Qed.

Lemma fval_neg_infinity : fval neg_infinity = (- INF)%Z.
Proof. reflexivity. Qed.


End NormCdfMonotone.

Lemma iloc_last_app {A : Type} (prefix : list A) (a : A) :
  Py.iloc (prefix ++ [a]) (-1) = Ok a.
Proof.
  destruct prefix as [|b p].
  - reflexivity.
  - change ((b :: p) ++ [a]) with (b :: (p ++ [a])).
    rewrite (iloc_last (p ++ [a]) b a).
    change (b :: (p ++ [a])) with ((b :: p) ++ [a]).
    rewrite last_last. reflexivity.
Qed.

Lemma ndtr_step_range (a : float) :
  (0 <=? ndtr_step a)%float = true /\ (ndtr_step a <=? 1)%float = true.
Proof.
  unfold ndtr_step.
  destruct (a <? 0)%float; [ split; reflexivity | ].
  destruct (0 <? a)%float; split; reflexivity.
Qed.

Lemma ndtr_step_mono (a b : float) :
  (a <=? b)%float = true -> (ndtr_step a <=? ndtr_step b)%float = true.
Proof.
  intros H. destruct (leb_true_not_nan _ _ H) as [Na Nb].
  assert (N0 : is_nan 0 = false) by reflexivity.
  rewrite leb_fval in H by assumption. apply Z.leb_le in H.
  unfold ndtr_step.
  rewrite !(ltb_fval _ 0), !(ltb_fval 0) by assumption.
  change (fval 0) with 0.
  destruct (Z.ltb_spec (fval a) 0); destruct (Z.ltb_spec 0 (fval a));
    destruct (Z.ltb_spec (fval b) 0); destruct (Z.ltb_spec 0 (fval b));
    try lia; reflexivity.
Qed.

(** * Lemmas for the further properties *)

(** ** Errors of the derivation *)

Lemma get_slice_bound_errors (idx : list Z) (label : Z) (s : Pandas.side) :
  (exists p, Pandas.get_slice_bound idx label s = Ok p)
  \/ Pandas.get_slice_bound idx label s = Raise KeyError.
Proof.
  unfold Pandas.get_slice_bound.
  destruct (Pandas.positions idx label) as [|p ps].
  - destruct (Pandas.is_monotonic_increasing idx); [ left; eexists; reflexivity | ].
    destruct (Pandas.is_monotonic_decreasing idx);
      [ left; eexists; reflexivity | right; reflexivity ].
  - destruct (Pandas.contiguous p ps);
      [ left; eexists; reflexivity | right; reflexivity ].
Qed.

Lemma loc_slice_errors {A : Type} (key : A -> Z) (rows : list A) (b e : Z) :
  (exists sub, Pandas.loc_slice key rows b e = Ok sub)
  \/ Pandas.loc_slice key rows b e = Raise KeyError.
Proof.
  unfold Pandas.loc_slice.
  destruct (get_slice_bound_errors (map key rows) b Pandas.Left) as [[lo ->] | ->];
    [ | right; reflexivity ].
  destruct (get_slice_bound_errors (map key rows) e Pandas.Right) as [[hi ->] | ->];
    [ left; eexists; reflexivity | right; reflexivity ].
Qed.

Lemma iloc_before {A : Type} (l : list A) (i : nat) :
  (i < length l)%nat -> exists a, Py.iloc l (Z.of_nat i - 1) = Ok a.
Proof.
  intros Hi. destruct i as [|j].
  - destruct l as [|a l]; [ simpl in Hi; lia | ].
    exists (last (a :: l) a). apply iloc_last.
  - destruct (nth_error l j) as [a|] eqn:Ej;
      [ | apply nth_error_None in Ej; lia ].
    exists a. replace (Z.of_nat (S j) - 1) with (Z.of_nat j) by lia.
    apply iloc_nth_error. exact Ej.
Qed.

Lemma weekly_at_errors (frame : list Row) (i : nat) :
  (i < length frame)%nat ->
  (exists w, Child.weekly_at frame i = Ok w)
  \/ Child.weekly_at frame i = Raise KeyError.
Proof.
  intros Hi. unfold Child.weekly_at.
  destruct (nth_error frame i) as [row|] eqn:Ei;
    [ | apply nth_error_None in Ei; lia ].
  rewrite (iloc_nth_error _ _ _ Ei).
  destruct (iloc_before frame i Hi) as [prev Hprev]. rewrite Hprev.
  unfold bind.
  destruct (loc_slice_errors life_days frame (life_days row - 6) (life_days row))
    as [[sub Hs] | Hs]; rewrite Hs; [ | right; reflexivity ].
  destruct (Nat.eqb (length sub) 1); [ | left; eexists; reflexivity ].
  destruct (_ >? 6); left; eexists; reflexivity.
Qed.

Lemma weekly_loop_errors (frame : list Row) (range : list nat) (acc : list float) :
  Forall (fun i => (i < length frame)%nat) range ->
  (exists weekly, Child.weekly_loop frame range acc = Ok weekly)
  \/ Child.weekly_loop frame range acc = Raise KeyError.
Proof.
  revert acc. induction range as [|i rest IH]; intros acc H.
  - left. eexists. reflexivity.
  - inversion H as [|? ? Hi Hrest]; subst. simpl.
    destruct (weekly_at_errors frame i Hi) as [[w Hw] | Hw]; rewrite Hw;
      [ | right; reflexivity ].
    unfold bind at 1. apply IH. exact Hrest.
Qed.

Lemma import_unfold (m : Measurement) (ms : list Measurement) :
  Child.import_weight_data (m :: ms)
  = weekly <- Child.weekly_loop (frame_of (m :: ms))
                (seq 0 (length (frame_of (m :: ms)))) [] ;;
    Ok (map (fun rw => mkWeightRow (fst rw) (snd rw))
            (combine (frame_of (m :: ms)) weekly)).
Proof.
  unfold Child.import_weight_data.
  change (Child.col_life_days (map m_date (m :: ms)))
    with (Ok (map (fun d => d - m_date m) (map m_date (m :: ms)))).
  unfold bind at 1. rewrite (frame_of_file m ms). reflexivity.
Qed.

(** ** The derived columns, row by row *)

Lemma rows_from_nth (d0 : Z) (prev : Measurement) (ms : list Measurement)
      (j : nat) (m : Measurement) :
  nth_error ms j = Some m ->
  exists r,
    nth_error (rows_from d0 prev ms) j = Some r /\
    date r = m_date m /\ measured_weight r = m_weight m /\
    life_days r = m_date m - d0 /\ measurement_days r = m_date m - d0.
Proof.
  revert prev j. induction ms as [|m' t IH]; intros prev j H.
  - destruct j; discriminate.
  - destruct j as [|j].
    + injection H as <-. eexists. split; [ reflexivity | ].
      repeat split; reflexivity.
    + simpl in H. destruct (IH m' j H) as [r Hr]. exists r. exact Hr.
Qed.

Lemma frame_of_nth (file : list Measurement) (i : nat) (m0 m : Measurement) :
  nth_error file 0 = Some m0 ->
  nth_error file i = Some m ->
  exists r,
    nth_error (frame_of file) i = Some r /\
    date r = m_date m /\ measured_weight r = m_weight m /\
    life_days r = m_date m - m_date m0 /\
    measurement_days r = m_date m - m_date m0.
Proof.
  destruct file as [|m1 ms]; [ discriminate | ].
  intros H0 Hi. injection H0 as ->.
  destruct i as [|j].
  - injection Hi as <-. eexists. split; [ reflexivity | ].
    repeat split; reflexivity.
  - simpl in Hi. apply (rows_from_nth (m_date m0) m0 ms j m Hi).
Qed.

Lemma rows_from_gain (d0 : Z) (prev : Measurement) (ms : list Measurement)
      (i : nat) (r : Row) :
  nth_error (rows_from d0 prev ms) i = Some r ->
  weight_gain r
  = (measured_weight r
     - match i with
       | O => m_weight prev
       | S j => match nth_error (rows_from d0 prev ms) j with
                | Some p => measured_weight p
                | None => 0
                end
       end)%float.
Proof.
  revert prev i. induction ms as [|m t IH]; intros prev i Hr.
  - destruct i; discriminate.
  - destruct i as [|i].
    + simpl in Hr. injection Hr as <-. reflexivity.
    + simpl in Hr. rewrite (IH m i Hr).
      destruct i as [|j]; reflexivity.
Qed.

Lemma frame_of_gain (file : list Measurement) (i : nat) (p r : Row) :
  nth_error (frame_of file) i = Some p ->
  nth_error (frame_of file) (S i) = Some r ->
  weight_gain r = (measured_weight r - measured_weight p)%float.
Proof.
  destruct file as [|m ms]; [ destruct i; discriminate | ].
  intros Hp Hr. simpl in Hr.
  rewrite (rows_from_gain _ _ _ _ _ Hr).
  destruct i as [|j].
  - simpl in Hp. injection Hp as <-. reflexivity.
  - simpl in Hp. rewrite Hp. reflexivity.
Qed.

Lemma table_row_of_frame (file : list Measurement) (table : list WeightRow)
      (i : nat) (r : Row) :
  Child.import_weight_data file = Ok table ->
  nth_error (frame_of file) i = Some r ->
  exists row, nth_error table i = Some row /\ base row = r.
Proof.
  intros Himp Hr. pose proof (import_weight_data_base _ _ Himp) as Hb.
  rewrite <- Hb, nth_error_map in Hr.
  destruct (nth_error table i) as [row|]; [ | discriminate ].
  exists row. split; [ reflexivity | ]. simpl in Hr. congruence.
Qed.

(** ** Weekly gains on chronological files *)

Lemma sorted_nth_le (l : list Z) (j k : nat) (x y : Z) :
  Pandas.is_monotonic_increasing l = true ->
  nth_error l j = Some x -> nth_error l k = Some y -> (j <= k)%nat -> x <= y.
Proof.
  revert j k. induction l as [|a t IH]; intros j k Hs Hj Hk Hjk.
  - destruct j; discriminate.
  - destruct (mono_inc_cons _ _ Hs) as [Hall Ht].
    destruct j as [|j]; destruct k as [|k]; try lia.
    + injection Hj as <-. injection Hk as <-. lia.
    + injection Hj as <-. simpl in Hk.
      rewrite Forall_forall in Hall. apply Hall.
      eapply nth_error_In. exact Hk.
    + simpl in Hj, Hk. apply (IH j k); try assumption. lia.
Qed.

Lemma filter_In_nonempty {A : Type} (f : A -> bool) (l : list A) (a : A) :
  In a l -> f a = true -> (1 <= length (filter f l))%nat.
Proof.
  intros Hin Hf.
  assert (H : In a (filter f l)) by (apply filter_In; split; assumption).
  destruct (filter f l); [ destruct H | simpl; lia ].
Qed.

(** The weekly gain of a sample whose window reaches back to sample 0. *)
Lemma weekly_of_first_week (m : Measurement) (ms : list Measurement)
      (i : nat) (r : Row) :
  nth_error (frame_of (m :: ms)) i = Some r ->
  0 <= measurement_days r <= 6 ->
  weekly_of (frame_of (m :: ms)) i = nan.
Proof.
  intros Hr Ha. unfold weekly_of. rewrite Hr.
  unfold Spec.weekly_gain.
  assert (Hw : Spec.trailing_window (frame_of (m :: ms)) (measurement_days r)
               = first_row m
                 :: filter (fun r' => (measurement_days r - 6 <=? measurement_days r')
                                      && (measurement_days r' <=? measurement_days r))
                           (rows_from (m_date m) m ms)).
  { unfold Spec.trailing_window. simpl frame_of. simpl filter.
    replace (measurement_days r - 6 <=? m_date m - m_date m) with true
      by (symmetry; apply Z.leb_le; lia).
    replace (m_date m - m_date m <=? measurement_days r) with true
      by (symmetry; apply Z.leb_le; lia).
    reflexivity. }
  assert (Hsp : Spec.sparse (frame_of (m :: ms)) i r = false).
  { unfold Spec.sparse. destruct i as [|j]; [ reflexivity | ].
    destruct (nth_error (frame_of (m :: ms)) j) as [prev|]; [ | reflexivity ].
    rewrite Hw. simpl length. simpl in Hr.
    pose proof (filter_In_nonempty
                  (fun r' => (measurement_days r - 6 <=? measurement_days r')
                             && (measurement_days r' <=? measurement_days r))
                  (rows_from (m_date m) m ms) r
                  (nth_error_In _ _ Hr)) as Hne.
    specialize (Hne ltac:(apply andb_true_iff; split; apply Z.leb_le; lia)).
    destruct (length (filter _ (rows_from (m_date m) m ms))) as [|n];
      [ lia | reflexivity ]. }
  rewrite Hsp, Hw. simpl map. apply sum_nan_head.
Qed.

Lemma frame_of_sorted_days (file : list Measurement) :
  chronological file ->
  Pandas.is_monotonic_increasing (map measurement_days (frame_of file)) = true.
Proof.
  intros Hs. rewrite <- (frame_of_sorted file Hs). f_equal.
  apply map_ext_in. intros r Hr.
  pose proof (frame_of_days file) as Hd. rewrite Forall_forall in Hd.
  apply Hd. exact Hr.
Qed.

(** In a table sorted by age, a sample more than 6 days after the one
    before and strictly before the next one is alone in its window. *)
Lemma window_of_sparse_sample (frame : list Row) (i : nat) (prev r : Row) :
  Pandas.is_monotonic_increasing (map measurement_days frame) = true ->
  nth_error frame i = Some prev ->
  nth_error frame (S i) = Some r ->
  measurement_days r - measurement_days prev > 6 ->
  (forall next, nth_error frame (S (S i)) = Some next ->
                measurement_days r < measurement_days next) ->
  Spec.trailing_window frame (measurement_days r) = [r].
Proof.
  intros Hs Hp Hr Hgap Hnext.
  destruct (nth_error_split frame (S i) Hr) as [l1 [l2 [E Hlen]]].
  unfold Spec.trailing_window. rewrite E, filter_app. simpl filter.
  rewrite Z.leb_refl.
  replace (measurement_days r - 6 <=? measurement_days r) with true
    by (symmetry; apply Z.leb_le; lia).
  simpl andb. cbv iota.
  assert (Hnth : forall k x, nth_error frame k = Some x ->
                             nth_error (map measurement_days frame) k
                             = Some (measurement_days x)).
  { intros k x Hk. rewrite nth_error_map, Hk. reflexivity. }
  rewrite (filter_none _ l1), (filter_none _ l2); [ reflexivity | | ].
  - apply Forall_forall. intros x Hx.
    destruct (In_nth_error _ _ Hx) as [k Hk].
    assert (Hk' : nth_error frame (S (S i) + k) = Some x).
    { rewrite E. rewrite nth_error_app2 by lia.
      replace (S (S i) + k - length l1)%nat with (S k) by lia. exact Hk. }
    destruct (nth_error frame (S (S i))) as [next|] eqn:En.
    + specialize (Hnext next eq_refl).
      pose proof (sorted_nth_le _ (S (S i)) (S (S i) + k) _ _ Hs
                    (Hnth _ _ En) (Hnth _ _ Hk') ltac:(lia)) as Hle.
      apply andb_false_iff. right. apply Z.leb_gt. lia.
    + apply nth_error_None in En.
      assert (S (S i) + k < length frame)%nat
        by (apply nth_error_Some; congruence).
      lia.
  - apply Forall_forall. intros x Hx.
    destruct (In_nth_error _ _ Hx) as [k Hk].
    assert (Hkl : (k < length l1)%nat) by (apply nth_error_Some; congruence).
    assert (Hk' : nth_error frame k = Some x).
    { rewrite E. rewrite nth_error_app1 by lia. exact Hk. }
    pose proof (sorted_nth_le _ k i _ _ Hs (Hnth _ _ Hk') (Hnth _ _ Hp)
                  ltac:(lia)) as Hle.
    apply andb_false_iff. left. apply Z.leb_gt. lia.
Qed.

(** ** A later sample keeps the rows derived before *)

Lemma mono_inc_snoc (l : list Z) (y : Z) :
  Pandas.is_monotonic_increasing l = true ->
  (forall x, In x l -> x <= y) ->
  Pandas.is_monotonic_increasing (l ++ [y]) = true.
Proof.
  induction l as [|a t IH]; intros Hs Hle; [ reflexivity | ].
  destruct (mono_inc_cons _ _ Hs) as [_ Ht].
  specialize (IH Ht (fun x Hx => Hle x (or_intror Hx))).
  destruct t as [|b t'].
  - simpl. rewrite andb_true_r. apply Z.leb_le. apply Hle. left. reflexivity.
  - change (((a <=? b) && Pandas.is_monotonic_increasing ((b :: t') ++ [y])) = true).
    change (((a <=? b) && Pandas.is_monotonic_increasing (b :: t')) = true) in Hs.
    apply andb_true_iff in Hs. destruct Hs as [Hab _].
    rewrite Hab, IH. reflexivity.
Qed.

Lemma last_cons_default (A : Type) (t : list A) (a d : A) :
  last (a :: t) d = last t a.
Proof.
  revert a d. induction t as [|b t' IH]; intros a d; [ reflexivity | ].
  change (last (a :: b :: t') d) with (last (b :: t') d).
  rewrite (IH b d), (IH b a). reflexivity.
Qed.

Lemma rows_from_snoc (d0 : Z) (prev : Measurement) (ms : list Measurement)
      (m : Measurement) :
  rows_from d0 prev (ms ++ [m])
  = rows_from d0 prev ms ++ rows_from d0 (last ms prev) [m].
Proof.
  revert prev. induction ms as [|a t IH]; intros prev; [ reflexivity | ].
  rewrite last_cons_default.
  change ((a :: t) ++ [m]) with (a :: (t ++ [m])).
  cbn [rows_from]. rewrite (IH a). reflexivity.
Qed.

Lemma frame_of_snoc (m0 : Measurement) (ms : list Measurement) (m : Measurement) :
  exists r,
    frame_of ((m0 :: ms) ++ [m]) = frame_of (m0 :: ms) ++ [r] /\
    measurement_days r = m_date m - m_date m0.
Proof.
  simpl app. simpl frame_of. rewrite rows_from_snoc.
  eexists. split; [ reflexivity | reflexivity ].
Qed.

Lemma frame_of_days_in (m0 : Measurement) (ms : list Measurement) (r : Row) :
  In r (frame_of (m0 :: ms)) ->
  exists m', In m' (m0 :: ms) /\ measurement_days r = m_date m' - m_date m0.
Proof.
  intros Hr.
  pose proof (frame_of_days (m0 :: ms)) as Hd. rewrite Forall_forall in Hd.
  rewrite (Hd r Hr).
  assert (Hin : In (life_days r) (map life_days (frame_of (m0 :: ms))))
    by (apply in_map; exact Hr).
  rewrite frame_of_life, map_map in Hin.
  apply in_map_iff in Hin. destruct Hin as [m' [E Hm']].
  exists m'. split; [ exact Hm' | congruence ].
Qed.

(** Appending a row of greater age changes no weekly gain before it. *)
Lemma weekly_of_snoc (frame : list Row) (r : Row) (i : nat) (ri : Row) :
  nth_error frame i = Some ri ->
  measurement_days ri < measurement_days r ->
  weekly_of (frame ++ [r]) i = weekly_of frame i.
Proof.
  intros Hi Hlt.
  assert (Hlen : (i < length frame)%nat) by (apply nth_error_Some; congruence).
  unfold weekly_of. rewrite nth_error_app1 by exact Hlen. rewrite Hi.
  unfold Spec.weekly_gain.
  assert (Hw : Spec.trailing_window (frame ++ [r]) (measurement_days ri)
               = Spec.trailing_window frame (measurement_days ri)).
  { unfold Spec.trailing_window. rewrite filter_app. simpl filter.
    replace (measurement_days r <=? measurement_days ri) with false
      by (symmetry; apply Z.leb_gt; lia).
    rewrite andb_false_r. apply app_nil_r. }
  assert (Hsp : Spec.sparse (frame ++ [r]) i ri = Spec.sparse frame i ri).
  { unfold Spec.sparse. destruct i as [|j]; [ reflexivity | ].
    rewrite nth_error_app1 by lia. rewrite Hw. reflexivity. }
  rewrite Hsp, Hw. reflexivity.
Qed.

Lemma table_of_snoc (m0 : Measurement) (ms : list Measurement) (m : Measurement) :
  (forall m', In m' (m0 :: ms) -> m_date m' < m_date m) ->
  exists row, table_of ((m0 :: ms) ++ [m]) = table_of (m0 :: ms) ++ [row].
Proof.
  intros Hlater.
  destruct (frame_of_snoc m0 ms m) as [r [Ef Hr]].
  set (frame := frame_of (m0 :: ms)) in *.
  exists (mkWeightRow r (weekly_of (frame ++ [r]) (length frame))).
  apply nth_error_ext. intros i.
  assert (Hlt : length (table_of (m0 :: ms)) = length frame).
  { rewrite <- (length_map base), table_of_base. reflexivity. }
  rewrite table_of_nth, Ef.
  destruct (Nat.lt_ge_cases i (length frame)) as [Hi | Hi].
  - rewrite !nth_error_app1 by lia.
    rewrite table_of_nth. fold frame.
    destruct (nth_error frame i) as [ri|] eqn:Ei;
      [ | apply nth_error_None in Ei; lia ].
    simpl option_map. f_equal. f_equal.
    apply (weekly_of_snoc frame r i ri Ei).
    destruct (frame_of_days_in m0 ms ri (nth_error_In _ _ Ei)) as [m' [Hm' E]].
    specialize (Hlater m' Hm'). lia.
  - rewrite !nth_error_app2 by lia. rewrite Hlt.
    destruct (i - length frame)%nat as [|k] eqn:Ek.
    + replace i with (length frame) by lia. reflexivity.
    + simpl. destruct k; reflexivity.
Qed.

(** ** The percentile: outcomes, dependence on the table, range *)

Lemma iloc_errors {A : Type} (l : list A) (k : Z) :
  (exists a, Py.iloc l k = Ok a) \/ Py.iloc l k = Raise IndexError.
Proof.
  unfold Py.iloc.
  destruct ((0 <=? (if k <? 0 then k + Z.of_nat (length l) else k))
            && ((if k <? 0 then k + Z.of_nat (length l) else k)
                <? Z.of_nat (length l))); [ | right; reflexivity ].
  destruct (nth_error l _) as [a|]; [ left; exists a | right ]; reflexivity.
Qed.

Lemma iloc_defined_iff {A : Type} (l : list A) (k : Z) :
  (exists a, Py.iloc l k = Ok a)
  <-> - Z.of_nat (length l) <= k < Z.of_nat (length l).
Proof.
  unfold Py.iloc. set (n := Z.of_nat (length l)).
  split.
  - intros [a H].
    set (k' := if k <? 0 then k + n else k) in *.
    assert (Hk' : k' = k + n /\ k < 0 \/ k' = k /\ 0 <= k)
      by (unfold k'; destruct (Z.ltb_spec k 0); lia).
    destruct (Z.leb_spec 0 k'); [ | discriminate H ].
    destruct (Z.ltb_spec k' n); [ | discriminate H ].
    lia.
  - intros Hk.
    set (k' := if k <? 0 then k + n else k).
    assert (Hk' : 0 <= k' < n) by (unfold k'; destruct (Z.ltb_spec k 0); lia).
    replace (0 <=? k') with true by (symmetry; apply Z.leb_le; lia).
    replace (k' <? n) with true by (symmetry; apply Z.ltb_lt; lia).
    simpl.
    destruct (nth_error l (Z.to_nat k')) as [a|] eqn:E;
      [ exists a; reflexivity | ].
    apply nth_error_None in E. unfold n in Hk'. lia.
Qed.

Lemma iloc_last_inv {A : Type} (l : list A) (a : A) :
  Py.iloc l (-1) = Ok a -> exists prefix, l = prefix ++ [a].
Proof.
  intros H. destruct l as [|b t]; [ discriminate H | ].
  pose proof (iloc_last t b b) as Hl. rewrite H in Hl.
  destruct (exists_last (l := b :: t)) as [p [x E]]; [ discriminate | ].
  rewrite E in Hl |- *. rewrite last_last in Hl. exists p. congruence.
Qed.

Lemma norm_cdf_nan_argument (ndtr : float -> float) (x loc scale : float) :
  is_nan ((x - loc) / scale) = true -> Scipy.norm_cdf ndtr x loc scale = nan.
Proof.
  intros H. unfold Scipy.norm_cdf.
  assert (E : ((x - loc) / scale)%float = nan).
  { rewrite <- (SF2Prim_Prim2SF ((x - loc) / scale)).
    rewrite is_nan_spec in H.
    destruct (Prim2SF ((x - loc) / scale)); try discriminate. reflexivity. }
  rewrite E. cbv zeta.
  change (neg_infinity <? nan)%float with false.
  change (infinity <=? nan)%float with false.
  change (is_nan nan) with true.
  rewrite orb_true_r. simpl. rewrite andb_false_r. reflexivity.
Qed.

Lemma norm_cdf_range (ndtr : float -> float) (x loc scale : float) :
  (forall a, is_nan a = false ->
             (0 <=? ndtr a)%float = true /\ (ndtr a <=? 1)%float = true) ->
  Scipy.norm_cdf ndtr x loc scale = nan \/
  ((0 <=? Scipy.norm_cdf ndtr x loc scale)%float = true /\
   (Scipy.norm_cdf ndtr x loc scale <=? 1)%float = true).
Proof.
  intros Hrange.
  destruct (0 <? scale)%float eqn:Hs;
    [ | left; apply norm_cdf_bad_scale; exact Hs ].
  destruct (is_nan ((x - loc) / scale)) eqn:Hz;
    [ left; apply norm_cdf_nan_argument; exact Hz | ].
  right. rewrite (norm_cdf_cases ndtr x loc scale Hs Hz). cbv zeta.
  destruct ((neg_infinity <? (x - loc) / scale)%float
            && ((x - loc) / scale <? infinity)%float).
  - apply Hrange. exact Hz.
  - destruct (infinity <=? (x - loc) / scale)%float; split; reflexivity.
Qed.

(** ** Undefined inputs of the percentile *)

Lemma is_nan_eq (x : float) : is_nan x = true -> x = nan.
Proof.
  intros H. rewrite <- (SF2Prim_Prim2SF x). rewrite is_nan_spec in H.
  destruct (Prim2SF x); try discriminate. reflexivity.
Qed.

Lemma sub_nan_l (y : float) : (nan - y)%float = nan.
Proof.
  rewrite <- (SF2Prim_Prim2SF (nan - y)), sub_spec.
  change (Prim2SF nan) with S754_nan. reflexivity.
Qed.

Lemma sub_nan_r (x : float) : (x - nan)%float = nan.
Proof.
  rewrite <- (SF2Prim_Prim2SF (x - nan)), sub_spec.
  change (Prim2SF nan) with S754_nan. destruct (Prim2SF x); reflexivity.
Qed.

Lemma add_nan_r (x : float) : (x + nan)%float = nan.
Proof.
  rewrite <- (SF2Prim_Prim2SF (x + nan)), add_spec.
  change (Prim2SF nan) with S754_nan. destruct (Prim2SF x); reflexivity.
Qed.

Lemma div_nan_l (y : float) : (nan / y)%float = nan.
Proof.
  rewrite <- (SF2Prim_Prim2SF (nan / y)), div_spec.
  change (Prim2SF nan) with S754_nan. reflexivity.
Qed.

(** ** Binary64 addition, and the percentile as a function of the offset *)

Lemma SFadd_as_sub (x y : spec_float) :
  SF64add x y = SF64sub x (SFopp y).
Proof.
  unfold SF64add, SF64sub, SFadd, SFsub, SFopp.
  destruct x as [sx | sx | | sx mx ex]; destruct y as [sy | sy | | sy my ey];
    try reflexivity;
    try (destruct sx, sy; reflexivity);
    try (destruct sy; reflexivity).
Qed.

Lemma ord_opp (y : spec_float) : ord (SFopp y) = - ord y.
Proof.
  destruct y as [s | s | | s m e]; try reflexivity;
    unfold SFopp, ord; destruct s; unfold cond_Zopp; cbn [negb]; lia.
Qed.

Lemma SFadd_ord (x y : spec_float) :
  valid_binary x = true -> valid_binary y = true ->
  x <> S754_nan -> is_fin y = true ->
  ord (SF64add x y) = sub_ord (ord x) (- ord y) /\ SF64add x y <> S754_nan.
Proof.
  intros Vx Vy Nx Fy. rewrite SFadd_as_sub, <- ord_opp.
  apply SFsub_ord; try assumption; destruct y; try discriminate; assumption.
Qed.

Lemma sub_ord_antitone (V L1 L2 : Z) :
  L1 <= L2 -> sub_ord V L2 <= sub_ord V L1.
Proof.
  intros H. unfold sub_ord.
  destruct (INF <=? V); [ lia | ].
  destruct (V <=? - INF); [ lia | ].
  apply sround_mono. lia.
Qed.

Lemma ltb_true_numbers (a b : float) :
  (a <? b)%float = true -> is_nan a = false /\ is_nan b = false.
Proof.
  rewrite ltb_spec, !is_nan_spec. unfold SFltb.
  destruct (Prim2SF a), (Prim2SF b); simpl; intros H;
    split; (reflexivity || discriminate).
Qed.

(** The sum with a finite number does not decrease with that number. *)
Lemma add_mono_r (l o1 o2 : float) :
  is_nan l = false ->
  (o1 <=? o2)%float = true ->
  (neg_infinity <? o1)%float = true -> (o2 <? infinity)%float = true ->
  (l + o1 <=? l + o2)%float = true.
Proof.
  intros Nl Hle H1 H2.
  destruct (leb_true_not_nan _ _ Hle) as [N1 N2].
  assert (Hv : fval o1 <= fval o2)
    by (apply Z.leb_le; rewrite <- leb_fval by assumption; exact Hle).
  assert (F1 : is_fin (Prim2SF o1) = true).
  { apply between_infinities; [ exact H1 | ].
    rewrite ltb_fval in H2 |- * by (assumption || reflexivity).
    apply Z.ltb_lt in H2. apply Z.ltb_lt. lia. }
  assert (F2 : is_fin (Prim2SF o2) = true).
  { apply between_infinities; [ | exact H2 ].
    rewrite ltb_fval in H1 |- * by (assumption || reflexivity).
    apply Z.ltb_lt in H1. apply Z.ltb_lt. lia. }
  destruct (SFadd_ord (Prim2SF l) (Prim2SF o1) (Prim2SF_valid l)
              (Prim2SF_valid o1) (not_nan l Nl) F1) as [E1 M1].
  destruct (SFadd_ord (Prim2SF l) (Prim2SF o2) (Prim2SF_valid l)
              (Prim2SF_valid o2) (not_nan l Nl) F2) as [E2 M2].
  rewrite <- add_spec in E1, M1, E2, M2.
  rewrite leb_fval by (apply not_nan_inv; assumption).
  apply Z.leb_le. unfold fval at 1 2. rewrite E1, E2.
  apply sub_ord_antitone. unfold fval in Hv. lia.
Qed.

(** The difference to a finite number does not increase with that number. *)
Lemma sub_antitone_r (x l1 l2 : float) :
  is_nan x = false ->
  (l1 <=? l2)%float = true ->
  (neg_infinity <? l1)%float = true -> (l2 <? infinity)%float = true ->
  (x - l2 <=? x - l1)%float = true.
Proof.
  intros Nx Hle H1 H2.
  destruct (leb_true_not_nan _ _ Hle) as [N1 N2].
  assert (Hv : fval l1 <= fval l2)
    by (apply Z.leb_le; rewrite <- leb_fval by assumption; exact Hle).
  assert (F1 : is_fin (Prim2SF l1) = true).
  { apply between_infinities; [ exact H1 | ].
    rewrite ltb_fval in H2 |- * by (assumption || reflexivity).
    apply Z.ltb_lt in H2. apply Z.ltb_lt. lia. }
  assert (F2 : is_fin (Prim2SF l2) = true).
  { apply between_infinities; [ | exact H2 ].
    rewrite ltb_fval in H1 |- * by (assumption || reflexivity).
    apply Z.ltb_lt in H1. apply Z.ltb_lt. lia. }
  destruct (SFsub_ord (Prim2SF x) (Prim2SF l1) (Prim2SF_valid x)
              (Prim2SF_valid l1) (not_nan x Nx) F1) as [E1 M1].
  destruct (SFsub_ord (Prim2SF x) (Prim2SF l2) (Prim2SF_valid x)
              (Prim2SF_valid l2) (not_nan x Nx) F2) as [E2 M2].
  rewrite <- sub_spec in E1, M1, E2, M2.
  rewrite leb_fval by (apply not_nan_inv; assumption).
  apply Z.leb_le. unfold fval at 1 2. rewrite E1, E2.
  apply sub_ord_antitone. exact Hv.
Qed.

Lemma add_number_l (l o : float) : is_nan (l + o) = false -> is_nan l = false.
Proof.
  rewrite !is_nan_spec, add_spec. unfold SF64add, SFadd.
  destruct (Prim2SF l); try reflexivity. intros H. exact H.
Qed.

(** With a positive scale, the distribution function follows the order
    of the standardised arguments. *)
Lemma norm_cdf_mono_arg (ndtr : float -> float)
      (x1 l1 x2 l2 scale : float) :
  (forall a b, (a <=? b)%float = true -> (ndtr a <=? ndtr b)%float = true) ->
  (forall a, is_nan a = false ->
             (0 <=? ndtr a)%float = true /\ (ndtr a <=? 1)%float = true) ->
  (0 <? scale)%float = true ->
  ((x1 - l1) / scale <=? (x2 - l2) / scale)%float = true ->
  (Scipy.norm_cdf ndtr x1 l1 scale <=? Scipy.norm_cdf ndtr x2 l2 scale)%float
  = true.
Proof.
  intros ndtr_mono ndtr_range Hs Hz.
  destruct (leb_true_not_nan _ _ Hz) as [N1 N2].
  rewrite !norm_cdf_cases by assumption. cbv zeta.
  set (z1 := ((x1 - l1) / scale)%float) in *.
  set (z2 := ((x2 - l2) / scale)%float) in *.
  pose proof INF_pos as [_ HI].
  assert (Ninf : is_nan infinity = false) by reflexivity.
  assert (Nninf : is_nan neg_infinity = false) by reflexivity.
  pose proof Hz as Hv. rewrite leb_fval in Hv by assumption. apply Z.leb_le in Hv.
  rewrite !(ltb_fval neg_infinity), !(ltb_fval _ infinity),
          !(leb_fval infinity) by assumption.
  rewrite fval_infinity, fval_neg_infinity.
  destruct (ndtr_range z1 N1) as [R1 R1']. destruct (ndtr_range z2 N2) as [R2 R2'].
  destruct (Z.ltb_spec (- INF) (fval z1)); destruct (Z.ltb_spec (fval z1) INF);
    destruct (Z.ltb_spec (- INF) (fval z2)); destruct (Z.ltb_spec (fval z2) INF);
    destruct (Z.leb_spec INF (fval z1)); destruct (Z.leb_spec INF (fval z2));
    cbv [andb]; try lia;
    first [ apply ndtr_mono; exact Hz | assumption | reflexivity ].
Qed.

(** ** The constructor and the text of an object *)

Lemma tbind_emit {B : Type} (ev : event) (k : traced B) :
  (emit ev ;;; k) = (ev :: fst k, snd k).
Proof. reflexivity. Qed.

Lemma tbind_lift_ok {A B : Type} (a : A) (k : A -> traced B) :
  (x <~ lift (Ok a) ;; k x) = k a.
Proof. unfold tbind. simpl. destruct (k a); reflexivity. Qed.

Lemma tbind_lift_raise {A B : Type} (e : exn) (k : A -> traced B) :
  (x <~ lift (Raise e) ;; k x) = ([], Raise e).
Proof. reflexivity. Qed.

Lemma init_valid_gender
      (read_csv : String.string -> String.string -> result (list GrowthRow))
      (gender birthday name : String.string) :
  gender = "male"%string \/ gender = "female"%string ->
  Child.__init__ read_csv gender birthday name
  = match read_csv (who_url gender) tab with
    | Ok table =>
        ([print (announcement gender); pd_read_csv (who_url gender) tab;
          print "done."],
         Ok (mkObject gender birthday name table))
    | Raise e =>
        ([print (announcement gender); pd_read_csv (who_url gender) tab],
         Raise e)
    end.
Proof.
  intros [-> | ->]; unfold Child.__init__, who_url, announcement;
    cbn [String.eqb Ascii.eqb Bool.eqb];
    rewrite tbind_emit; unfold Child.call_read_csv, tbind at 1;
    cbn [fst snd];
    match goal with |- context [read_csv ?u tab] => destruct (read_csv u tab) end;
    reflexivity.
Qed.

Lemma init_other_gender
      (read_csv : String.string -> String.string -> result (list GrowthRow))
      (gender birthday name : String.string) :
  gender <> "male"%string -> gender <> "female"%string ->
  Child.__init__ read_csv gender birthday name
  = ([print (announcement gender)], Raise ValueError).
Proof.
  intros Hm Hf. unfold Child.__init__.
  apply String.eqb_neq in Hm. apply String.eqb_neq in Hf.
  rewrite Hm, Hf. reflexivity.
Qed.

Lemma gender_cases (gender : String.string) :
  (gender = "male"%string \/ gender = "female"%string)
  \/ (gender <> "male"%string /\ gender <> "female"%string).
Proof.
  destruct (String.eqb_spec gender "male"); [ left; left; assumption | ].
  destruct (String.eqb_spec gender "female"); [ left; right; assumption | ].
  right. split; assumption.
Qed.

Lemma append_prefix_inj (p a b : String.string) :
  String.append p a = String.append p b -> a = b.
Proof.
  induction p as [|c p IH]; simpl; intros H; [ exact H | ].
  injection H as H. apply IH. exact H.
Qed.

Lemma append_line_inj (a a' r r' : String.string) :
  single_line a = true -> single_line a' = true ->
  String.append a (String.append newline r)
  = String.append a' (String.append newline r') ->
  a = a' /\ r = r'.
Proof.
  revert a'. induction a as [|c t IH]; intros [|c' t'] Ha Ha' H.
  - simpl in H. injection H as H. split; [ reflexivity | exact H ].
  - simpl in H. injection H as Hc _. subst c'.
    simpl in Ha'. discriminate Ha'.
  - simpl in H. injection H as Hc _. subst c.
    simpl in Ha. discriminate Ha.
  - simpl in H. injection H as Hc H. subst c'.
    cbn [single_line] in Ha, Ha'.
    apply andb_true_iff in Ha. apply andb_true_iff in Ha'.
    destruct (IH t' (proj2 Ha) (proj2 Ha') H) as [-> ->].
    split; reflexivity.
Qed.

(** ** Drawing *)

(** One panel: the curves and the points are drawn first; the legend
    and the axes follow only when the percentile could be computed. *)
Lemma percentile_plot_outcome (ndtr : float -> float) (self : Object)
      (child_weight_data : list WeightRow) (x_lim y_lim : pyval)
      (color : String.string) (offset : float) (name : String.string) :
  exists curves x y kw,
    legend_percentiles (curves ++ [plt_errorbar x y kw]) = [] /\
    ~ In plt_show (curves ++ [plt_errorbar x y kw]) /\
    (forall labels, ~ In (plt_legend labels) (curves ++ [plt_errorbar x y kw])) /\
    match Child.calculate_child_percentiles ndtr (_growth_data self)
            child_weight_data offset with
    | Ok p =>
        exists axes,
          Child._percentile_plot ndtr self child_weight_data x_lim y_lim
                                  color offset name
          = (curves ++ [plt_errorbar x y kw] ++ axes, Ok tt) /\
          legend_percentiles axes = [p] /\ ~ In plt_show axes
    | Raise e =>
        Child._percentile_plot ndtr self child_weight_data x_lim y_lim
                                color offset name
        = (curves ++ [plt_errorbar x y kw], Raise e)
    end.
Proof.
  unfold Child._percentile_plot.
  eexists (fst (Child._fill_percentile_curves self offset _)).
  eexists. eexists. eexists.
  split; [ reflexivity | ].
  split; [ cbn; intros H; repeat (destruct H as [H | H]; [ discriminate H | ]);
           exact H | ].
  split; [ cbn; intros labels H;
           repeat (destruct H as [H | H]; [ discriminate H | ]); exact H | ].
  destruct (Child.calculate_child_percentiles ndtr (_growth_data self)
              child_weight_data offset) as [p|e].
  - eexists. split; [ reflexivity | ].
    split; [ reflexivity | ].
    cbn. intros H. repeat (destruct H as [H | H]; [ discriminate H | ]).
    exact H.
  - reflexivity.
Qed.

Lemma tbind_returned {B : Type} (calls : list event) (k : traced B) :
  ((calls, Ok tt) ;;; k) = (calls ++ fst k, snd k).
Proof. reflexivity. Qed.

Lemma tbind_raised {A B : Type} (calls : list event) (e : exn)
      (k : A -> traced B) :
  (x <~ (calls, Raise e) ;; k x) = (calls, Raise e).
Proof. reflexivity. Qed.

(** Whether the percentile is computed does not depend on the offset. *)
Lemma percentile_defined_any_offset (ndtr : float -> float)
      (growth_data : list GrowthRow) (child_weight_data : list WeightRow)
      (offset1 offset2 : float) :
  match Child.calculate_child_percentiles ndtr growth_data child_weight_data
          offset1 with
  | Ok _ => exists p, Child.calculate_child_percentiles
                        ndtr growth_data child_weight_data offset2 = Ok p
  | Raise e => Child.calculate_child_percentiles
                 ndtr growth_data child_weight_data offset2 = Raise e
  end.
Proof.
  destruct (iloc_errors child_weight_data (-1)) as [[last_row Hl] | Hl].
  - rewrite !(calculate_unfold _ _ _ _ _ Hl).
    destruct (Py.iloc growth_data (life_days (base last_row))) as [g|e];
      unfold bind; [ eexists | ]; reflexivity.
  - unfold Child.calculate_child_percentiles. rewrite Hl. reflexivity.
Qed.

Lemma plot_unfold (ndtr : float -> float) (self : Object)
      (child_weight_data : list WeightRow) (x_lim y_lim : pyval)
      (mode : String.string) (r0 : WeightRow) (g0 : GrowthRow) :
  nth_error child_weight_data 0 = Some r0 ->
  nth_error (_growth_data self) 0 = Some g0 ->
  Child.plot ndtr self child_weight_data x_lim y_lim mode
  = ((if String.eqb mode "WHO_only" then
        emit (plt_figure [py_float 7.5; py_int 5]) ;;;
        Child._percentile_plot ndtr self child_weight_data x_lim y_lim
                                "C0" 0 "WHO mean"
      else if String.eqb mode "child_specific" then
        emit (plt_figure [py_float 7.5; py_int 5]) ;;;
        Child._percentile_plot ndtr self child_weight_data x_lim y_lim
                                "C1" 0 (_name self)
      else if String.eqb mode "both" then
        emit (plt_figure [py_int 15; py_int 5]) ;;;
        emit (plt_subplot 1 2 1) ;;;
        Child._percentile_plot ndtr self child_weight_data x_lim y_lim
                                "C0" 0 "WHO mean" ;;;
        emit (plt_subplot 1 2 2) ;;;
        Child._percentile_plot ndtr self child_weight_data x_lim y_lim "C1"
          (measured_weight (base r0) - SD0 g0) (_name self)
      else lift (Ok tt)) ;;;
     emit plt_show).
Proof.
  intros Hr Hg. unfold Child.plot.
  destruct child_weight_data as [|r rest]; [ discriminate Hr | ].
  destruct (_growth_data self) as [|g grest]; [ discriminate Hg | ].
  injection Hr as ->. injection Hg as ->.
  cbn [map at_label_0]. rewrite !tbind_lift_ok. reflexivity.
Qed.

Lemma legend_percentiles_app (a b : list event) :
  legend_percentiles (a ++ b) = legend_percentiles a ++ legend_percentiles b.
Proof. unfold legend_percentiles. apply flat_map_app. Qed.

(** A panel whose percentile cannot be computed stops after the points. *)
Lemma panel_raises (ndtr : float -> float) (self : Object)
      (child_weight_data : list WeightRow) (x_lim y_lim : pyval)
      (color : String.string) (offset : float) (name : String.string)
      (e : exn) :
  Child.calculate_child_percentiles ndtr (_growth_data self)
    child_weight_data offset = Raise e ->
  exists calls x y kw,
    Child._percentile_plot ndtr self child_weight_data x_lim y_lim
                            color offset name
    = (calls ++ [plt_errorbar x y kw], Raise e) /\
    ~ In plt_show (calls ++ [plt_errorbar x y kw]) /\
    forall labels, ~ In (plt_legend labels) (calls ++ [plt_errorbar x y kw]).
Proof.
  intros H.
  destruct (percentile_plot_outcome ndtr self child_weight_data x_lim y_lim
              color offset name) as [curves [x [y [kw [_ [HS [HG Hout]]]]]]].
  rewrite H in Hout. exists curves, x, y, kw.
  split; [ exact Hout | ]. split; assumption.
Qed.

(** A panel whose percentile is computed shows it in its legend. *)
Lemma panel_returns (ndtr : float -> float) (self : Object)
      (child_weight_data : list WeightRow) (x_lim y_lim : pyval)
      (color : String.string) (offset : float) (name : String.string)
      (p : float) :
  Child.calculate_child_percentiles ndtr (_growth_data self)
    child_weight_data offset = Ok p ->
  exists calls,
    Child._percentile_plot ndtr self child_weight_data x_lim y_lim
                            color offset name
    = (calls, Ok tt) /\
    legend_percentiles calls = [p] /\ ~ In plt_show calls.
Proof.
  intros H.
  destruct (percentile_plot_outcome ndtr self child_weight_data x_lim y_lim
              color offset name) as [curves [x [y [kw [HL [HS [_ Hout]]]]]]].
  rewrite H in Hout. destruct Hout as [axes [Hout [HA HSA]]].
  exists ((curves ++ [plt_errorbar x y kw]) ++ axes).
  split; [ rewrite Hout, (app_assoc curves [plt_errorbar x y kw] axes);
           reflexivity | ].
  split.
  - rewrite legend_percentiles_app, HL, HA. reflexivity.
  - intros Hin. apply in_app_iff in Hin. tauto.
Qed.

(** The two panels of the mode ['both']: the first without an offset,
    the second with the difference of the first weight to the first
    reference mean. *)
Lemma plot_both_panels (ndtr : float -> float)
      (self : Object) (child_weight_data : list WeightRow)
      (x_lim y_lim : pyval) (r0 : WeightRow) (g0 : GrowthRow) (p0 : float) :
  nth_error child_weight_data 0 = Some r0 ->
  nth_error (_growth_data self) 0 = Some g0 ->
  Child.calculate_child_percentiles ndtr (_growth_data self)
    child_weight_data 0 = Ok p0 ->
  exists calls p1,
    Child.calculate_child_percentiles ndtr (_growth_data self)
      child_weight_data (measured_weight (base r0) - SD0 g0) = Ok p1 /\
    Child.plot ndtr self child_weight_data x_lim y_lim "both"
    = (calls ++ [plt_show], Ok tt) /\
    legend_percentiles calls = [p0; p1] /\ ~ In plt_show calls.
Proof.
  intros Hr Hg H.
  rewrite !(plot_unfold ndtr self child_weight_data x_lim y_lim _ r0 g0 Hr Hg).
  cbn [String.eqb Ascii.eqb Bool.eqb].
  destruct (panel_returns ndtr self child_weight_data x_lim y_lim
              "C0" 0 "WHO mean" p0 H) as [who [Ew [Lw Sw]]].
  pose proof (percentile_defined_any_offset ndtr (_growth_data self)
                child_weight_data 0 (measured_weight (base r0) - SD0 g0)) as Hp.
  rewrite H in Hp. destruct Hp as [p1 Hp].
  destruct (panel_returns ndtr self child_weight_data x_lim y_lim
              "C1" (measured_weight (base r0) - SD0 g0) (_name self) p1 Hp)
    as [adj [Ea [La Sa]]].
  exists (plt_figure [py_int 15; py_int 5] :: plt_subplot 1 2 1
          :: who ++ plt_subplot 1 2 2 :: adj), p1.
  split; [ exact Hp | ].
  rewrite Ew, Ea.
  repeat first [ rewrite tbind_emit | rewrite tbind_returned
               | progress cbn [fst snd] ].
  split; [ reflexivity | ].
  split.
  - change (legend_percentiles (who ++ plt_subplot 1 2 2 :: adj) = [p0; p1]).
    rewrite legend_percentiles_app, Lw.
    change (legend_percentiles (plt_subplot 1 2 2 :: adj))
      with (legend_percentiles adj).
    rewrite La. reflexivity.
  - intros [Hin | [Hin | Hin]];
      [ discriminate Hin | discriminate Hin | ].
    apply in_app_iff in Hin.
    destruct Hin as [Hin | [Hin | Hin]];
      [ exact (Sw Hin) | discriminate Hin | exact (Sa Hin) ].
Qed.

(** Adding zero keeps the value of a number. *)
Lemma add_zero_order (x : float) :
  is_nan x = false ->
  fval (x + 0) = fval x /\ is_nan (x + 0) = false.
Proof.
  intros Nx. pose proof INF_pos as [HI1 HI2].
  destruct (SFadd_ord (Prim2SF x) (Prim2SF 0) (Prim2SF_valid x)
              (Prim2SF_valid 0) (not_nan x Nx) eq_refl) as [E M].
  rewrite <- add_spec in E, M.
  split; [ | apply not_nan_inv; exact M ].
  unfold fval. rewrite E.
  change (- ord (Prim2SF 0)) with 0.
  pose proof (Prim2SF_valid x) as V.
  unfold sub_ord.
  destruct (Prim2SF x) as [s | s | | s m e] eqn:Ex.
  - unfold ord.
    destruct (Z.leb_spec INF 0); [ lia | ].
    destruct (Z.leb_spec 0 (- INF)); [ lia | ].
    rewrite Z.sub_0_r. apply sround_0.
  - unfold ord, cond_Zopp. destruct s.
    + destruct (Z.leb_spec INF (- INF)); [ lia | ].
      destruct (Z.leb_spec (- INF) (- INF)); [ reflexivity | lia ].
    + destruct (Z.leb_spec INF INF); [ reflexivity | lia ].
  - exfalso. apply (not_nan x Nx). exact Ex.
  - pose proof (finite_ord_bounds m e V) as [Hpos Hlt].
    unfold ord. rewrite Z.sub_0_r.
    rewrite (sround_representable s m e V).
    unfold cond_Zopp. destruct s.
    + destruct (Z.leb_spec INF (- (Zpos m * 2 ^ (e + 1074)))); [ lia | ].
      destruct (Z.leb_spec (- (Zpos m * 2 ^ (e + 1074))) (- INF)); [ lia | ].
      reflexivity.
    + destruct (Z.leb_spec INF (Zpos m * 2 ^ (e + 1074))); [ lia | ].
      destruct (Z.leb_spec (Zpos m * 2 ^ (e + 1074)) (- INF)); [ lia | ].
      reflexivity.
Qed.

(** ** Files in descending order *)

Lemma mono_dec_cons (x : Z) (t : list Z) :
  Pandas.is_monotonic_decreasing (x :: t) = true ->
  Forall (fun y => y <= x) t /\ Pandas.is_monotonic_decreasing t = true.
Proof.
  revert x. induction t as [|y t IH]; intros x H.
  - split; [ constructor | reflexivity ].
  - change (((y <=? x) && Pandas.is_monotonic_decreasing (y :: t)) = true) in H.
    apply andb_true_iff in H. destruct H as [Hxy Ht].
    apply Z.leb_le in Hxy. destruct (IH y Ht) as [Hall _].
    split; [ | exact Ht ].
    constructor; [ exact Hxy | ].
    eapply Forall_impl; [ | exact Hall ]. intros z Hz; cbv beta in Hz. lia.
Qed.

Lemma mono_inc_shift (d : Z) (l : list Z) :
  Pandas.is_monotonic_increasing (map (fun x => x - d) l)
  = Pandas.is_monotonic_increasing l.
Proof.
  induction l as [|x t IH]; [ reflexivity | ].
  destruct t as [|y t']; [ reflexivity | ].
  change (((x - d <=? y - d)
           && Pandas.is_monotonic_increasing (map (fun x => x - d) (y :: t')))
          = ((x <=? y) && Pandas.is_monotonic_increasing (y :: t'))).
  rewrite IH. f_equal.
  destruct (Z.leb_spec x y); [ apply Z.leb_le | apply Z.leb_gt ]; lia.
Qed.

Lemma mono_dec_shift (d : Z) (l : list Z) :
  Pandas.is_monotonic_decreasing (map (fun x => x - d) l)
  = Pandas.is_monotonic_decreasing l.
Proof.
  induction l as [|x t IH]; [ reflexivity | ].
  destruct t as [|y t']; [ reflexivity | ].
  change (((y - d <=? x - d)
           && Pandas.is_monotonic_decreasing (map (fun x => x - d) (y :: t')))
          = ((y <=? x) && Pandas.is_monotonic_decreasing (y :: t'))).
  rewrite IH. f_equal.
  destruct (Z.leb_spec y x); [ apply Z.leb_le | apply Z.leb_gt ]; lia.
Qed.

(** In a descending index the positions of a label are the run that
    starts after the greater labels. *)
Lemma positions_from_descending (l : list Z) (v : Z) (k : nat) :
  Pandas.is_monotonic_decreasing l = true ->
  Pandas.positions_from k l v =
  seq (k + length (filter (fun x => v <? x) l))
      (length (filter (fun x => x =? v) l)).
Proof.
  revert k. induction l as [|x t IH]; intros k H; [ reflexivity | ].
  destruct (mono_dec_cons _ _ H) as [Hall Ht].
  simpl. destruct (Z.compare_spec x v) as [Heq | Hlt | Hgt].
  - subst x. rewrite Z.eqb_refl, Z.ltb_irrefl.
    assert (Hnone : filter (fun x => v <? x) t = []).
    { apply filter_none. eapply Forall_impl; [ | exact Hall ].
      intros z Hz; cbv beta in *. apply Z.ltb_ge. exact Hz. }
    rewrite (IH (S k) Ht), Hnone. simpl.
    rewrite !Nat.add_0_r. reflexivity.
  - assert (Hne : (x =? v) = false) by (apply Z.eqb_neq; lia).
    assert (Hl : (v <? x) = false) by (apply Z.ltb_ge; lia).
    rewrite Hne, Hl.
    rewrite positions_from_none.
    + rewrite (filter_none (fun x => x =? v) t); [ reflexivity | ].
      eapply Forall_impl; [ | exact Hall ].
      intros z Hz; cbv beta in *. apply Z.eqb_neq. lia.
    + eapply Forall_impl; [ | exact Hall ].
      intros z Hz; cbv beta in *. lia.
  - assert (Hne : (x =? v) = false) by (apply Z.eqb_neq; lia).
    assert (Hl : (v <? x) = true) by (apply Z.ltb_lt; lia).
    rewrite Hne, Hl. rewrite (IH (S k) Ht). simpl.
    rewrite Nat.add_succ_r. reflexivity.
Qed.

Lemma count_ge_split (l : list Z) (v : Z) :
  length (filter (fun x => v <=? x) l) =
  Nat.add (length (filter (fun x => v <? x) l))
          (length (filter (fun x => x =? v) l)).
Proof.
  induction l as [|x t IH]; simpl; [ reflexivity | ].
  destruct (Z.compare_spec x v) as [Heq | Hlt | Hgt].
  - subst x. rewrite Z.leb_refl, Z.ltb_irrefl, Z.eqb_refl. simpl. lia.
  - replace (v <=? x) with false by (symmetry; apply Z.leb_gt; lia).
    replace (v <? x) with false by (symmetry; apply Z.ltb_ge; lia).
    replace (x =? v) with false by (symmetry; apply Z.eqb_neq; lia).
    exact IH.
  - replace (v <=? x) with true by (symmetry; apply Z.leb_le; lia).
    replace (v <? x) with true by (symmetry; apply Z.ltb_lt; lia).
    replace (x =? v) with false by (symmetry; apply Z.eqb_neq; lia).
    simpl. lia.
Qed.

Lemma count_complement (l : list Z) (f g : Z -> bool) :
  (forall x, g x = negb (f x)) ->
  length l = Nat.add (length (filter f l)) (length (filter g l)).
Proof.
  intros H. induction l as [|x t IH]; [ reflexivity | ].
  simpl. rewrite (H x). destruct (f x); simpl; lia.
Qed.

Lemma count_rev (l : list Z) (f : Z -> bool) :
  length (filter f (rev l)) = length (filter f l).
Proof.
  induction l as [|x t IH]; [ reflexivity | ].
  simpl. rewrite filter_app, length_app, IH. simpl.
  destruct (f x); simpl; lia.
Qed.

(** On a descending index that is not ascending too, every slice bound
    exists: the left bound of a label is the number of greater
    labels, the right bound the number of labels that are not
    smaller. *)
Lemma get_slice_bound_descending (idx : list Z) (v : Z) (s : Pandas.side) :
  Pandas.is_monotonic_decreasing idx = true ->
  Pandas.is_monotonic_increasing idx = false ->
  Pandas.get_slice_bound idx v s
  = Ok (match s with
        | Pandas.Left => length (filter (fun x => v <? x) idx)
        | Pandas.Right => length (filter (fun x => v <=? x) idx)
        end).
Proof.
  intros Hd Hi. unfold Pandas.get_slice_bound, Pandas.positions.
  rewrite (positions_from_descending idx v 0 Hd). simpl.
  destruct (length (filter (fun x => x =? v) idx)) as [|n] eqn:En.
  - simpl. rewrite Hi, Hd. f_equal.
    unfold Pandas.searchsorted.
    destruct s; simpl Pandas.flip; cbv iota; rewrite count_rev.
    + rewrite (count_complement idx (fun x => x <=? v) (fun x => v <? x)).
      * lia.
      * intros x. destruct (Z.leb_spec x v); destruct (Z.ltb_spec v x);
          (reflexivity || lia).
    + rewrite (count_complement idx (fun x => x <? v) (fun x => v <=? x)).
      * lia.
      * intros x. destruct (Z.ltb_spec x v); destruct (Z.leb_spec v x);
          (reflexivity || lia).
  - simpl. rewrite contiguous_seq. f_equal.
    destruct s; [ reflexivity | ].
    rewrite last_seq, count_ge_split, En. lia.
Qed.

Lemma count_le_count (l : list Z) (f g : Z -> bool) :
  (forall x, f x = true -> g x = true) ->
  (length (filter f l) <= length (filter g l))%nat.
Proof.
  intros H. induction l as [|x t IH]; [ apply Nat.le_refl | ].
  simpl. destruct (f x) eqn:Ef.
  - rewrite (H x Ef). simpl. lia.
  - destruct (g x); simpl; lia.
Qed.

(** A label slice that runs forward on a descending index is empty. *)
Lemma loc_slice_descending {A : Type} (key : A -> Z) (rows : list A) (b e : Z) :
  Pandas.is_monotonic_decreasing (map key rows) = true ->
  Pandas.is_monotonic_increasing (map key rows) = false ->
  b < e ->
  Pandas.loc_slice key rows b e = Ok [].
Proof.
  intros Hd Hi Hbe. unfold Pandas.loc_slice.
  rewrite !(get_slice_bound_descending _ _ _ Hd Hi). unfold bind.
  unfold Pandas.slice.
  set (hi := length (filter (fun x => e <=? x) (map key rows))).
  set (lo := length (filter (fun x => b <? x) (map key rows))).
  assert (Hle : Nat.le hi lo).
  { apply count_le_count. intros x Hx. apply Z.leb_le in Hx.
    apply Z.ltb_lt. lia. }
  replace (Nat.sub hi lo) with 0%nat by lia. reflexivity.
Qed.

Lemma weekly_at_descending (frame : list Row) (i : nat) :
  Pandas.is_monotonic_decreasing (map life_days frame) = true ->
  Pandas.is_monotonic_increasing (map life_days frame) = false ->
  (i < length frame)%nat ->
  Child.weekly_at frame i = Ok 0%float.
Proof.
  intros Hd Hi Hlt.
  destruct (nth_error frame i) as [row|] eqn:Ei;
    [ | apply nth_error_None in Ei; lia ].
  unfold Child.weekly_at.
  rewrite (iloc_nth_error _ _ _ Ei). unfold bind at 1.
  rewrite (loc_slice_descending life_days frame _ _ Hd Hi) by lia.
  reflexivity.
Qed.

Lemma weekly_loop_values (frame : list Row) (f : nat -> float)
      (range : list nat) (acc : list float) :
  (forall i, In i range -> Child.weekly_at frame i = Ok (f i)) ->
  Child.weekly_loop frame range acc = Ok (acc ++ map f range).
Proof.
  revert acc. induction range as [|i rest IH]; intros acc H.
  - simpl. rewrite app_nil_r. reflexivity.
  - simpl. rewrite (H i (or_introl eq_refl)). unfold bind at 1.
    rewrite IH by (intros j Hj; apply H; right; exact Hj).
    rewrite <- app_assoc. reflexivity.
Qed.

(** ** Files out of order *)

Lemma weekly_at_missing_label (frame : list Row) (i : nat) (row : Row) :
  nth_error frame i = Some row ->
  Pandas.is_monotonic_increasing (map life_days frame) = false ->
  Pandas.is_monotonic_decreasing (map life_days frame) = false ->
  Forall (fun x => x <> life_days row - 6) (map life_days frame) ->
  Child.weekly_at frame i = Raise KeyError.
Proof.
  intros Hi Hinc Hdec Hnone. unfold Child.weekly_at.
  rewrite (iloc_nth_error _ _ _ Hi). unfold bind at 1.
  unfold Pandas.loc_slice, Pandas.get_slice_bound at 1, Pandas.positions.
  rewrite (positions_from_none 0 _ _ Hnone), Hinc, Hdec. reflexivity.
Qed.

Lemma weekly_loop_raises (frame : list Row) (range : list nat)
      (acc : list float) (i : nat) :
  Forall (fun j => (j < length frame)%nat) range ->
  In i range ->
  Child.weekly_at frame i = Raise KeyError ->
  Child.weekly_loop frame range acc = Raise KeyError.
Proof.
  revert acc. induction range as [|j rest IH]; intros acc Hall Hin Hraise.
  - destruct Hin.
  - inversion Hall as [|? ? Hj Hrest]; subst. simpl.
    destruct (weekly_at_errors frame j Hj) as [[w Hw] | Hw]; rewrite Hw;
      [ | reflexivity ].
    unfold bind at 1. apply IH; [ exact Hrest | | exact Hraise ].
    destruct Hin as [-> | Hin]; [ congruence | exact Hin ].
Qed.

(** ** The arrays that are drawn *)

Lemma tbind_forall {A B : Type} (P : event -> Prop) (c : traced A)
      (k : A -> traced B) :
  Forall P (fst c) -> (forall a, Forall P (fst (k a))) ->
  Forall P (fst (x <~ c ;; k x)).
Proof.
  intros Hc Hk. unfold tbind. destruct (snd c) as [a|e]; cbn [fst].
  - apply Forall_app. split; [ exact Hc | apply Hk ].
  - exact Hc.
Qed.

Lemma emit_forall (P : event -> Prop) (ev : event) :
  P ev -> Forall P (fst (emit ev)).
Proof. intros H. constructor; [ exact H | constructor ]. Qed.

Lemma lift_forall {A : Type} (P : event -> Prop) (r : result A) :
  Forall P (fst (lift r)).
Proof. constructor. Qed.

Lemma percentile_plot_well_shaped (ndtr : float -> float) (self : Object)
      (child_weight_data : list WeightRow) (x_lim y_lim : pyval)
      (color : String.string) (offset : float) (name : String.string) :
  Forall well_shaped
         (fst (Child._percentile_plot ndtr self child_weight_data x_lim y_lim
                                       color offset name)).
Proof.
  unfold Child._percentile_plot, Child._fill_percentile_curves,
    Child._plot_child_data.
  repeat first
    [ apply tbind_forall; [ | intros ? ]
    | apply emit_forall; cbn [well_shaped]; rewrite ?length_map;
      first [ exact I | reflexivity | split; reflexivity ]
    | apply lift_forall ].
Qed.

(** ** From the file to the percentile *)

Lemma iloc_last_nth {A : Type} (l : list A) (a : A) :
  nth_error l (length l - 1) = Some a -> Py.iloc l (-1) = Ok a.
Proof.
  intros H. destruct l as [|b t]; [ discriminate H | ].
  rewrite (iloc_last t b b). f_equal.
  replace (length (b :: t) - 1)%nat with (length t) in H by (simpl; lia).
  rewrite (nth_error_last t b b) in H. congruence.
Qed.

(** * The properties of the specification *)

(** C1. On a non-empty chronological file the table is returned, and
    at every index [i] the weekly gain is the sum of the gains over the
    samples aged in [[age_i - 6, age_i]], unless that window holds one
    sample and sample [i-1] is more than 6 days older: then it is the
    daily rate of sample [i]. *)
Theorem weekly_gain_trailing_window (file : list Measurement) :
  file <> [] -> chronological file ->
  exists table,
    Child.import_weight_data file = Ok table /\
    length table = length file /\
    forall i row, nth_error table i = Some row ->
      weekly_weight_gain row = Spec.weekly_gain (map base table) i (base row).
Proof.
  intros Hne Hs. exists (table_of file).
  split; [ apply import_weight_data_sorted; assumption | ].
  split.
  - rewrite <- (length_map base), table_of_base. apply frame_of_length.
  - intros i row Hi. rewrite table_of_base.
    rewrite table_of_nth in Hi.
    destruct (nth_error (frame_of file) i) as [r|] eqn:Er; [ | discriminate ].
    injection Hi as <-. simpl. unfold weekly_of. rewrite Er. reflexivity.
Qed.

Lemma weekly_gain_trailing_window_witness :
  exists table,
    Child.import_weight_data scenario_mixed = Ok table /\
    length table = length scenario_mixed /\
    forall i row, nth_error table i = Some row ->
      weekly_weight_gain row = Spec.weekly_gain (map base table) i (base row).
Proof.
  apply (weekly_gain_trailing_window scenario_mixed);
    [ discriminate | reflexivity ].
Defined.

(** C2 (as the specification states it, refuted). In the scenario the weekly
    gain at index 2 is 0.0, not 0.3. *)
Lemma scenario_weekly_index2_is_zero :
  exists table row,
    Child.import_weight_data scenario_weekly = Ok table /\
    nth_error table 2 = Some row /\
    weekly_weight_gain row = 0%float /\
    (abs (weekly_weight_gain row - 0.3) <? 0.29)%float = false.
Proof.
  eexists. eexists.
  split; [ vm_compute; reflexivity | ].
  split; [ reflexivity | ].
  split; reflexivity.
Qed.

(** C2 (amended). In the scenario the gains are NaN, [4.3 - 4.0] and
    0.0; the daily rates and the weekly gains are the same three
    values (both windows hold the sample alone, 7 days after the one
    before); [4.3 - 4.0] is 0.3 up to rounding. *)
Theorem scenario_weekly_derivation :
  let g := (4.3 - 4.0)%float in
  exists table,
    Child.import_weight_data scenario_weekly = Ok table /\
    map (fun r => weight_gain (base r)) table = [nan; g; 0%float] /\
    map (fun r => daily_weight_gain (base r)) table = [nan; g; 0%float] /\
    map weekly_weight_gain table = [nan; g; 0%float] /\
    map (fun r => length (Spec.trailing_window (map base table)
                                               (measurement_days (base r))))
        table = [1%nat; 1%nat; 1%nat] /\
    (abs (g - 0.3) <? 1e-15)%float = true.
Proof.
  intros g. eexists.
  split; [ vm_compute; reflexivity | ].
  repeat split; vm_compute; reflexivity.
Qed.

(** C3 (as the specification states it, refuted). Two samples on day 7: the
    daily rate of the second is [+inf], the quotient of a division by
    zero; it is neither the missing value nor the rate of the interval
    before. *)
Lemma same_day_daily_rate_is_infinite :
  exists table prev row,
    Child.import_weight_data scenario_same_day = Ok table /\
    nth_error table 1 = Some prev /\
    nth_error table 2 = Some row /\
    measurement_days (base row) - measurement_days (base prev) = 0 /\
    daily_weight_gain (base row) = infinity /\
    daily_weight_gain (base row)
    = (weight_gain (base row) / Py.float_of_Z 0 * 7)%float /\
    is_nan (daily_weight_gain (base row)) = false /\
    (daily_weight_gain (base row) =? daily_weight_gain (base prev))%float = false.
Proof.
  eexists. eexists. eexists.
  split; [ vm_compute; reflexivity | ].
  split; [ reflexivity | ].
  split; [ reflexivity | ].
  repeat split; vm_compute; reflexivity.
Qed.

(** C3 (amended). In every returned table, when samples [i] and [i+1]
    share their day, the daily rate of the second is the binary64
    value of [gain / 0 * 7], computed with no special case: NaN when
    the gain is zero or NaN, and otherwise the infinity that has the
    sign of the gain. *)
Theorem same_day_daily_rate (file : list Measurement) (table : list WeightRow)
        (i : nat) (prev row : WeightRow) :
  Child.import_weight_data file = Ok table ->
  nth_error table i = Some prev ->
  nth_error table (S i) = Some row ->
  measurement_days (base row) - measurement_days (base prev) = 0 ->
  let g := weight_gain (base row) in
  daily_weight_gain (base row) = (g / 0 * 7)%float /\
  daily_weight_gain (base row)
  = if is_nan g || (g =? 0)%float then nan
    else if (0 <? g)%float then infinity else neg_infinity.
Proof.
  intros Himp Hp Hr Hday g.
  pose proof (import_weight_data_base _ _ Himp) as Hbase.
  assert (Hp' : nth_error (frame_of file) i = Some (base prev)).
  { rewrite <- Hbase, nth_error_map, Hp. reflexivity. }
  assert (Hr' : nth_error (frame_of file) (S i) = Some (base row)).
  { rewrite <- Hbase, nth_error_map, Hr. reflexivity. }
  pose proof (frame_of_daily file i _ _ Hp' Hr') as Hd.
  rewrite Hday in Hd. change (Py.float_of_Z 0) with 0%float in Hd.
  split; [ exact Hd | ].
  rewrite Hd. apply div_zero_times_7.
Qed.

Lemma same_day_daily_rate_witness :
  exists table prev row,
    Child.import_weight_data scenario_same_day = Ok table /\
    nth_error table 1 = Some prev /\
    nth_error table 2 = Some row /\
    daily_weight_gain (base row) = (weight_gain (base row) / 0 * 7)%float /\
    daily_weight_gain (base row)
    = if is_nan (weight_gain (base row)) || (weight_gain (base row) =? 0)%float
      then nan
      else if (0 <? weight_gain (base row))%float then infinity
           else neg_infinity.
Proof.
  eexists. eexists. eexists.
  split; [ vm_compute; reflexivity | ].
  split; [ reflexivity | ].
  split; [ reflexivity | ].
  eapply (same_day_daily_rate scenario_same_day _ 1);
    [ vm_compute; reflexivity | reflexivity | reflexivity | reflexivity ].
Defined.



(** C5 (as the specification states it, refuted). With a reference row whose
    mean equals its -1SD landmark the estimation does not fail: it
    returns NaN, whatever [ndtr] is. *)
Lemma degenerate_scale_returns_nan :
  (exists g, Py.iloc who_degenerate 0 = Ok g
             /\ (SD0 g - SD1neg g)%float = 0%float) /\
  forall ndtr table,
    Child.import_weight_data scenario_single = Ok table ->
    Child.calculate_child_percentiles ndtr who_degenerate table 0 = Ok nan.
Proof.
  split.
  - eexists. split; reflexivity.
  - intros ndtr table H. vm_compute in H. injection H as <-.
    reflexivity.
Qed.

(** C5 (amended). Whenever the looked-up row has a zero scale (its
    mean equals its -1SD landmark) the estimation returns NaN and
    raises nothing. *)
Theorem zero_scale_returns_nan (ndtr : float -> float)
        (growth_data : list GrowthRow) (child_weight_data : list WeightRow)
        (weight_offset : float) (last_row : WeightRow) (g : GrowthRow) :
  Py.iloc child_weight_data (-1) = Ok last_row ->
  Py.iloc growth_data (life_days (base last_row)) = Ok g ->
  (SD0 g - SD1neg g =? 0)%float = true ->
  Child.calculate_child_percentiles ndtr growth_data child_weight_data
                                    weight_offset = Ok nan.
Proof.
  intros Hlast Hg Hscale.
  rewrite (calculate_unfold _ _ _ _ _ Hlast), Hg. unfold bind.
  rewrite norm_cdf_bad_scale; [ reflexivity | ].
  apply eqb_zero_not_positive. exact Hscale.
Qed.

Lemma zero_scale_returns_nan_witness :
  Child.calculate_child_percentiles ndtr_step who_degenerate
    (table_of scenario_single) 0 = Ok nan.
Proof.
  eapply (zero_scale_returns_nan ndtr_step who_degenerate
            (table_of scenario_single) 0); reflexivity.
Defined.

(** C6 (as the specification states it, refuted). A negative age is not
    refused: position -1 reads the last row of the reference table,
    and the percentile of a table whose last sample has age -1 is
    computed from that row. *)
Lemma negative_age_reads_from_the_end :
  Py.iloc who_three (-1) = Ok (mkGrowthRow 2 3.5 4.1 3.1 4.6 2.7 5.2 2.3) /\
  exists last_row,
    Py.iloc table_backwards (-1) = Ok last_row /\
    life_days (base last_row) = -1 /\
    forall ndtr,
      Child.calculate_child_percentiles ndtr who_three table_backwards 0
      = Ok (Scipy.norm_cdf ndtr 3.5 (3.5 + 0) (3.5 - 3.1)).
Proof.
  split; [ reflexivity | ].
  eexists.
  split; [ reflexivity | ].
  split; [ reflexivity | ].
  intros ndtr. reflexivity.
Qed.

(** C6 (amended). The lookup at the age of the last sample raises
    [IndexError] for every age that is at least the number of rows of
    the reference table, and for every age below minus that number; a
    negative age [-k] with [k] at most the number of rows reads the
    [k]-th row from the end. *)
Theorem age_out_of_range (ndtr : float -> float)
        (growth_data : list GrowthRow) (child_weight_data : list WeightRow)
        (weight_offset : float) (last_row : WeightRow) :
  Py.iloc child_weight_data (-1) = Ok last_row ->
  let age := life_days (base last_row) in
  let n := Z.of_nat (length growth_data) in
  (n <= age \/ age < - n ->
   Py.iloc growth_data age = Raise IndexError /\
   Child.calculate_child_percentiles ndtr growth_data child_weight_data
                                     weight_offset = Raise IndexError)
  /\
  (- n <= age < 0 ->
   exists g,
     nth_error growth_data (Z.to_nat (age + n)) = Some g /\
     Py.iloc growth_data age = Ok g /\
     Child.calculate_child_percentiles ndtr growth_data child_weight_data
                                       weight_offset
     = Ok (Scipy.norm_cdf ndtr (measured_weight (base last_row))
                          (SD0 g + weight_offset)%float
                          (SD0 g - SD1neg g)%float)).
Proof.
  intros Hlast age n. rewrite (calculate_unfold _ _ _ _ _ Hlast).
  fold age. split.
  - intros Hout.
    assert (E : Py.iloc growth_data age = Raise IndexError).
    { unfold Py.iloc. fold n.
      destruct (age <? 0) eqn:Hneg.
      - apply Z.ltb_lt in Hneg.
        replace (0 <=? age + n) with false by (symmetry; apply Z.leb_gt; lia).
        reflexivity.
      - apply Z.ltb_ge in Hneg.
        replace (age <? n) with false by (symmetry; apply Z.ltb_ge; lia).
        rewrite andb_false_r. reflexivity. }
    rewrite E. split; reflexivity.
  - intros Hin.
    assert (Hlt : (Z.to_nat (age + n) < length growth_data)%nat) by lia.
    destruct (nth_error growth_data (Z.to_nat (age + n))) as [g|] eqn:Eg;
      [ | apply nth_error_None in Eg; lia ].
    assert (E : Py.iloc growth_data age = Ok g).
    { unfold Py.iloc. fold n.
      replace (age <? 0) with true by (symmetry; apply Z.ltb_lt; lia).
      replace (0 <=? age + n) with true by (symmetry; apply Z.leb_le; lia).
      replace (age + n <? n) with true by (symmetry; apply Z.ltb_lt; lia).
      simpl. rewrite Eg. reflexivity. }
    exists g. rewrite E. repeat split; reflexivity.
Qed.

Lemma age_out_of_range_witness :
  (3 <= 7 \/ 7 < - 3 ->
   Py.iloc who_three 7 = Raise IndexError /\
   Child.calculate_child_percentiles ndtr_step who_three
     (table_of scenario_same_day) 0 = Raise IndexError)
  /\
  (- 3 <= 7 < 0 ->
   exists g,
     nth_error who_three (Z.to_nat (7 + 3)) = Some g /\
     Py.iloc who_three 7 = Ok g /\
     Child.calculate_child_percentiles ndtr_step who_three
       (table_of scenario_same_day) 0
     = Ok (Scipy.norm_cdf ndtr_step 4.5 (SD0 g + 0)%float
                          (SD0 g - SD1neg g)%float)).
Proof.
  apply (age_out_of_range ndtr_step who_three (table_of scenario_same_day) 0
           (mkWeightRow (mkRow 7 4.5 7 7 (4.5 - 4.3) infinity) 0.5)).
  vm_compute. reflexivity.
Defined.

(** C7 (as the specification states it, refuted). The empty file does fail,
    but the exception is not the [ValueError] the source raises for an
    invalid argument. *)
Lemma empty_input_not_invalid_argument :
  exists e, Child.import_weight_data [] = Raise e /\ e <> ValueError.
Proof.
  exists LookupError. split; [ reflexivity | discriminate ].
Qed.

(** C7 (amended). On the empty file the derivation fails at the lookup
    of the first date with a lookup error, a [KeyError] or an
    [IndexError] by the version of pandas and in neither case a
    [ValueError], and returns no table; the empty file is the only
    one on which the derivation fails in this way. *)
Theorem empty_input_raises_lookup_error :
  Child.col_life_days (map m_date []) = Raise LookupError /\
  Child.import_weight_data [] = Raise LookupError /\
  (forall c, In c (python_classes LookupError) ->
             (c = KeyError \/ c = IndexError) /\ c <> ValueError) /\
  (forall table, Child.import_weight_data [] <> Ok table) /\
  (forall file, Child.import_weight_data file = Raise LookupError
                <-> file = []).
Proof.
  split; [ reflexivity | ].
  split; [ reflexivity | ].
  split.
  { intros c [<- | [<- | []]]; split; (auto || discriminate). }
  split; [ intros table H; discriminate H | ].
  intros file. split; [ | intros ->; reflexivity ].
  intros H. destruct file as [|m ms]; [ reflexivity | exfalso ].
  rewrite import_unfold in H.
  destruct (weekly_loop_errors (frame_of (m :: ms))
              (seq 0 (length (frame_of (m :: ms)))) [] (seq_below 0 _))
    as [[weekly Hw] | Hw]; rewrite Hw in H; discriminate H.
Qed.

(** C8. For the single sample (day 0, 4.0), a reference row with mean
    4.0 and -1SD 3.5 and offset 0, the standardised value is 0 and the
    percentile is [ndtr 0]: 0.5, the value of the normal distribution
    function at zero. *)
Theorem single_sample_median (ndtr : float -> float) :
  ndtr 0%float = 0.5%float ->
  exists table,
    Child.import_weight_data scenario_single = Ok table /\
    Child.calculate_child_percentiles ndtr who_day0 table 0 = Ok 0.5%float.
Proof.
  intros H0. eexists. split; [ vm_compute; reflexivity | ].
  vm_compute. rewrite H0. reflexivity.
Qed.

Lemma single_sample_median_witness :
  exists table,
    Child.import_weight_data scenario_single = Ok table /\
    Child.calculate_child_percentiles ndtr_step who_day0 table 0
    = Ok 0.5%float.
Proof.
  apply (single_sample_median ndtr_step). reflexivity.
Defined.

(** C9. For every non-empty input the table, whenever it is returned
    (it is for a chronological input), starts with a row whose gain and
    daily rate are NaN, the missing value, and so are not zero. *)
Theorem first_sample_gain_undefined (file : list Measurement) :
  file <> [] ->
  (chronological file -> exists table, Child.import_weight_data file = Ok table)
  /\ forall table, Child.import_weight_data file = Ok table ->
     exists row rest,
       table = row :: rest /\
       weight_gain (base row) = nan /\
       daily_weight_gain (base row) = nan /\
       (weight_gain (base row) =? 0)%float = false /\
       (daily_weight_gain (base row) =? 0)%float = false.
Proof.
  intros Hne. split.
  - intros Hs. exists (table_of file). apply import_weight_data_sorted; assumption.
  - intros table H. apply import_weight_data_base in H.
    destruct file as [|m ms]; [ congruence | ].
    destruct table as [|row rest]; [ discriminate | ].
    exists row, rest. simpl in H. injection H as Hrow _.
    rewrite Hrow. repeat split; reflexivity.
Qed.

Lemma first_sample_gain_undefined_witness :
  (chronological scenario_weekly ->
   exists table, Child.import_weight_data scenario_weekly = Ok table)
  /\ forall table, Child.import_weight_data scenario_weekly = Ok table ->
     exists row rest,
       table = row :: rest /\
       weight_gain (base row) = nan /\
       daily_weight_gain (base row) = nan /\
       (weight_gain (base row) =? 0)%float = false /\
       (daily_weight_gain (base row) =? 0)%float = false.
Proof.
  apply (first_sample_gain_undefined scenario_weekly). discriminate.
Defined.

(** C10. On a non-empty chronological file the weekly gain of sample 0
    is NaN: the row read as its predecessor is the last row, whose age
    is not smaller, so the fallback is not taken and the sum over the
    window starts with the NaN gain of sample 0. *)
Theorem first_weekly_gain_undefined (file : list Measurement) :
  file <> [] -> chronological file ->
  exists row rest last_row,
    Child.import_weight_data file = Ok (row :: rest) /\
    Py.iloc (row :: rest) (0 - 1) = Ok last_row /\
    (measurement_days (base row) - measurement_days (base last_row) >? 6) = false /\
    weekly_weight_gain row
    = Py.sum (map weight_gain
                  (Spec.trailing_window (map base (row :: rest))
                                        (measurement_days (base row)))) /\
    weekly_weight_gain row = nan /\
    (weekly_weight_gain row =? 0)%float = false.
Proof.
  intros Hne Hs.
  pose proof (import_weight_data_sorted file Hne Hs) as Himp.
  pose proof (table_of_base file) as Hbase.
  pose proof (table_of_nth file 0) as Hnth.
  pose proof (frame_of_sorted file Hs) as Hsorted.
  destruct file as [|m ms]; [ congruence | ].
  destruct (table_of (m :: ms)) as [|row rest] eqn:Et; [ discriminate | ].
  simpl in Hnth. injection Hnth as Hrow.
  assert (Hw : weekly_weight_gain row = nan).
  { rewrite Hrow. simpl. unfold weekly_of. simpl.
    unfold Spec.weekly_gain. simpl.
    rewrite Z.leb_refl.
    replace (m_date m - m_date m - 6 <=? m_date m - m_date m) with true
      by (symmetry; apply Z.leb_le; lia).
    simpl. apply sum_nan_head. }
  exists row, rest, (last (row :: rest) row).
  split; [ exact Himp | ].
  split; [ apply iloc_last | ].
  split; [ | split; [ | split; [ exact Hw | rewrite Hw; reflexivity ] ] ].
  - rewrite Z.gtb_ltb. apply Z.ltb_ge.
    assert (Hin : In (base (last (row :: rest) row)) (frame_of (m :: ms))).
    { rewrite <- Hbase. apply in_map.
      destruct (exists_last (l := row :: rest)) as [l' [a Ha]]; [ discriminate | ].
      rewrite Ha at 1. rewrite last_last. rewrite Ha.
      apply in_or_app. right. left. reflexivity. }
    pose proof (frame_of_days (m :: ms)) as Hd.
    rewrite Forall_forall in Hd. rewrite (Hd _ Hin).
    assert (Hb : base row = first_row m) by (rewrite Hrow; reflexivity).
    rewrite Hb.
    pose proof (first_is_least (frame_of (m :: ms)) Hsorted (first_row m)
                  (rows_from (m_date m) m ms) _ eq_refl Hin) as Hle.
    simpl in Hle. simpl. lia.
  - rewrite Hbase. rewrite Hw. 
    assert (Hb : base row = first_row m) by (rewrite Hrow; reflexivity).
    rewrite Hb. simpl. rewrite Z.leb_refl.
    replace (m_date m - m_date m - 6 <=? m_date m - m_date m) with true
      by (symmetry; apply Z.leb_le; lia).
    simpl. symmetry. apply sum_nan_head.
Qed.

Lemma first_weekly_gain_undefined_witness :
  exists row rest last_row,
    Child.import_weight_data scenario_mixed = Ok (row :: rest) /\
    Py.iloc (row :: rest) (0 - 1) = Ok last_row /\
    (measurement_days (base row) - measurement_days (base last_row) >? 6) = false /\
    weekly_weight_gain row
    = Py.sum (map weight_gain
                  (Spec.trailing_window (map base (row :: rest))
                                        (measurement_days (base row)))) /\
    weekly_weight_gain row = nan /\
    (weekly_weight_gain row =? 0)%float = false.
Proof.
  apply (first_weekly_gain_undefined scenario_mixed);
    [ discriminate | reflexivity ].
Defined.

(** * Further properties of the code *)

(** ** The derivation of the weight table *)

(** X1. Once [read_csv] has parsed the file (every line a date and a
    number; what the parser raises on other files is outside the
    model), the derivation has three outcomes: the table is returned;
    or the file has data lines and a [KeyError] is raised, by a label
    slice; or the file has no data line and the lookup of the first
    date fails with a [LookupError].  No other exception leaves the
    derivation. *)
Theorem derivation_raises_only_lookup_errors (file : list Measurement) :
  (file <> [] /\ exists table, Child.import_weight_data file = Ok table)
  \/ (file <> [] /\ Child.import_weight_data file = Raise KeyError)
  \/ (file = [] /\ Child.import_weight_data file = Raise LookupError).
Proof.
  destruct file as [|m ms]; [ right; right; split; reflexivity | ].
  rewrite import_unfold.
  destruct (weekly_loop_errors (frame_of (m :: ms))
              (seq 0 (length (frame_of (m :: ms)))) [] (seq_below 0 _))
    as [[weekly Hw] | Hw]; rewrite Hw;
    [ left; split; [ discriminate | eexists; reflexivity ]
    | right; left; split; [ discriminate | reflexivity ] ].
Qed.

(** X2. When the table is returned it has one row for each line of the
    file, in the order of the file; row [i] carries the date and the
    weight of line [i], and both its [life_days] and its
    [measurement_days] are the days from the date of the first line to
    its own. *)
Theorem derived_rows_follow_the_file (file : list Measurement)
        (table : list WeightRow) (i : nat) (m0 m : Measurement) :
  Child.import_weight_data file = Ok table ->
  nth_error file 0 = Some m0 ->
  nth_error file i = Some m ->
  length table = length file /\
  exists row,
    nth_error table i = Some row /\
    date (base row) = m_date m /\
    measured_weight (base row) = m_weight m /\
    life_days (base row) = m_date m - m_date m0 /\
    measurement_days (base row) = m_date m - m_date m0.
Proof.
  intros Himp H0 Hi. split.
  - rewrite <- (length_map base), (import_weight_data_base _ _ Himp).
    apply frame_of_length.
  - destruct (frame_of_nth file i m0 m H0 Hi) as [r [Hr Hf]].
    destruct (table_row_of_frame file table i r Himp Hr) as [row [Hrow Hb]].
    exists row. rewrite Hb. split; assumption.
Qed.

Lemma derived_rows_follow_the_file_witness :
  exists table,
    Child.import_weight_data scenario_mixed = Ok table /\
    length table = length scenario_mixed /\
    exists row,
      nth_error table 3 = Some row /\
      date (base row) = 5 /\
      measured_weight (base row) = 3.9%float /\
      life_days (base row) = 5 - 0 /\
      measurement_days (base row) = 5 - 0.
Proof.
  eexists. split; [ vm_compute; reflexivity | ].
  apply (derived_rows_follow_the_file scenario_mixed _ 3
           (mkMeasurement 0 3.5) (mkMeasurement 5 3.9));
    vm_compute; reflexivity.
Defined.

(** X3. When the table is returned, each row after the first has as
    [weight_gain] the binary64 difference of its weight to the weight
    of the row before, and as [daily_weight_gain] that gain divided by
    the days between the two rows and multiplied by 7. *)
Theorem gain_and_daily_rate_of_consecutive_rows
        (file : list Measurement) (table : list WeightRow)
        (i : nat) (prev row : WeightRow) :
  Child.import_weight_data file = Ok table ->
  nth_error table i = Some prev ->
  nth_error table (S i) = Some row ->
  weight_gain (base row)
  = (measured_weight (base row) - measured_weight (base prev))%float /\
  daily_weight_gain (base row)
  = (weight_gain (base row)
     / Py.float_of_Z (measurement_days (base row) - measurement_days (base prev))
     * 7)%float.
Proof.
  intros Himp Hp Hr.
  pose proof (import_weight_data_base _ _ Himp) as Hbase.
  assert (Hp' : nth_error (frame_of file) i = Some (base prev)).
  { rewrite <- Hbase, nth_error_map, Hp. reflexivity. }
  assert (Hr' : nth_error (frame_of file) (S i) = Some (base row)).
  { rewrite <- Hbase, nth_error_map, Hr. reflexivity. }
  split.
  - apply (frame_of_gain file i); assumption.
  - apply (frame_of_daily file i); assumption.
Qed.

Lemma gain_and_daily_rate_of_consecutive_rows_witness :
  exists table prev row,
    Child.import_weight_data scenario_same_day = Ok table /\
    nth_error table 1 = Some prev /\
    nth_error table 2 = Some row /\
    weight_gain (base row)
    = (measured_weight (base row) - measured_weight (base prev))%float /\
    daily_weight_gain (base row)
    = (weight_gain (base row)
       / Py.float_of_Z (measurement_days (base row) - measurement_days (base prev))
       * 7)%float.
Proof.
  eexists. eexists. eexists.
  split; [ vm_compute; reflexivity | ].
  split; [ vm_compute; reflexivity | ].
  split; [ vm_compute; reflexivity | ].
  eapply (gain_and_daily_rate_of_consecutive_rows scenario_same_day _ 1);
    vm_compute; reflexivity.
Defined.

(** X4. For a non-empty chronological file the table is returned, and
    every row measured within the first six days has NaN as weekly
    gain: its window holds the first row, whose gain is NaN, and the
    builtin [sum] does not skip it. *)
Theorem first_week_weekly_gain_undefined (file : list Measurement) :
  file <> [] -> chronological file ->
  exists table,
    Child.import_weight_data file = Ok table /\
    forall i row,
      nth_error table i = Some row ->
      measurement_days (base row) <= 6 ->
      weekly_weight_gain row = nan.
Proof.
  intros Hne Hs. exists (table_of file).
  split; [ apply import_weight_data_sorted; assumption | ].
  intros i row Hi Ha. rewrite table_of_nth in Hi.
  destruct (nth_error (frame_of file) i) as [r|] eqn:Er; [ | discriminate ].
  injection Hi as <-. simpl in *.
  destruct file as [|m ms]; [ congruence | ].
  apply (weekly_of_first_week m ms i r Er). split; [ | exact Ha ].
  pose proof (frame_of_days (m :: ms)) as Hd. rewrite Forall_forall in Hd.
  rewrite (Hd r (nth_error_In _ _ Er)).
  pose proof (first_is_least (frame_of (m :: ms)) (frame_of_sorted _ Hs)
                (first_row m) (rows_from (m_date m) m ms) r eq_refl
                (nth_error_In _ _ Er)) as Hle.
  simpl in Hle. lia.
Qed.

Lemma first_week_weekly_gain_undefined_witness :
  exists table,
    Child.import_weight_data scenario_mixed = Ok table /\
    forall i row,
      nth_error table i = Some row ->
      measurement_days (base row) <= 6 ->
      weekly_weight_gain row = nan.
Proof.
  apply (first_week_weekly_gain_undefined scenario_mixed);
    [ discriminate | reflexivity ].
Defined.

(** X5. For a non-empty chronological file, a row that is more than six
    days after the row before it, and strictly earlier than the row
    after it (if there is one), has its daily gain, which is scaled to
    a week, as weekly gain. *)
Theorem sparse_sample_weekly_gain (file : list Measurement) :
  file <> [] -> chronological file ->
  exists table,
    Child.import_weight_data file = Ok table /\
    forall i prev row,
      nth_error table i = Some prev ->
      nth_error table (S i) = Some row ->
      measurement_days (base row) - measurement_days (base prev) > 6 ->
      (forall next, nth_error table (S (S i)) = Some next ->
                    measurement_days (base row) < measurement_days (base next)) ->
      weekly_weight_gain row = daily_weight_gain (base row).
Proof.
  intros Hne Hs. exists (table_of file).
  split; [ apply import_weight_data_sorted; assumption | ].
  intros i prev row Hp Hr Hgap Hnext.
  rewrite table_of_nth in Hp, Hr.
  destruct (nth_error (frame_of file) i) as [p|] eqn:Ep; [ | discriminate ].
  destruct (nth_error (frame_of file) (S i)) as [r|] eqn:Er; [ | discriminate ].
  injection Hp as <-. injection Hr as <-.
  cbn [base weekly_weight_gain] in *.
  assert (Hnext' : forall next, nth_error (frame_of file) (S (S i)) = Some next ->
                                measurement_days r < measurement_days next).
  { intros next Hn.
    apply (Hnext (mkWeightRow next (weekly_of (frame_of file) (S (S i))))).
    rewrite table_of_nth, Hn. reflexivity. }
  pose proof (window_of_sparse_sample (frame_of file) i p r
                (frame_of_sorted_days file Hs) Ep Er Hgap Hnext') as Hw.
  unfold weekly_of. rewrite Er. unfold Spec.weekly_gain, Spec.sparse.
  rewrite Ep, Hw. simpl length. simpl Nat.eqb.
  replace (measurement_days r - measurement_days p >? 6) with true
    by (symmetry; rewrite Z.gtb_ltb; apply Z.ltb_lt; lia).
  reflexivity.
Qed.

Lemma sparse_sample_weekly_gain_witness :
  exists table,
    Child.import_weight_data scenario_weekly = Ok table /\
    forall i prev row,
      nth_error table i = Some prev ->
      nth_error table (S i) = Some row ->
      measurement_days (base row) - measurement_days (base prev) > 6 ->
      (forall next, nth_error table (S (S i)) = Some next ->
                    measurement_days (base row) < measurement_days (base next)) ->
      weekly_weight_gain row = daily_weight_gain (base row).
Proof.
  apply (sparse_sample_weekly_gain scenario_weekly);
    [ discriminate | reflexivity ].
Defined.

(** X6. Appending a sample that is later than every sample of a
    non-empty chronological file leaves the rows derived so far as they
    are: the new table is the old one followed by one row. *)
Theorem later_sample_keeps_earlier_rows (file : list Measurement)
        (m : Measurement) :
  file <> [] -> chronological file ->
  (forall m', In m' file -> m_date m' < m_date m) ->
  exists table row,
    Child.import_weight_data file = Ok table /\
    Child.import_weight_data (file ++ [m]) = Ok (table ++ [row]).
Proof.
  intros Hne Hs Hlater.
  destruct file as [|m0 ms]; [ congruence | ].
  destruct (table_of_snoc m0 ms m Hlater) as [row E].
  exists (table_of (m0 :: ms)), row.
  split; [ apply import_weight_data_sorted; assumption | ].
  rewrite <- E. apply import_weight_data_sorted; [ discriminate | ].
  unfold chronological. rewrite map_app. apply mono_inc_snoc; [ exact Hs | ].
  intros x Hx. apply in_map_iff in Hx. destruct Hx as [m' [<- Hm']].
  specialize (Hlater m' Hm'). lia.
Qed.

Lemma later_sample_keeps_earlier_rows_witness :
  exists table row,
    Child.import_weight_data scenario_mixed = Ok table /\
    Child.import_weight_data (scenario_mixed ++ [mkMeasurement 25 4.8])
    = Ok (table ++ [row]).
Proof.
  apply (later_sample_keeps_earlier_rows scenario_mixed (mkMeasurement 25 4.8)).
  - discriminate.
  - reflexivity.
  - intros m' Hm'. simpl in Hm'.
    repeat (destruct Hm' as [<- | Hm']; [ reflexivity | ]). destruct Hm'.
Defined.

(** X7. A file whose dates descend, and do not all coincide, is not
    refused: the table is returned with one row for each line, and the
    weekly gain of every row is 0, the sum of an empty window, because
    a label slice that runs forward is empty on a descending index. *)
Theorem descending_file_weekly_gain_zero (file : list Measurement) :
  Pandas.is_monotonic_decreasing (map m_date file) = true ->
  Pandas.is_monotonic_increasing (map m_date file) = false ->
  exists table,
    Child.import_weight_data file = Ok table /\
    length table = length file /\
    Forall (fun row => weekly_weight_gain row = 0%float) table.
Proof.
  intros Hd Hi. destruct file as [|m ms]; [ discriminate Hi | ].
  assert (Hd' : Pandas.is_monotonic_decreasing
                  (map life_days (frame_of (m :: ms))) = true)
    by (rewrite frame_of_life, mono_dec_shift; exact Hd).
  assert (Hi' : Pandas.is_monotonic_increasing
                  (map life_days (frame_of (m :: ms))) = false)
    by (rewrite frame_of_life, mono_inc_shift; exact Hi).
  rewrite import_unfold.
  rewrite (weekly_loop_values (frame_of (m :: ms)) (fun _ => 0%float)).
  - unfold bind. eexists. split; [ reflexivity | ].
    cbn [app]. split.
    + rewrite length_map, length_combine, length_map, length_seq,
        Nat.min_id. apply frame_of_length.
    + apply Forall_forall. intros row Hrow.
      apply in_map_iff in Hrow. destruct Hrow as [[r w] [<- Hin]].
      apply in_combine_r in Hin. apply in_map_iff in Hin.
      destruct Hin as [j [<- _]]. reflexivity.
  - intros i Hin. apply in_seq in Hin.
    apply weekly_at_descending; [ assumption | assumption | lia ].
Qed.

Lemma descending_file_weekly_gain_zero_witness :
  exists table,
    Child.import_weight_data (rev scenario_weekly) = Ok table /\
    length table = length (rev scenario_weekly) /\
    Forall (fun row => weekly_weight_gain row = 0%float) table.
Proof.
  apply (descending_file_weekly_gain_zero (rev scenario_weekly)); reflexivity.
Defined.

(** X8. A file whose dates neither ascend nor descend is refused with
    [KeyError] as soon as one of its samples has no sample dated
    exactly six days before it: the lower bound of the window of that
    sample cannot be placed in the index. *)
Theorem unordered_file_raises_key_error (file : list Measurement)
        (i : nat) (m : Measurement) :
  Pandas.is_monotonic_increasing (map m_date file) = false ->
  Pandas.is_monotonic_decreasing (map m_date file) = false ->
  nth_error file i = Some m ->
  (forall m', In m' file -> m_date m' <> m_date m - 6) ->
  Child.import_weight_data file = Raise KeyError.
Proof.
  intros Hinc Hdec Hi Hnone.
  destruct file as [|m0 ms]; [ discriminate Hinc | ].
  destruct (frame_of_nth (m0 :: ms) i m0 m eq_refl Hi)
    as [row [Hrow [_ [_ [Hlife _]]]]].
  rewrite import_unfold.
  rewrite (weekly_loop_raises (frame_of (m0 :: ms)) _ [] i);
    [ reflexivity | apply (seq_below 0) | | ].
  - apply in_seq. split; [ lia | ].
    assert (i < length (frame_of (m0 :: ms)))%nat
      by (apply nth_error_Some; congruence).
    lia.
  - apply (weekly_at_missing_label _ i row Hrow).
    + rewrite frame_of_life, mono_inc_shift. exact Hinc.
    + rewrite frame_of_life, mono_dec_shift. exact Hdec.
    + rewrite frame_of_life, map_map. apply Forall_forall.
      intros x Hx. apply in_map_iff in Hx. destruct Hx as [m' [<- Hm']].
      specialize (Hnone m' Hm'). rewrite Hlife. lia.
Qed.

Lemma unordered_file_raises_key_error_witness :
  Child.import_weight_data
    [mkMeasurement 0 3.5; mkMeasurement 5 3.9; mkMeasurement 3 3.7]
  = Raise KeyError.
Proof.
  apply (unordered_file_raises_key_error
           [mkMeasurement 0 3.5; mkMeasurement 5 3.9; mkMeasurement 3 3.7]
           0 (mkMeasurement 0 3.5)).
  - reflexivity.
  - reflexivity.
  - reflexivity.
  - intros m' Hm'. simpl in Hm'.
    repeat (destruct Hm' as [<- | Hm']; [ discriminate | ]). destruct Hm'.
Defined.

(** ** The percentile *)

(** X9. [calculate_child_percentiles] returns a number or raises
    [IndexError], nothing else; it returns exactly when the weight
    table has a last row and the age of that row lies in [-n, n), [n]
    being the number of rows of the reference table.  An empty weight
    table raises [IndexError]. *)
Theorem percentile_defined_or_index_error (ndtr : float -> float)
        (growth_data : list GrowthRow) (child_weight_data : list WeightRow)
        (weight_offset : float) :
  ((exists p, Child.calculate_child_percentiles ndtr growth_data
                child_weight_data weight_offset = Ok p)
   \/ Child.calculate_child_percentiles ndtr growth_data child_weight_data
        weight_offset = Raise IndexError)
  /\
  ((exists p, Child.calculate_child_percentiles ndtr growth_data
                child_weight_data weight_offset = Ok p)
   <-> exists prefix last_row,
         child_weight_data = prefix ++ [last_row] /\
         - Z.of_nat (length growth_data) <= life_days (base last_row)
           < Z.of_nat (length growth_data)).
Proof.
  destruct (iloc_errors child_weight_data (-1)) as [[last_row Hl] | Hl].
  - rewrite (calculate_unfold _ _ _ _ _ Hl).
    destruct (iloc_last_inv _ _ Hl) as [prefix E].
    destruct (iloc_errors growth_data (life_days (base last_row)))
      as [[g Hg] | Hg].
    + rewrite Hg. unfold bind. split; [ left; eexists; reflexivity | ].
      split; [ intros _ | intros _; eexists; reflexivity ].
      exists prefix, last_row. split; [ exact E | ].
      apply iloc_defined_iff. exists g. exact Hg.
    + rewrite Hg. unfold bind. split; [ right; reflexivity | ].
      split; [ intros [p H]; discriminate H | ].
      intros [prefix' [last_row' [E' Hin]]]. exfalso.
      rewrite E in E'. apply app_inj_tail in E'. destruct E' as [_ <-].
      apply iloc_defined_iff in Hin. destruct Hin as [g Hg'].
      rewrite Hg in Hg'. discriminate Hg'.
  - unfold Child.calculate_child_percentiles. rewrite Hl. unfold bind.
    split; [ right; reflexivity | ].
    split; [ intros [p H]; discriminate H | ].
    intros [prefix [last_row [E _]]]. exfalso.
    rewrite E, iloc_last_app in Hl. discriminate Hl.
Qed.

(** X10. The percentile depends on the weight table only through the age
    and the weight of its last row: two tables whose last rows agree
    on both have the same outcome, whatever the rows before. *)
Theorem percentile_reads_last_row_only (ndtr : float -> float)
        (growth_data : list GrowthRow) (prefix1 prefix2 : list WeightRow)
        (row1 row2 : WeightRow) (weight_offset : float) :
  life_days (base row1) = life_days (base row2) ->
  measured_weight (base row1) = measured_weight (base row2) ->
  Child.calculate_child_percentiles ndtr growth_data (prefix1 ++ [row1])
                                    weight_offset
  = Child.calculate_child_percentiles ndtr growth_data (prefix2 ++ [row2])
                                      weight_offset.
Proof.
  intros Hd Hw.
  rewrite (calculate_unfold _ _ _ _ _ (iloc_last_app prefix1 row1)).
  rewrite (calculate_unfold _ _ _ _ _ (iloc_last_app prefix2 row2)).
  rewrite Hd, Hw. reflexivity.
Qed.

Lemma percentile_reads_last_row_only_witness :
  Child.calculate_child_percentiles ndtr_step who_three
    (table_of scenario_mixed ++ [mkWeightRow (mkRow 24 3.4 2 2 0.1 0.1) 0.2]) 0
  = Child.calculate_child_percentiles ndtr_step who_three
      ([] ++ [mkWeightRow (mkRow 2 3.4 2 0 nan nan) nan]) 0.
Proof.
  apply (percentile_reads_last_row_only ndtr_step who_three
           (table_of scenario_mixed) []); reflexivity.
Defined.

(** X11. With a distribution function [ndtr] whose values on numbers lie
    between 0 and 1, a percentile that is returned is NaN or lies
    between 0 and 1. *)
Theorem percentile_between_zero_and_one (ndtr : float -> float)
        (growth_data : list GrowthRow) (child_weight_data : list WeightRow)
        (weight_offset p : float) :
  (forall a, is_nan a = false ->
             (0 <=? ndtr a)%float = true /\ (ndtr a <=? 1)%float = true) ->
  Child.calculate_child_percentiles ndtr growth_data child_weight_data
                                    weight_offset = Ok p ->
  p = nan \/ ((0 <=? p)%float = true /\ (p <=? 1)%float = true).
Proof.
  intros Hrange H.
  destruct (iloc_errors child_weight_data (-1)) as [[last_row Hl] | Hl].
  - rewrite (calculate_unfold _ _ _ _ _ Hl) in H.
    destruct (Py.iloc growth_data (life_days (base last_row))) as [g|e];
      [ | discriminate H ].
    unfold bind in H. injection H as <-.
    apply norm_cdf_range. exact Hrange.
  - unfold Child.calculate_child_percentiles in H. rewrite Hl in H.
    discriminate H.
Qed.

Lemma percentile_between_zero_and_one_witness :
  exists p,
    Child.calculate_child_percentiles ndtr_step who_three
      (table_of scenario_lighter) 0.25 = Ok p /\
    (p = nan \/ ((0 <=? p)%float = true /\ (p <=? 1)%float = true)).
Proof.
  eexists. split; [ vm_compute; reflexivity | ].
  apply (percentile_between_zero_and_one ndtr_step who_three
           (table_of scenario_lighter) 0.25).
  - intros a _. apply ndtr_step_range.
  - vm_compute. reflexivity.
Defined.

(** X12. When both lookups succeed, the percentile is NaN, and nothing is
    raised, if the weight of the last row is NaN (a missing value), if
    the offset is NaN, or if the scale of the reference row, its mean
    minus its -1SD landmark, is not positive. *)
Theorem undefined_inputs_give_nan (ndtr : float -> float)
        (growth_data : list GrowthRow) (child_weight_data : list WeightRow)
        (weight_offset : float) (last_row : WeightRow) (g : GrowthRow) :
  Py.iloc child_weight_data (-1) = Ok last_row ->
  Py.iloc growth_data (life_days (base last_row)) = Ok g ->
  is_nan (measured_weight (base last_row)) = true
  \/ is_nan weight_offset = true
  \/ (0 <? SD0 g - SD1neg g)%float = false ->
  Child.calculate_child_percentiles ndtr growth_data child_weight_data
                                    weight_offset = Ok nan.
Proof.
  intros Hlast Hg Hbad.
  rewrite (calculate_unfold _ _ _ _ _ Hlast), Hg. unfold bind. f_equal.
  destruct Hbad as [Hw | [Ho | Hs]].
  - apply norm_cdf_nan_argument.
    rewrite (is_nan_eq _ Hw), sub_nan_l, div_nan_l. reflexivity.
  - apply norm_cdf_nan_argument.
    rewrite (is_nan_eq _ Ho), add_nan_r, sub_nan_r, div_nan_l. reflexivity.
  - apply norm_cdf_bad_scale. exact Hs.
Qed.

Lemma undefined_inputs_give_nan_witness :
  Child.calculate_child_percentiles ndtr_step who_three
    [mkWeightRow (mkRow 0 nan 0 0 nan nan) nan] 0 = Ok nan.
Proof.
  eapply (undefined_inputs_give_nan ndtr_step who_three);
    [ reflexivity | reflexivity | left; reflexivity ].
Defined.

(** X13. For a fixed table whose last weight is a number, a reference row
    with a positive finite scale, finite offsets and finite shifted
    means, the percentile does not increase when the offset increases;
    [ndtr] is taken non-decreasing with values between 0 and 1. *)
Theorem percentile_antitone_in_offset (ndtr : float -> float)
        (growth_data : list GrowthRow) (child_weight_data : list WeightRow)
        (offset1 offset2 : float) (last_row : WeightRow) (g : GrowthRow) :
  (forall a b, (a <=? b)%float = true -> (ndtr a <=? ndtr b)%float = true) ->
  (forall a, is_nan a = false ->
             (0 <=? ndtr a)%float = true /\ (ndtr a <=? 1)%float = true) ->
  Py.iloc child_weight_data (-1) = Ok last_row ->
  Py.iloc growth_data (life_days (base last_row)) = Ok g ->
  is_nan (measured_weight (base last_row)) = false ->
  (offset1 <=? offset2)%float = true ->
  (neg_infinity <? offset1)%float = true ->
  (offset2 <? infinity)%float = true ->
  (neg_infinity <? SD0 g + offset1)%float = true ->
  (SD0 g + offset2 <? infinity)%float = true ->
  (0 <? SD0 g - SD1neg g)%float = true ->
  (SD0 g - SD1neg g <? infinity)%float = true ->
  exists p1 p2,
    Child.calculate_child_percentiles ndtr growth_data child_weight_data
                                      offset1 = Ok p1 /\
    Child.calculate_child_percentiles ndtr growth_data child_weight_data
                                      offset2 = Ok p2 /\
    (p2 <=? p1)%float = true.
Proof.
  intros Hmono Hrange Hlast Hg Nw Hle Ho1 Ho2 Hl1 Hl2 Hs1 Hs2.
  rewrite !(calculate_unfold _ _ _ _ _ Hlast), Hg. unfold bind.
  eexists. eexists. split; [ reflexivity | ]. split; [ reflexivity | ].
  destruct (ltb_true_numbers _ _ Hl1) as [_ Nsum].
  pose proof (add_number_l _ _ Nsum) as Nl.
  pose proof (add_mono_r (SD0 g) offset1 offset2 Nl Hle Ho1 Ho2) as Hsum.
  apply norm_cdf_mono_arg; try assumption.
  apply div_mono; try assumption.
  apply sub_antitone_r; assumption.
Qed.

Lemma percentile_antitone_in_offset_witness :
  exists p1 p2,
    Child.calculate_child_percentiles ndtr_step who_three
      (table_of scenario_heavier) 0.25 = Ok p1 /\
    Child.calculate_child_percentiles ndtr_step who_three
      (table_of scenario_heavier) 0.5 = Ok p2 /\
    (p2 <=? p1)%float = true.
Proof.
  eapply (percentile_antitone_in_offset ndtr_step who_three
            (table_of scenario_heavier) 0.25 0.5).
  - exact ndtr_step_mono.
  - intros a _. apply ndtr_step_range.
  - reflexivity.
  - reflexivity.
  - reflexivity.
  - reflexivity.
  - reflexivity.
  - reflexivity.
  - reflexivity.
  - reflexivity.
  - reflexivity.
  - reflexivity.
Defined.

(** X14. The percentile of a table returned for a file is determined by
    the first date and the last line of the file: it is the
    distribution function at the weight of the last line, for the
    reference row found at the days from the first date to the last. *)
Theorem percentile_of_imported_file (ndtr : float -> float)
        (growth_data : list GrowthRow) (file prefix : list Measurement)
        (table : list WeightRow) (m0 m : Measurement)
        (weight_offset : float) (g : GrowthRow) :
  Child.import_weight_data file = Ok table ->
  nth_error file 0 = Some m0 ->
  file = prefix ++ [m] ->
  Py.iloc growth_data (m_date m - m_date m0) = Ok g ->
  Child.calculate_child_percentiles ndtr growth_data table weight_offset
  = Ok (Scipy.norm_cdf ndtr (m_weight m) (SD0 g + weight_offset)
                       (SD0 g - SD1neg g)).
Proof.
  intros Himp H0 Hfile Hg.
  assert (Hm : nth_error file (length prefix) = Some m)
    by (rewrite Hfile, nth_error_app2, Nat.sub_diag by lia; reflexivity).
  destruct (frame_of_nth file (length prefix) m0 m H0 Hm)
    as [r [Hr [_ [Hw [Hl _]]]]].
  destruct (table_row_of_frame file table (length prefix) r Himp Hr)
    as [row [Hrow Hb]].
  assert (Hlen : length table = S (length prefix)).
  { rewrite <- (length_map base), (import_weight_data_base _ _ Himp),
      frame_of_length, Hfile, length_app. simpl. lia. }
  assert (Hlast : Py.iloc table (-1) = Ok row).
  { apply iloc_last_nth. rewrite Hlen.
    replace (S (length prefix) - 1)%nat with (length prefix) by lia.
    exact Hrow. }
  rewrite (calculate_unfold _ _ _ _ _ Hlast), Hb, Hl, Hg, Hw. reflexivity.
Qed.

Lemma percentile_of_imported_file_witness :
  Child.calculate_child_percentiles ndtr_step who_three
    (table_of scenario_lighter) 0.25
  = Ok (Scipy.norm_cdf ndtr_step 3.4 (3.5 + 0.25) (3.5 - 3.1)).
Proof.
  apply (percentile_of_imported_file ndtr_step who_three scenario_lighter
           [mkMeasurement 0 3.2] (table_of scenario_lighter)
           (mkMeasurement 0 3.2) (mkMeasurement 2 3.4) 0.25
           (mkGrowthRow 2 3.5 4.1 3.1 4.6 2.7 5.2 2.3)).
  - vm_compute. reflexivity.
  - reflexivity.
  - reflexivity.
  - reflexivity.
Defined.

(** ** The constructor and the text of an object *)

(** X15. When the constructor returns, the gender is [male] or [female],
    the reference table of the object is what [read_csv] gave for the
    WHO table of that gender (boys for [male], girls for [female])
    with the tabulator as separator, the gender, the birthday and the
    name are stored as given, and three calls were made: the
    announcement is printed, the table is read, [done.] is printed. *)
Theorem constructed_object
        (read_csv : String.string -> String.string -> result (list GrowthRow))
        (gender birthday name : String.string)
        (calls : list event) (self : Object) :
  Child.__init__ read_csv gender birthday name = (calls, Ok self) ->
  exists url,
    (gender = "male"%string /\
     url = "http://www.who.int/childgrowth/standards/wfa_boys_z_exp.txt"%string
     \/ gender = "female"%string /\
        url = "http://www.who.int/childgrowth/standards/wfa_girls_z_exp.txt"%string)
    /\ read_csv url tab = Ok (_growth_data self)
    /\ _gender self = gender /\ _birthday self = birthday /\ _name self = name
    /\ calls = [print (announcement gender); pd_read_csv url tab; print "done."].
Proof.
  intros H.
  destruct (gender_cases gender) as [Hv | [Hm Hf]].
  - rewrite (init_valid_gender read_csv gender birthday name Hv) in H.
    exists (who_url gender).
    destruct (read_csv (who_url gender) tab) as [table|e] eqn:E;
      [ | discriminate H ].
    injection H as <- <-.
    split; [ destruct Hv as [-> | ->]; [ left | right ]; split; reflexivity | ].
    repeat split; reflexivity.
  - rewrite (init_other_gender read_csv gender birthday name Hm Hf) in H.
    discriminate H.
Qed.

Lemma constructed_object_witness :
  exists url,
    ("female"%string = "male"%string /\
     url = "http://www.who.int/childgrowth/standards/wfa_boys_z_exp.txt"%string
     \/ "female"%string = "female"%string /\
        url = "http://www.who.int/childgrowth/standards/wfa_girls_z_exp.txt"%string)
    /\ (fun _ _ => Ok who_three) url tab
       = Ok (_growth_data (mkObject "female" "2020-02-01" "Ada" who_three))
    /\ _gender (mkObject "female" "2020-02-01" "Ada" who_three) = "female"%string
    /\ _birthday (mkObject "female" "2020-02-01" "Ada" who_three)
       = "2020-02-01"%string
    /\ _name (mkObject "female" "2020-02-01" "Ada" who_three) = "Ada"%string
    /\ [print "retrieving WHO child growth data for females ...";
        pd_read_csv "http://www.who.int/childgrowth/standards/wfa_girls_z_exp.txt"
                    tab;
        print "done."]
       = [print (announcement "female"); pd_read_csv url tab; print "done."].
Proof.
  apply (constructed_object (fun _ _ => Ok who_three)
           "female" "2020-02-01" "Ada"
           [print "retrieving WHO child growth data for females ...";
            pd_read_csv
              "http://www.who.int/childgrowth/standards/wfa_girls_z_exp.txt" tab;
            print "done."]
           (mkObject "female" "2020-02-01" "Ada" who_three)).
  reflexivity.
Defined.

(** X16. The constructor raises [ValueError] with nothing but the
    announcement printed exactly for the genders other than [male] and
    [female], in this exact spelling: no table is asked for then,
    whatever [read_csv] would do. *)
Theorem constructor_rejects_other_genders
        (read_csv : String.string -> String.string -> result (list GrowthRow))
        (gender birthday name : String.string) :
  (gender <> "male"%string /\ gender <> "female"%string)
  <-> Child.__init__ read_csv gender birthday name
      = ([print (announcement gender)], Raise ValueError).
Proof.
  split.
  - intros [Hm Hf]. apply init_other_gender; assumption.
  - intros H. destruct (gender_cases gender) as [Hv | Hn]; [ | exact Hn ].
    exfalso.
    rewrite (init_valid_gender read_csv gender birthday name Hv) in H.
    destruct (read_csv (who_url gender) tab); discriminate H.
Qed.

(** X17. The line [done.] is printed exactly when the constructor returns
    an object: never when the gender is refused, and never when
    reading the table raises. *)
Theorem done_printed_iff_constructed
        (read_csv : String.string -> String.string -> result (list GrowthRow))
        (gender birthday name : String.string) :
  In (print "done.") (fst (Child.__init__ read_csv gender birthday name))
  <-> exists self,
        snd (Child.__init__ read_csv gender birthday name) = Ok self.
Proof.
  assert (Hann : print "done." <> print (announcement gender))
    by (unfold announcement; simpl; discriminate).
  destruct (gender_cases gender) as [Hv | [Hm Hf]].
  - rewrite (init_valid_gender read_csv gender birthday name Hv).
    destruct (read_csv (who_url gender) tab) as [table|e]; cbn [fst snd].
    + split; [ intros _; eexists; reflexivity | ].
      intros _. right. right. left. reflexivity.
    + split.
      * intros [H | [H | []]]; [ congruence | discriminate H ].
      * intros [self H]. discriminate H.
  - rewrite (init_other_gender read_csv gender birthday name Hm Hf).
    cbn [fst snd]. split.
    + intros [H | []]. congruence.
    + intros [self H]. discriminate H.
Qed.

(** X18. The text of an object determines its attributes: two objects
    whose names and birthdays hold no line feed and whose texts are
    equal have the same name, birthday and gender. *)
Theorem attributes_read_back_from_text (self other : Object) :
  single_line (_name self) = true -> single_line (_name other) = true ->
  single_line (_birthday self) = true ->
  single_line (_birthday other) = true ->
  Child.__str__ self = Child.__str__ other ->
  _name self = _name other /\ _birthday self = _birthday other
  /\ _gender self = _gender other.
Proof.
  intros Hn Hn' Hb Hb' H. unfold Child.__str__ in H.
  apply append_prefix_inj in H.
  apply append_line_inj in H; [ | assumption | assumption ].
  destruct H as [En H]. apply append_prefix_inj in H.
  apply append_line_inj in H; [ | assumption | assumption ].
  destruct H as [Eb H]. apply append_prefix_inj in H.
  repeat split; assumption.
Qed.

Lemma attributes_read_back_from_text_witness :
  _name ada = _name (mkObject "female" "2020-02-01" "Ada" [])
  /\ _birthday ada = _birthday (mkObject "female" "2020-02-01" "Ada" [])
  /\ _gender ada = _gender (mkObject "female" "2020-02-01" "Ada" []).
Proof.
  apply (attributes_read_back_from_text ada
           (mkObject "female" "2020-02-01" "Ada" [])); reflexivity.
Defined.

(** ** Drawing *)

(** X19. [plot] fails with a [LookupError] (a [KeyError] or an
    [IndexError], by the index of the empty table) before any drawing
    call is made exactly when the weight table or the reference table
    is empty, in every mode: the label 0 is looked up in both tables
    first. *)
Theorem plot_without_first_row_draws_nothing (ndtr : float -> float)
        (self : Object) (child_weight_data : list WeightRow)
        (x_lim y_lim : pyval) (mode : String.string) :
  (child_weight_data = [] \/ _growth_data self = [])
  <-> Child.plot ndtr self child_weight_data x_lim y_lim mode
      = ([], Raise LookupError).
Proof.
  split.
  - intros [H | H]; unfold Child.plot; rewrite H.
    + reflexivity.
    + destruct child_weight_data as [|r rest]; reflexivity.
  - intros H.
    destruct child_weight_data as [|r0 rest]; [ left; reflexivity | ].
    destruct (_growth_data self) as [|g0 grest] eqn:Eg;
      [ right; reflexivity | ].
    exfalso.
    rewrite (plot_unfold ndtr self (r0 :: rest) x_lim y_lim mode r0 g0)
      in H; [ | reflexivity | rewrite Eg; reflexivity ].
    destruct (String.eqb mode "WHO_only");
      [ | destruct (String.eqb mode "child_specific");
          [ | destruct (String.eqb mode "both") ] ];
      try rewrite tbind_emit in H;
      unfold tbind at 1 in H; cbn [fst snd lift] in H;
      match type of H with
      | context [match ?r with Ok _ => _ | Raise _ => _ end] =>
          destruct r; discriminate H
      | _ => discriminate H
      end.
Qed.

(** X20. A mode other than [WHO_only], [child_specific] and [both] is not
    refused: with non-empty tables [plot] draws nothing, calls
    [plt.show] and returns. *)
Theorem plot_unknown_mode_only_shows (ndtr : float -> float)
        (self : Object) (child_weight_data : list WeightRow)
        (x_lim y_lim : pyval) (mode : String.string) :
  child_weight_data <> [] -> _growth_data self <> [] ->
  mode <> "WHO_only"%string -> mode <> "child_specific"%string ->
  mode <> "both"%string ->
  Child.plot ndtr self child_weight_data x_lim y_lim mode
  = ([plt_show], Ok tt).
Proof.
  intros Hc Hg H1 H2 H3.
  destruct child_weight_data as [|r0 rest] eqn:Ec; [ congruence | ].
  destruct (_growth_data self) as [|g0 grest] eqn:Eg; [ congruence | ].
  rewrite (plot_unfold ndtr self (r0 :: rest) x_lim y_lim mode r0 g0);
    [ | reflexivity | rewrite Eg; reflexivity ].
  apply String.eqb_neq in H1. apply String.eqb_neq in H2.
  apply String.eqb_neq in H3. rewrite H1, H2, H3. reflexivity.
Qed.

Lemma plot_unknown_mode_only_shows_witness :
  Child.plot ndtr_step ada (table_of scenario_single) (py_int 400) (py_int 10)
              "who_only"
  = ([plt_show], Ok tt).
Proof.
  apply (plot_unknown_mode_only_shows ndtr_step ada (table_of scenario_single));
    discriminate.
Defined.

(** X21. In the three modes, when the percentile cannot be computed (the
    age of the last sample is outside the reference table), [plot]
    raises that exception after the figure, the curves and the points
    have been drawn: the last call is [plt.errorbar], no legend is set
    and [plt.show] is not called. *)
Theorem plot_stops_before_the_legend (ndtr : float -> float)
        (self : Object) (child_weight_data : list WeightRow)
        (x_lim y_lim : pyval) (mode : String.string)
        (r0 : WeightRow) (g0 : GrowthRow) (e : exn) :
  nth_error child_weight_data 0 = Some r0 ->
  nth_error (_growth_data self) 0 = Some g0 ->
  mode = "WHO_only"%string \/ mode = "child_specific"%string
  \/ mode = "both"%string ->
  Child.calculate_child_percentiles ndtr (_growth_data self)
    child_weight_data 0 = Raise e ->
  exists calls x y kw,
    Child.plot ndtr self child_weight_data x_lim y_lim mode
    = (calls ++ [plt_errorbar x y kw], Raise e) /\
    ~ In plt_show (calls ++ [plt_errorbar x y kw]) /\
    forall labels, ~ In (plt_legend labels) (calls ++ [plt_errorbar x y kw]).
Proof.
  intros Hr Hg Hmode H.
  rewrite (plot_unfold ndtr self child_weight_data x_lim y_lim mode r0 g0 Hr Hg).
  destruct Hmode as [-> | [-> | ->]]; cbn [String.eqb Ascii.eqb Bool.eqb].
  - destruct (panel_raises ndtr self child_weight_data x_lim y_lim
                "C0" 0 "WHO mean" e H) as [calls [x [y [kw [E [HS HG]]]]]].
    exists (plt_figure [py_float 7.5; py_int 5] :: calls), x, y, kw.
    rewrite tbind_emit, E. cbn [fst snd]. rewrite tbind_raised.
    split; [ reflexivity | ].
    split; [ intros [Hin | Hin]; [ discriminate Hin | exact (HS Hin) ] | ].
    intros labels [Hin | Hin]; [ discriminate Hin | exact (HG labels Hin) ].
  - destruct (panel_raises ndtr self child_weight_data x_lim y_lim
                "C1" 0 (_name self) e H) as [calls [x [y [kw [E [HS HG]]]]]].
    exists (plt_figure [py_float 7.5; py_int 5] :: calls), x, y, kw.
    rewrite tbind_emit, E. cbn [fst snd]. rewrite tbind_raised.
    split; [ reflexivity | ].
    split; [ intros [Hin | Hin]; [ discriminate Hin | exact (HS Hin) ] | ].
    intros labels [Hin | Hin]; [ discriminate Hin | exact (HG labels Hin) ].
  - destruct (panel_raises ndtr self child_weight_data x_lim y_lim
                "C0" 0 "WHO mean" e H) as [calls [x [y [kw [E [HS HG]]]]]].
    exists (plt_figure [py_int 15; py_int 5] :: plt_subplot 1 2 1 :: calls),
      x, y, kw.
    rewrite !tbind_emit, E. cbn [fst snd]. rewrite !tbind_raised.
    cbn [fst snd]. rewrite tbind_raised.
    split; [ reflexivity | ].
    split; [ intros [Hin | [Hin | Hin]];
             [ discriminate Hin | discriminate Hin | exact (HS Hin) ] | ].
    intros labels [Hin | [Hin | Hin]];
      [ discriminate Hin | discriminate Hin | exact (HG labels Hin) ].
Qed.

Lemma plot_stops_before_the_legend_witness :
  exists calls x y kw,
    Child.plot ndtr_step ada (table_of scenario_same_day)
                (py_int 400) (py_int 10) "both"
    = (calls ++ [plt_errorbar x y kw], Raise IndexError) /\
    ~ In plt_show (calls ++ [plt_errorbar x y kw]) /\
    forall labels, ~ In (plt_legend labels) (calls ++ [plt_errorbar x y kw]).
Proof.
  eapply (plot_stops_before_the_legend ndtr_step ada
            (table_of scenario_same_day) (py_int 400) (py_int 10) "both").
  - reflexivity.
  - reflexivity.
  - right. right. reflexivity.
  - reflexivity.
Defined.

(** X22. When the percentile without offset is [p0], [plot] returns in
    each of the three modes and calls [plt.show] last and only once.
    The legend shows [p0] in the mode [WHO_only] and also in the mode
    [child_specific], where no offset is passed on; in the mode [both]
    the legends show [p0] on the left and, on the right, the percentile
    computed with the difference of the first weight to the first
    reference mean as offset. *)
Theorem plot_legend_percentiles (ndtr : float -> float)
        (self : Object) (child_weight_data : list WeightRow)
        (x_lim y_lim : pyval) (r0 : WeightRow) (g0 : GrowthRow) (p0 : float) :
  nth_error child_weight_data 0 = Some r0 ->
  nth_error (_growth_data self) 0 = Some g0 ->
  Child.calculate_child_percentiles ndtr (_growth_data self)
    child_weight_data 0 = Ok p0 ->
  (exists calls,
     Child.plot ndtr self child_weight_data x_lim y_lim "WHO_only"
     = (calls ++ [plt_show], Ok tt) /\
     legend_percentiles calls = [p0] /\ ~ In plt_show calls)
  /\
  (exists calls,
     Child.plot ndtr self child_weight_data x_lim y_lim "child_specific"
     = (calls ++ [plt_show], Ok tt) /\
     legend_percentiles calls = [p0] /\ ~ In plt_show calls)
  /\
  (exists calls p1,
     Child.calculate_child_percentiles ndtr (_growth_data self)
       child_weight_data (measured_weight (base r0) - SD0 g0) = Ok p1 /\
     Child.plot ndtr self child_weight_data x_lim y_lim "both"
     = (calls ++ [plt_show], Ok tt) /\
     legend_percentiles calls = [p0; p1] /\ ~ In plt_show calls).
Proof.
  intros Hr Hg H.
  split; [ | split;
             [ | exact (plot_both_panels ndtr self child_weight_data
                          x_lim y_lim r0 g0 p0 Hr Hg H) ] ];
    rewrite (plot_unfold ndtr self child_weight_data x_lim y_lim _ r0 g0 Hr Hg);
    cbn [String.eqb Ascii.eqb Bool.eqb].
  - destruct (panel_returns ndtr self child_weight_data x_lim y_lim
                "C0" 0 "WHO mean" p0 H) as [who [Ew [Lw Sw]]].
    exists (plt_figure [py_float 7.5; py_int 5] :: who).
    rewrite tbind_emit, Ew. cbn [fst snd]. rewrite tbind_returned.
    split; [ reflexivity | ].
    split; [ exact Lw | ].
    intros [Hin | Hin]; [ discriminate Hin | exact (Sw Hin) ].
  - destruct (panel_returns ndtr self child_weight_data x_lim y_lim
                "C1" 0 (_name self) p0 H) as [own [Eo [Lo So]]].
    exists (plt_figure [py_float 7.5; py_int 5] :: own).
    rewrite tbind_emit, Eo. cbn [fst snd]. rewrite tbind_returned.
    split; [ reflexivity | ].
    split; [ exact Lo | ].
    intros [Hin | Hin]; [ discriminate Hin | exact (So Hin) ].
Qed.

Lemma plot_legend_percentiles_witness :
  (exists calls,
     Child.plot ndtr_step ada (table_of scenario_single)
                 (py_int 400) (py_int 10) "WHO_only"
     = (calls ++ [plt_show], Ok tt) /\
     legend_percentiles calls = [1%float] /\ ~ In plt_show calls)
  /\
  (exists calls,
     Child.plot ndtr_step ada (table_of scenario_single)
                 (py_int 400) (py_int 10) "child_specific"
     = (calls ++ [plt_show], Ok tt) /\
     legend_percentiles calls = [1%float] /\ ~ In plt_show calls)
  /\
  (exists calls p1,
     Child.calculate_child_percentiles ndtr_step (_growth_data ada)
       (table_of scenario_single) (4.0 - 3.3) = Ok p1 /\
     Child.plot ndtr_step ada (table_of scenario_single)
                 (py_int 400) (py_int 10) "both"
     = (calls ++ [plt_show], Ok tt) /\
     legend_percentiles calls = [1%float; p1] /\ ~ In plt_show calls).
Proof.
  apply (plot_legend_percentiles ndtr_step ada (table_of scenario_single)
           (py_int 400) (py_int 10)
           (mkWeightRow (first_row (mkMeasurement 0 4.0)) nan)
           (mkGrowthRow 0 3.3 3.9 2.9 4.4 2.5 5.0 2.1) 1).
  - reflexivity.
  - reflexivity.
  - reflexivity.
Defined.

(** X23. In the mode [both], for a reference row with finite mean and
    positive finite scale, a last weight that is a number and a finite
    difference of the first weight to the first reference mean with a
    finite shifted mean: if that difference is at least 0, the
    percentile shown on the right is at most the one shown on the
    left, and if it is at most 0, the percentile on the right is at
    least the one on the left; [ndtr] is taken non-decreasing with
    values between 0 and 1. *)
Theorem adjusted_percentile_against_who_percentile
        (ndtr : float -> float) (self : Object)
        (child_weight_data : list WeightRow) (x_lim y_lim : pyval)
        (r0 last_row : WeightRow) (g0 g : GrowthRow) :
  (forall a b, (a <=? b)%float = true -> (ndtr a <=? ndtr b)%float = true) ->
  (forall a, is_nan a = false ->
             (0 <=? ndtr a)%float = true /\ (ndtr a <=? 1)%float = true) ->
  nth_error child_weight_data 0 = Some r0 ->
  nth_error (_growth_data self) 0 = Some g0 ->
  Py.iloc child_weight_data (-1) = Ok last_row ->
  Py.iloc (_growth_data self) (life_days (base last_row)) = Ok g ->
  is_nan (measured_weight (base last_row)) = false ->
  let child_diff2mean := (measured_weight (base r0) - SD0 g0)%float in
  (neg_infinity <? child_diff2mean)%float = true ->
  (child_diff2mean <? infinity)%float = true ->
  (neg_infinity <? SD0 g)%float = true ->
  (SD0 g <? infinity)%float = true ->
  (neg_infinity <? SD0 g + child_diff2mean)%float = true ->
  (SD0 g + child_diff2mean <? infinity)%float = true ->
  (0 <? SD0 g - SD1neg g)%float = true ->
  (SD0 g - SD1neg g <? infinity)%float = true ->
  exists calls p_who p_child,
    Child.plot ndtr self child_weight_data x_lim y_lim "both"
    = (calls ++ [plt_show], Ok tt) /\
    legend_percentiles calls = [p_who; p_child] /\
    ((0 <=? child_diff2mean)%float = true ->
     (p_child <=? p_who)%float = true) /\
    ((child_diff2mean <=? 0)%float = true ->
     (p_who <=? p_child)%float = true).
Proof.
  intros Hmono Hrange Hr Hg Hlast Hrow Nw d Hd1 Hd2 Hm1 Hm2 Hl1 Hl2 Hs1 Hs2.
  assert (H0 : Child.calculate_child_percentiles ndtr (_growth_data self)
                 child_weight_data 0
               = Ok (Scipy.norm_cdf ndtr (measured_weight (base last_row))
                       (SD0 g + 0) (SD0 g - SD1neg g)))
    by (rewrite (calculate_unfold _ _ _ _ _ Hlast), Hrow; reflexivity).
  destruct (plot_both_panels ndtr self child_weight_data
              x_lim y_lim r0 g0 _ Hr Hg H0) as [calls [p1 [Hp [E [L S]]]]].
  fold d in Hp.
  rewrite (calculate_unfold _ _ _ _ _ Hlast), Hrow in Hp. unfold bind in Hp.
  injection Hp as <-.
  exists calls. eexists. eexists.
  split; [ exact E | ]. split; [ exact L | ].
  destruct (ltb_true_numbers _ _ Hm1) as [_ Nm].
  assert (Z1 : (neg_infinity <? 0)%float = true) by reflexivity.
  assert (Z2 : (0 <? infinity)%float = true) by reflexivity.
  destruct (add_zero_order (SD0 g) Nm) as [Ez Nz].
  assert (Hz1 : (neg_infinity <? SD0 g + 0)%float = true)
    by (rewrite ltb_fval in Hm1 |- * by (assumption || reflexivity);
        rewrite Ez; exact Hm1).
  assert (Hz2 : (SD0 g + 0 <? infinity)%float = true)
    by (rewrite ltb_fval in Hm2 |- * by (assumption || reflexivity);
        rewrite Ez; exact Hm2).
  split; intros Hle.
  - apply norm_cdf_mono_arg; try assumption.
    apply div_mono; try assumption.
    apply sub_antitone_r; try assumption.
    apply add_mono_r; assumption.
  - apply norm_cdf_mono_arg; try assumption.
    apply div_mono; try assumption.
    apply sub_antitone_r; try assumption.
    apply add_mono_r; assumption.
Qed.

Lemma adjusted_percentile_against_who_percentile_witness :
  exists calls p_who p_child,
    Child.plot ndtr_step ada (table_of scenario_single)
                (py_int 400) (py_int 10) "both"
    = (calls ++ [plt_show], Ok tt) /\
    legend_percentiles calls = [p_who; p_child] /\
    ((0 <=? 4.0 - 3.3)%float = true -> (p_child <=? p_who)%float = true) /\
    ((4.0 - 3.3 <=? 0)%float = true -> (p_who <=? p_child)%float = true).
Proof.
  apply (adjusted_percentile_against_who_percentile ndtr_step ada
           (table_of scenario_single) (py_int 400) (py_int 10)
           (mkWeightRow (first_row (mkMeasurement 0 4.0)) nan)
           (mkWeightRow (first_row (mkMeasurement 0 4.0)) nan)
           (mkGrowthRow 0 3.3 3.9 2.9 4.4 2.5 5.0 2.1)
           (mkGrowthRow 0 3.3 3.9 2.9 4.4 2.5 5.0 2.1)).
  - exact ndtr_step_mono.
  - intros a _. apply ndtr_step_range.
  - reflexivity.
  - reflexivity.
  - reflexivity.
  - reflexivity.
  - reflexivity.
  - reflexivity.
  - reflexivity.
  - reflexivity.
  - reflexivity.
  - reflexivity.
  - reflexivity.
  - reflexivity.
  - reflexivity.
Defined.

(** X24. The arrays that [plot] hands together to [plt.plot],
    [plt.fill_between] and [plt.errorbar] have equal lengths, in every
    mode and for all tables. *)
Theorem drawn_arrays_have_equal_lengths (ndtr : float -> float)
        (self : Object) (child_weight_data : list WeightRow)
        (x_lim y_lim : pyval) (mode : String.string) :
  Forall well_shaped
         (fst (Child.plot ndtr self child_weight_data x_lim y_lim mode)).
Proof.
  unfold Child.plot.
  apply tbind_forall; [ apply lift_forall | intros first_weight ].
  apply tbind_forall; [ apply lift_forall | intros first_mean ].
  apply tbind_forall; [ | intros _; apply emit_forall; exact I ].
  destruct (String.eqb mode "WHO_only");
    [ | destruct (String.eqb mode "child_specific");
        [ | destruct (String.eqb mode "both") ] ];
    repeat first
      [ apply percentile_plot_well_shaped
      | apply tbind_forall; [ | intros ? ]
      | apply emit_forall; exact I
      | apply lift_forall ].
Qed.
